(** * godot-sandbox: the system-call boundary of the Sandbox node

    A shallow embedding of the host side of the sandbox
    ([sandbox_profiling.cpp]: the syscall handlers and the hotspot report
    of the profiler, and the [Sandbox] class declaration) together with
    the properties that the specification states about it and further
    properties of the handlers and of the report.

    Conventions of the embedding:
    - a handler [APICALL(api_x)] is the Rocq function [api_x], taking the
      tuple that [machine.sysargs<...>()] decoded and running in the monad
      [M] (state of the sandbox, C++ exceptions as [Throw]);
    - guest memory is a store of typed objects keyed by their base address;
      [memarray<T>(addr, n)] succeeds when the object at [addr] holds at
      least [n] elements of [T];
    - the engine (Godot) is an opaque collaborator: every call into it is
      recorded in [host_log] and answered by the oracle [host_reply], which
      sees the whole history of calls;
    - [Array] and [Dictionary] are reference types of the engine: a Variant
      of these kinds holds a reference into [m_arrays] / [m_dicts];
    - a [String] of the engine is carried as its UTF-8 encoding; its length
      and its characters are those of the code points ([code_points]). *)

From stdpp Require Import base gmap strings list pretty sorting.

Local Open Scope Z_scope.

(** ** Variants *)

(** [Variant::Type], restricted to the kinds the handlers name. *)
Inductive VariantType :=
| NIL | BOOL | INT | FLOAT | STRING | VECTOR2 | VECTOR3
| STRING_NAME | NODE_PATH | OBJECT | CALLABLE | DICTIONARY | ARRAY
| PACKED_BYTE_ARRAY | PACKED_INT32_ARRAY | PACKED_INT64_ARRAY
| PACKED_FLOAT32_ARRAY | PACKED_FLOAT64_ARRAY
| PACKED_VECTOR2_ARRAY | PACKED_VECTOR3_ARRAY
| OTHER_TYPE (n : Z).

#[global] Instance VariantType_eq_dec : EqDecision VariantType.
Proof. solve_decision. Defined.

(** The element kinds of the engine's packed arrays. *)
Inductive PackedKind :=
| PackedByte | PackedInt32 | PackedInt64 | PackedFloat32 | PackedFloat64
| PackedVector2 | PackedVector3.

#[global] Instance PackedKind_eq_dec : EqDecision PackedKind.
Proof. solve_decision. Defined.

Definition packed_type (k : PackedKind) : VariantType :=
  match k with
  | PackedByte => PACKED_BYTE_ARRAY
  | PackedInt32 => PACKED_INT32_ARRAY
  | PackedInt64 => PACKED_INT64_ARRAY
  | PackedFloat32 => PACKED_FLOAT32_ARRAY
  | PackedFloat64 => PACKED_FLOAT64_ARRAY
  | PackedVector2 => PACKED_VECTOR2_ARRAY
  | PackedVector3 => PACKED_VECTOR3_ARRAY
  end.

(** The engine's [Variant]. Floats are carried as bit patterns; an object is
    its raw host address; arrays and dictionaries are references. *)
Inductive Variant :=
| VNil
| VBool (b : bool)
| VInt (i : Z)
| VFloat (bits : Z)
| VString (s : string)
| VVector2 (x y : Z)
| VVector3 (x y z : Z)
| VStringName (s : string)
| VNodePath (s : string)
| VObject (addr : Z)
| VCallable (target : Z) (method : string)
| VDictionary (ref : nat)
| VArray (ref : nat)
| VPacked (k : PackedKind) (data : list Z)
| VOther (t : Z).

#[global] Instance Variant_eq_dec : EqDecision Variant.
Proof. solve_decision. Defined.

Definition get_type (v : Variant) : VariantType :=
  match v with
  | VNil => NIL
  | VBool _ => BOOL
  | VInt _ => INT
  | VFloat _ => FLOAT
  | VString _ => STRING
  | VVector2 _ _ => VECTOR2
  | VVector3 _ _ _ => VECTOR3
  | VStringName _ => STRING_NAME
  | VNodePath _ => NODE_PATH
  | VObject _ => OBJECT
  | VCallable _ _ => CALLABLE
  | VDictionary _ => DICTIONARY
  | VArray _ => ARRAY
  | VPacked k _ => packed_type k
  | VOther t => OTHER_TYPE t
  end.

(** [Variant::operator String()], [operator Object*()] and friends, as far
    as the handlers use them on values of the matching kind. *)
Definition as_string (v : Variant) : string :=
  match v with
  | VString s | VStringName s | VNodePath s => s
  | _ => ""
  end.

Definition as_ptr (v : Variant) : Z :=
  match v with VObject a => a | _ => 0 end.

Definition as_bool (v : Variant) : bool :=
  match v with
  | VBool b => b
  | VInt i => negb (i =? 0)
  | _ => false
  end.

Definition as_int (v : Variant) : Z :=
  match v with
  | VInt i => i
  | VBool b => if b then 1 else 0
  | _ => 0
  end.

(** [GuestVariant]: the tagged value as it lies in guest memory. [v_i] is
    the integer view of the union ([v.i]: integers, handles, raw object
    addresses, [v.b] as 0/1, the bits of [v.f]); [v_f] carries the float
    components of the inline vector kinds. *)
Record GuestVariant := mkGuestVariant {
  type : VariantType;
  v_i : Z;
  v_f : list Z;
}.

#[global] Instance GuestVariant_eq_dec : EqDecision GuestVariant.
Proof. solve_decision. Defined.

(** ** Guest memory *)

Inductive VecElems :=
| EVariants (l : list GuestVariant)   (* std::vector<Variant> *)
| EScalars (l : list Z)               (* std::vector of bytes, ints, floats *)
| EStrings (l : list string).         (* std::vector<std::string> *)

Inductive Cell :=
| CVariants (l : list GuestVariant)   (* GuestVariant[n] *)
| CStdString (s : string)             (* GuestStdString: its bytes *)
| CStdU32String (s : string)          (* GuestStdU32String, code points as UTF-8 *)
| CStdVector (e : VecElems)           (* GuestStdVector *)
| CBytes (l : list Z).                (* raw storage, e.g. a capture *)

(** ** The engine *)

(** One call into the engine: receiver (0 for a static or free function),
    method and arguments. *)
Record HostOp := mkHostOp {
  recv : Z;
  method : string;
  args : list Variant;
}.

(** ** The Sandbox *)

(** An entry of [CurrentState::scoped_variants], a [const Variant *]: it
    points into [variants] of the same state or at a Variant that lives
    elsewhere. *)
Inductive VarPtr :=
| Owned (idx : nat)
| Borrowed (v : Variant).

Record CurrentState := mkCurrentState {
  variants : list Variant;
  scoped_variants : list VarPtr;
  scoped_objects : list Z;
}.

(** [CurrentState::reset]: all three collections are cleared. *)
Definition reset (st : CurrentState) : CurrentState :=
  mkCurrentState [] [] [].

Definition MAX_LEVEL : nat := 8.

(** Exceptions thrown across the syscall boundary. *)
Inductive Exn :=
| runtime_error (what : string)
| MachineException (what : string).

#[global] Instance Exn_eq_dec : EqDecision Exn.
Proof. solve_decision. Defined.

Record Sandbox := mkSandbox {
  (* riscv::Machine *)
  m_counter : Z;                      (* instruction counter *)
  m_a0 : Z;                           (* result register, set_result *)
  m_memory : gmap Z Cell;
  (* Sandbox *)
  this : Z;                           (* address of the Sandbox node itself *)
  m_tree_base : Z;                    (* 0 is nullptr *)
  m_max_refs : nat;
  m_level : nat;                      (* nesting depth of the calls *)
  m_current_state : nat;              (* index into m_states *)
  m_states : list CurrentState;       (* MAX_LEVEL + 1 entries *)
  (* engine *)
  m_arrays : list (list Variant);
  m_dicts : list (list (Variant * Variant));
  host_reply : list HostOp -> HostOp -> list Variant;
  host_log : list HostOp;
  err_log : list string;              (* ERR_PRINT *)
  out_log : list string;              (* Sandbox::print *)
}.

(** Field updates. *)
Definition with_counter (c : Z) (m : Sandbox) : Sandbox :=
  mkSandbox c (m_a0 m) (m_memory m) (this m) (m_tree_base m) (m_max_refs m)
    (m_level m) (m_current_state m) (m_states m) (m_arrays m) (m_dicts m)
    (host_reply m) (host_log m) (err_log m) (out_log m).

Definition with_a0 (r : Z) (m : Sandbox) : Sandbox :=
  mkSandbox (m_counter m) r (m_memory m) (this m) (m_tree_base m) (m_max_refs m)
    (m_level m) (m_current_state m) (m_states m) (m_arrays m) (m_dicts m)
    (host_reply m) (host_log m) (err_log m) (out_log m).

Definition with_memory (g : gmap Z Cell) (m : Sandbox) : Sandbox :=
  mkSandbox (m_counter m) (m_a0 m) g (this m) (m_tree_base m) (m_max_refs m)
    (m_level m) (m_current_state m) (m_states m) (m_arrays m) (m_dicts m)
    (host_reply m) (host_log m) (err_log m) (out_log m).

Definition with_level (l cur : nat) (m : Sandbox) : Sandbox :=
  mkSandbox (m_counter m) (m_a0 m) (m_memory m) (this m) (m_tree_base m)
    (m_max_refs m) l cur (m_states m) (m_arrays m) (m_dicts m)
    (host_reply m) (host_log m) (err_log m) (out_log m).

Definition with_states (s : list CurrentState) (m : Sandbox) : Sandbox :=
  mkSandbox (m_counter m) (m_a0 m) (m_memory m) (this m) (m_tree_base m)
    (m_max_refs m) (m_level m) (m_current_state m) s (m_arrays m) (m_dicts m)
    (host_reply m) (host_log m) (err_log m) (out_log m).

Definition with_arrays (a : list (list Variant)) (m : Sandbox) : Sandbox :=
  mkSandbox (m_counter m) (m_a0 m) (m_memory m) (this m) (m_tree_base m)
    (m_max_refs m) (m_level m) (m_current_state m) (m_states m) a (m_dicts m)
    (host_reply m) (host_log m) (err_log m) (out_log m).

Definition with_dicts (d : list (list (Variant * Variant))) (m : Sandbox) : Sandbox :=
  mkSandbox (m_counter m) (m_a0 m) (m_memory m) (this m) (m_tree_base m)
    (m_max_refs m) (m_level m) (m_current_state m) (m_states m) (m_arrays m) d
    (host_reply m) (host_log m) (err_log m) (out_log m).

Definition with_host_log (l : list HostOp) (m : Sandbox) : Sandbox :=
  mkSandbox (m_counter m) (m_a0 m) (m_memory m) (this m) (m_tree_base m)
    (m_max_refs m) (m_level m) (m_current_state m) (m_states m) (m_arrays m)
    (m_dicts m) (host_reply m) l (err_log m) (out_log m).

Definition with_err_log (l : list string) (m : Sandbox) : Sandbox :=
  mkSandbox (m_counter m) (m_a0 m) (m_memory m) (this m) (m_tree_base m)
    (m_max_refs m) (m_level m) (m_current_state m) (m_states m) (m_arrays m)
    (m_dicts m) (host_reply m) (host_log m) l (out_log m).

Definition with_out_log (l : list string) (m : Sandbox) : Sandbox :=
  mkSandbox (m_counter m) (m_a0 m) (m_memory m) (this m) (m_tree_base m)
    (m_max_refs m) (m_level m) (m_current_state m) (m_states m) (m_arrays m)
    (m_dicts m) (host_reply m) (host_log m) (err_log m) l.

(** ** The handler monad: sandbox state, C++ exceptions *)

Inductive Res (A : Type) :=
| Ok (a : A)
| Throw (e : Exn).
Arguments Ok {A} a.
Arguments Throw {A} e.

Definition M (A : Type) : Type := Sandbox -> Res A * Sandbox.

Definition ret {A} (a : A) : M A := fun m => (Ok a, m).

Definition bind {A B} (c : M A) (k : A -> M B) : M B :=
  fun m => match c m with
           | (Ok a, m') => k a m'
           | (Throw e, m') => (Throw e, m')
           end.

Definition throw {A} (e : Exn) : M A := fun m => (Throw e, m).

Notation "x <- c ;; k" := (bind c (fun x => k))
  (at level 20, c at level 99, k at level 200, only parsing).
Notation "c ;; k" := (bind c (fun _ => k))
  (at level 100, k at level 200, right associativity, only parsing).

Definition gets {A} (f : Sandbox -> A) : M A := fun m => (Ok (f m), m).
Definition modify (f : Sandbox -> Sandbox) : M unit := fun m => (Ok tt, f m).

(** A bounded [for] loop over the elements of a list. *)
Fixpoint for_each {A} (l : list A) (body : A -> M unit) : M unit :=
  match l with
  | [] => ret tt
  | x :: l' => body x ;; for_each l' body
  end.

Fixpoint map_m {A B} (f : A -> M B) (l : list A) : M (list B) :=
  match l with
  | [] => ret []
  | x :: l' => y <- f x ;; ys <- map_m f l' ;; ret (y :: ys)
  end.

(** ** Primitives of the machine and of the Sandbox *)

(** [machine.penalize(n)]: the charge is added to the instruction counter;
    the engine of the VM compares the counter with the ceiling at its next
    checkpoint, not here. *)
Definition penalize (n : Z) : M unit :=
  modify (fun m => with_counter (m_counter m + n) m).

(** [machine.set_result(r)] *)
Definition set_result (r : Z) : M unit := modify (with_a0 r).

Definition ERR_PRINT (s : string) : M unit :=
  modify (fun m => with_err_log (err_log m ++ [s]) m).

Definition empty_state : CurrentState := mkCurrentState [] [] [].

(** [Sandbox::state()]: [*m_current_state]. *)
Definition state (m : Sandbox) : CurrentState :=
  default empty_state (m_states m !! m_current_state m).

Definition set_state (st : CurrentState) (m : Sandbox) : Sandbox :=
  with_states (<[m_current_state m := st]> (m_states m)) m.

(** [m_current_state] points into [m_states]. *)
Definition state_valid (m : Sandbox) : Prop :=
  (m_current_state m < length (m_states m))%nat.

(** [Sandbox::is_scoped_object]: [std::find] over [scoped_objects] of the
    current state. *)
Definition is_scoped_object (ptr : Z) (m : Sandbox) : bool :=
  bool_decide (ptr ∈ scoped_objects (state m)).

(** [Sandbox::rem_scoped_object]: erase-remove of every occurrence. *)
Definition rem_scoped_object (ptr : Z) : M unit :=
  modify (fun m =>
    let st := state m in
    set_state (mkCurrentState (variants st) (scoped_variants st)
                 (filter (fun p => p ≠ ptr) (scoped_objects st))) m).

(** Modelled from the spec: [Sandbox::add_scoped_object] is declared in the
    class but defined in a file that is not part of the sources at hand.
    The spec's [admit_object(addr)] adds the address to the admission set
    of the current level. *)
Definition add_scoped_object (ptr : Z) : M unit :=
  modify (fun m =>
    let st := state m in
    set_state (mkCurrentState (variants st) (scoped_variants st)
                 (scoped_objects st ++ [ptr])) m).

Definition deref (st : CurrentState) (p : VarPtr) : option Variant :=
  match p with
  | Owned i => variants st !! i
  | Borrowed v => Some v
  end.

(** Modelled from the spec: [Sandbox::get_scoped_variant] (defined outside
    the sources at hand). The spec's [get(handle)] returns the value if the
    handle is within range for the current level, and nothing otherwise. *)
Definition get_scoped_variant (idx : nat) (m : Sandbox) : option Variant :=
  scoped_variants (state m) !! idx ≫= deref (state m).

(** Modelled from the spec: [Sandbox::create_scoped_variant] (defined
    outside the sources at hand). The spec's [add_owned(value)] stores the
    value and returns a stable index, in creation order. *)
Definition create_scoped_variant (v : Variant) : M nat :=
  fun m =>
    let st := state m in
    (Ok (length (scoped_variants st)),
     set_state (mkCurrentState (variants st ++ [v])
                  (scoped_variants st ++ [Owned (length (variants st))])
                  (scoped_objects st)) m).

(** Modelled from the spec: [Sandbox::add_scoped_variant] (defined outside
    the sources at hand). The spec's [add_weak(ref)] stores a non-owning
    reference and returns a handle. *)
Definition add_scoped_variant (v : Variant) : M nat :=
  fun m =>
    let st := state m in
    (Ok (length (scoped_variants st)),
     set_state (mkCurrentState (variants st)
                  (scoped_variants st ++ [Borrowed v])
                  (scoped_objects st)) m).

(** [get_object_from_address] *)
Definition get_object_from_address (addr : Z) : M Z :=
  if bool_decide (addr = 0) then
    ERR_PRINT "Object is Null" ;;
    throw (runtime_error "Object is Null")
  else
    scoped <- gets (is_scoped_object addr) ;;
    if negb scoped then
      ERR_PRINT "Object is not scoped" ;;
      throw (runtime_error "Object is not scoped")
    else ret addr.

(** [get_node_from_address] *)
Definition get_node_from_address (addr : Z) : M Z :=
  if bool_decide (addr = 0) then
    ERR_PRINT "Node object is Null" ;;
    throw (runtime_error "Node object is Null")
  else
    scoped <- gets (is_scoped_object addr) ;;
    if negb scoped then
      ERR_PRINT "Node object is not scoped" ;;
      throw (runtime_error "Node object is not scoped")
    else ret addr.

(** *** Guest memory access *)

Definition protection_fault : Exn := MachineException "Protection fault".

(** [memory.memarray<GuestVariant>(addr, n)] *)
Definition memarray (addr : Z) (n : nat) : M (list GuestVariant) :=
  fun m =>
    match m_memory m !! addr with
    | Some (CVariants l) =>
        if decide (n ≤ length l)%nat then (Ok (take n l), m)
        else (Throw protection_fault, m)
    | _ => (Throw protection_fault, m)
    end.

(** [memory.memarray<T>(addr, 1)] for the other guest structures: the
    address must be mapped. *)
Definition memarray_cell (addr : Z) : M Cell :=
  fun m =>
    match m_memory m !! addr with
    | Some c => (Ok c, m)
    | None => (Throw protection_fault, m)
    end.

Definition store_cell (addr : Z) (c : Cell) : M unit :=
  modify (fun m => with_memory (<[addr := c]> (m_memory m)) m).

Definition nil_variant : GuestVariant := mkGuestVariant NIL 0 [].

(** Element [i] of an array obtained from [memarray]. *)
Definition elem (var : list GuestVariant) (i : nat) : GuestVariant :=
  default nil_variant (var !! i).

(** A write through a [GuestVariant *]: element [i] of the array at [addr]. *)
Definition store_variant (addr : Z) (i : nat) (g : GuestVariant) : M unit :=
  fun m =>
    match m_memory m !! addr with
    | Some (CVariants l) =>
        if decide (i < length l)%nat
        then (Ok tt, with_memory (<[addr := CVariants (<[i := g]> l)]> (m_memory m)) m)
        else (Throw protection_fault, m)
    | _ => (Throw protection_fault, m)
    end.

(** *** Calls into the engine

    A call into the engine is recorded in [host_log] and answered by the
    oracle [host_reply]; the call itself leaves the rest of the sandbox as
    it is. That is the effect of a call that runs no guest code: a property
    read or written, a node looked up, a call queued with [call_deferred].
    A direct [callv] or [callp] of a method that the guest chose may make
    the engine run the guest again, in a nested call at a level of its own;
    what that nested call does to the guest is not described here, and no
    statement below about guest memory is made across such a call. *)

Definition host_call (r : Z) (meth : string) (a : list Variant) : M (list Variant) :=
  fun m =>
    let op := mkHostOp r meth a in
    (Ok (host_reply m (host_log m) op), with_host_log (host_log m ++ [op]) m).

Definition host_call1 (r : Z) (meth : string) (a : list Variant) : M Variant :=
  l <- host_call r meth a ;; ret (hd VNil l).

(** *** Strings of the engine

    The engine's [String] is a sequence of code points; the [string] that a
    STRING Variant carries here is its UTF-8 encoding, which is what
    [String::utf8()] returns. *)

Fixpoint bytes_of (s : string) : list Z :=
  match s with
  | EmptyString => []
  | String c s' => Z.of_N (Ascii.N_of_ascii c) :: bytes_of s'
  end.

(** The code points that a UTF-8 encoding stands for. A byte that cannot
    begin a character stands for itself; an encoding of a [String] has no
    such byte. *)
Fixpoint decode_utf8 (l : list Z) : list Z :=
  match l with
  | [] => []
  | b0 :: l1 =>
      if b0 <? 128 then b0 :: decode_utf8 l1
      else if (192 <=? b0) && (b0 <? 224) then
        match l1 with
        | b1 :: l2 =>
            Z.lor (Z.shiftl (Z.land b0 31) 6) (Z.land b1 63) :: decode_utf8 l2
        | [] => [b0]
        end
      else if (224 <=? b0) && (b0 <? 240) then
        match l1 with
        | b1 :: b2 :: l3 =>
            Z.lor (Z.shiftl (Z.land b0 15) 12)
              (Z.lor (Z.shiftl (Z.land b1 63) 6) (Z.land b2 63)) :: decode_utf8 l3
        | _ => [b0]
        end
      else if (240 <=? b0) && (b0 <? 248) then
        match l1 with
        | b1 :: b2 :: b3 :: l4 =>
            Z.lor (Z.shiftl (Z.land b0 7) 18)
              (Z.lor (Z.shiftl (Z.land b1 63) 12)
                 (Z.lor (Z.shiftl (Z.land b2 63) 6) (Z.land b3 63)))
            :: decode_utf8 l4
        | _ => [b0]
        end
      else b0 :: decode_utf8 l1
  end.

(** The code points of a [String]. *)
Definition code_points (s : string) : list Z := decode_utf8 (bytes_of s).

(** [String::length()]: the number of code points. *)
Definition String_length (s : string) : nat := length (code_points s).

(** Text of 7-bit characters without NUL: its UTF-8 encoding is the text
    itself, one byte for each code point. *)
Definition ascii_text (s : string) : bool :=
  forallb (fun b => (0 <? b) && (b <? 128)) (bytes_of s).

(** [String::utf8(data, size)]: the [String] that the bytes decode to.
    Text of 7-bit characters decodes to itself. What the decoder makes of
    other bytes (a NUL, a byte order mark, a sequence that is not
    well-formed) is the engine's: the oracle answers, and the answer does
    not depend on the calls made so far. *)
Definition String_utf8 (data : string) : M string :=
  gets (fun m =>
    if ascii_text data then data
    else as_string (hd VNil (host_reply m [] (mkHostOp 0 "String::utf8" [VString data])))).

(** *** Arrays and dictionaries of the engine *)

Definition new_array (l : list Variant) : M Variant :=
  fun m => (Ok (VArray (length (m_arrays m))), with_arrays (m_arrays m ++ [l]) m).

Definition new_dictionary : M Variant :=
  fun m => (Ok (VDictionary (length (m_dicts m))), with_dicts (m_dicts m ++ [[]]) m).

Definition array_ref (v : Variant) : nat :=
  match v with VArray r => r | _ => 0%nat end.

Definition dict_ref (v : Variant) : nat :=
  match v with VDictionary r => r | _ => 0%nat end.

Definition array_read (r : nat) (m : Sandbox) : list Variant :=
  default [] (m_arrays m !! r).

Definition array_modify (r : nat) (f : list Variant -> list Variant) : M unit :=
  modify (fun m => with_arrays (<[r := f (array_read r m)]> (m_arrays m)) m).

Definition dict_read (r : nat) (m : Sandbox) : list (Variant * Variant) :=
  default [] (m_dicts m !! r).

Definition dict_modify (r : nat)
    (f : list (Variant * Variant) -> list (Variant * Variant)) : M unit :=
  modify (fun m => with_dicts (<[r := f (dict_read r m)]> (m_dicts m)) m).

(** Dictionary contents: an insertion-ordered list of entries with distinct
    keys. *)
Fixpoint dict_find (d : list (Variant * Variant)) (k : Variant) : option Variant :=
  match d with
  | [] => None
  | (k', v) :: d' => if decide (k' = k) then Some v else dict_find d' k
  end.

Fixpoint dict_set (d : list (Variant * Variant)) (k v : Variant)
  : list (Variant * Variant) :=
  match d with
  | [] => [(k, v)]
  | (k', v') :: d' =>
      if decide (k' = k) then (k, v) :: d' else (k', v') :: dict_set d' k v
  end.

Definition dict_erase (d : list (Variant * Variant)) (k : Variant)
  : list (Variant * Variant) :=
  filter (fun e => e.1 ≠ k) d.

(** The engine's [Dictionary::operator[]] on a non-const dictionary: a
    missing key is inserted with a Nil value. *)
Definition dict_index (d : list (Variant * Variant)) (k : Variant)
  : Variant * list (Variant * Variant) :=
  match dict_find d k with
  | Some v => (v, d)
  | None => (VNil, dict_set d k VNil)
  end.

(** ** The Variant codec *)

(** The conversion of [v.i] to the [unsigned] index of a handler. *)
Definition u32 (z : Z) : nat := Z.to_nat (z mod 2 ^ 32).

(** The scoped Variant that the handle [h] of a guest value names; a
    negative handle names nothing. *)
Definition get_handle (h : Z) (m : Sandbox) : option Variant :=
  if h <? 0 then None else get_scoped_variant (Z.to_nat h) m.

Definition is_inline (t : VariantType) : bool :=
  match t with
  | NIL | BOOL | INT | FLOAT | VECTOR2 | VECTOR3 => true
  | _ => false
  end.

(** Modelled from the spec: [GuestVariant::toVariant] is defined in
    [guest_datatypes.cpp], which is not part of the sources at hand. The
    spec's [decode]: primitives are stored inline; an object is a raw host
    address and must pass scope validation; the other reference kinds are
    an index into the current scope; a reference that fails validation
    fails the decoding, it does not become a null value. *)
Definition toVariant (g : GuestVariant) : M Variant :=
  match type g with
  | NIL => ret VNil
  | BOOL => ret (VBool (negb (v_i g =? 0)))
  | INT => ret (VInt (v_i g))
  | FLOAT => ret (VFloat (v_i g))
  | VECTOR2 => ret (VVector2 (nth 0 (v_f g) 0) (nth 1 (v_f g) 0))
  | VECTOR3 => ret (VVector3 (nth 0 (v_f g) 0) (nth 1 (v_f g) 0) (nth 2 (v_f g) 0))
  | OBJECT => a <- get_object_from_address (v_i g) ;; ret (VObject a)
  | _ =>
      opt <- gets (get_handle (v_i g)) ;;
      match opt with
      | Some v => ret v
      | None => throw (runtime_error "GuestVariant::toVariant(): Variant is not scoped")
      end
  end.

(** Modelled from the spec: the encoding half of the codec
    ([GuestVariant::set] and [GuestVariant::create] of
    [guest_datatypes.cpp]). Primitives are written inline. An object is
    written as its raw address: a trusted (engine-provided) object is
    admitted to the current scope, an untrusted one must already be
    admitted. The other kinds are routed through the scope: [owned] stores
    the value ([create]), otherwise a weak reference is added ([set]). *)
Definition encode (value : Variant) (implicit_trust owned : bool) : M GuestVariant :=
  match value with
  | VNil => ret (mkGuestVariant NIL 0 [])
  | VBool b => ret (mkGuestVariant BOOL (if b then 1 else 0) [])
  | VInt i => ret (mkGuestVariant INT i [])
  | VFloat f => ret (mkGuestVariant FLOAT f [])
  | VVector2 x y => ret (mkGuestVariant VECTOR2 0 [x; y])
  | VVector3 x y z => ret (mkGuestVariant VECTOR3 0 [x; y; z])
  | VObject a =>
      if implicit_trust then
        add_scoped_object a ;; ret (mkGuestVariant OBJECT a [])
      else
        a' <- get_object_from_address a ;; ret (mkGuestVariant OBJECT a' [])
  | _ =>
      idx <- (if owned then create_scoped_variant value
              else add_scoped_variant value) ;;
      ret (mkGuestVariant (get_type value) (Z.of_nat idx) [])
  end.

(** [p->set(emu, value, implicit_trust)] on element [i] of the array at [addr]. *)
Definition gv_set (addr : Z) (i : nat) (value : Variant) (implicit_trust : bool) : M unit :=
  g <- encode value implicit_trust false ;; store_variant addr i g.

(** [p->create(emu, value)] on element [i] of the array at [addr]. *)
Definition gv_create (addr : Z) (i : nat) (value : Variant) : M unit :=
  g <- encode value true true ;; store_variant addr i g.

(** [vp->type = t; vp->v.i = idx;] *)
Definition gv_assign (addr : Z) (i : nat) (t : VariantType) (idx : nat) : M unit :=
  store_variant addr i (mkGuestVariant t (Z.of_nat idx) []).

(** ** Operation codes

    The enumerations of the syscall header, with the enumerators that the
    handlers name; a code none of them covers is the [_INVALID] case (the
    [default:] arm of the switch). *)

Inductive Object_Op :=
| Object_GET_METHOD_LIST | Object_GET | Object_SET | Object_GET_PROPERTY_LIST
| Object_CONNECT | Object_DISCONNECT | Object_GET_SIGNAL_LIST
| Object_INVALID (code : Z).

Inductive Node_Op :=
| Node_GET_NAME | Node_SET_NAME | Node_GET_PATH | Node_GET_PARENT
| Node_QUEUE_FREE | Node_DUPLICATE | Node_GET_CHILD_COUNT | Node_GET_CHILD
| Node_ADD_CHILD_DEFERRED | Node_ADD_CHILD
| Node_ADD_SIBLING_DEFERRED | Node_ADD_SIBLING | Node_MOVE_CHILD
| Node_REMOVE_CHILD_DEFERRED | Node_REMOVE_CHILD | Node_GET_CHILDREN
| Node_INVALID (code : Z).

Inductive Node2D_Op :=
| Node2D_GET_POSITION | Node2D_SET_POSITION | Node2D_GET_ROTATION
| Node2D_SET_ROTATION | Node2D_GET_SCALE | Node2D_SET_SCALE
| Node2D_GET_SKEW | Node2D_SET_SKEW
| Node2D_INVALID (code : Z).

Inductive Node3D_Op :=
| Node3D_GET_POSITION | Node3D_SET_POSITION | Node3D_GET_ROTATION
| Node3D_SET_ROTATION | Node3D_GET_SCALE | Node3D_SET_SCALE
| Node3D_INVALID (code : Z).

Inductive Node_Create_Shortlist :=
| CREATE_CLASSDB | CREATE_NODE | CREATE_NODE2D | CREATE_NODE3D
| CREATE_INVALID (code : Z).

Inductive Array_Op :=
| Array_CREATE | Array_PUSH_BACK | Array_PUSH_FRONT | Array_POP_AT
| Array_POP_BACK | Array_POP_FRONT | Array_INSERT | Array_ERASE
| Array_RESIZE | Array_CLEAR | Array_SORT
| Array_INVALID (code : Z).

Inductive Dictionary_Op :=
| Dictionary_GET | Dictionary_SET | Dictionary_ERASE | Dictionary_HAS
| Dictionary_GET_SIZE | Dictionary_CLEAR | Dictionary_MERGE
| Dictionary_INVALID (code : Z).

Inductive String_Op :=
| String_APPEND | String_GET_LENGTH | String_TO_STD_STRING
| String_INVALID (code : Z).

(** [Variant::Operator::OP_EQUAL], the first enumerator. *)
Definition OP_EQUAL : Z := 0.

Definition bool_result (b : bool) : Z := if b then 1 else 0.

(** Reading [*p] for a [GuestVariant *p] that [sysargs] produced. *)
Definition load (p : Z) : M GuestVariant :=
  l <- memarray p 1 ;; ret (elem l 0).

(** ** The handlers *)

(** [api_print] *)
Definition api_print (array : Z) (len : nat) : M unit :=
  if decide (64 ≤ len)%nat then
    ERR_PRINT "print(): Too many Variants to print" ;;
    throw (runtime_error "print(): Too many Variants to print")
  else
    array_ptr <- memarray array len ;;
    for_each array_ptr (fun var =>
      v <- toVariant var ;;
      _ <- host_call 0 "UtilityFunctions::print" [v] ;;
      ret tt).

(** [api_veval] *)
Definition api_veval (op : Z) (ap bp retp : Z) : M unit :=
  a <- load ap ;;
  b <- load bp ;;
  if bool_decide (type a = OBJECT) && bool_decide (type b = OBJECT) then
    if bool_decide (op = OP_EQUAL) then
      set_result (bool_result true) ;;
      gv_set retp 0 (VBool (bool_decide (v_i a = v_i b))) false
    else
      oa <- get_object_from_address (v_i a) ;;
      ob <- get_object_from_address (v_i b) ;;
      r <- host_call 0 "Variant::evaluate" [VInt op; VObject oa; VObject ob] ;;
      set_result (bool_result (as_bool (nth 1 r VNil))) ;;
      gv_set retp 0 (hd VNil r) true
  else
    va <- toVariant a ;;
    vb <- toVariant b ;;
    r <- host_call 0 "Variant::evaluate" [VInt op; va; vb] ;;
    set_result (bool_result (as_bool (nth 1 r VNil))) ;;
    gv_set retp 0 (hd VNil r) false.

(** Reading a guest structure at its own type; an access at another type
    is outside the typed view of memory and counts as a fault. *)
Definition read_std_string (gdata : Z) : M string :=
  c <- memarray_cell gdata ;;
  match c with CStdString s => ret s | _ => throw protection_fault end.

Definition read_std_u32string (gdata : Z) : M string :=
  c <- memarray_cell gdata ;;
  match c with CStdU32String s => ret s | _ => throw protection_fault end.

Definition read_variant_vector (gdata : Z) : M (list GuestVariant) :=
  c <- memarray_cell gdata ;;
  match c with CStdVector (EVariants l) => ret l | _ => throw protection_fault end.

Definition read_scalar_vector (gdata : Z) : M (list Z) :=
  c <- memarray_cell gdata ;;
  match c with CStdVector (EScalars l) => ret l | _ => throw protection_fault end.

(** [memory.memarray<uint8_t>(addr, n)] and the like on raw storage. *)
Definition memarray_raw (addr : Z) (n : nat) : M (list Z) :=
  c <- memarray_cell addr ;;
  match c with
  | CBytes l => if decide (n ≤ length l)%nat then ret (take n l) else throw protection_fault
  | _ => throw protection_fault
  end.

(** The packed kinds that [api_vcreate] builds. *)
Definition packed_create (t : VariantType) : option PackedKind :=
  match t with
  | PACKED_BYTE_ARRAY => Some PackedByte
  | PACKED_FLOAT32_ARRAY => Some PackedFloat32
  | PACKED_FLOAT64_ARRAY => Some PackedFloat64
  | PACKED_INT32_ARRAY => Some PackedInt32
  | PACKED_INT64_ARRAY => Some PackedInt64
  | _ => None
  end.

(** [api_vcreate]. [GuestStdString::to_godot_string] belongs to the guest
    datatypes, outside the sources at hand: it takes the bytes of the guest
    string and decodes them with [String::utf8]. *)
Definition api_vcreate (vp : Z) (t : VariantType) (method : Z) (gdata : Z) : M unit :=
  penalize 10000 ;;
  match t with
  | STRING | STRING_NAME | NODE_PATH =>
      godot_str <-
        (if bool_decide (method = 0) then
           str <- read_std_string gdata ;;
           String_utf8 str
         else if bool_decide (method = 2) then read_std_u32string gdata
         else
           ERR_PRINT "vcreate: Unsupported method for Variant::STRING" ;;
           throw (runtime_error
             ("vcreate: Unsupported method for Variant::STRING: " +:+ pretty method))) ;;
      idx <- create_scoped_variant (VString godot_str) ;;
      gv_assign vp 0 t idx
  | ARRAY =>
      a <- (if bool_decide (gdata ≠ 0) then
              vec <- read_variant_vector gdata ;;
              map_m toVariant vec
            else ret []) ;;
      arr <- new_array a ;;
      idx <- create_scoped_variant arr ;;
      gv_assign vp 0 t idx
  | DICTIONARY =>
      d <- new_dictionary ;;
      idx <- create_scoped_variant d ;;
      gv_assign vp 0 t idx
  | _ =>
      match packed_create t with
      | Some k =>
          a <- (if bool_decide (gdata ≠ 0) then read_scalar_vector gdata else ret []) ;;
          idx <- create_scoped_variant (VPacked k a) ;;
          gv_assign vp 0 t idx
      | None =>
          ERR_PRINT "Unsupported Variant type for Variant::create()" ;;
          throw (runtime_error "Unsupported Variant type for Variant::create()")
      end
  end.

Definition packed_data (v : Variant) : list Z :=
  match v with VPacked _ d => d | _ => [] end.

(** [api_vfetch]. For a string and method 0 the bytes written are those of
    [String::utf8()], which is how a STRING value is carried here; for
    method 2 the code points of the [String] are written. *)
Definition api_vfetch (index : nat) (gdata : Z) (method : Z) : M unit :=
  penalize 10000 ;;
  opt <- gets (get_scoped_variant index) ;;
  match opt with
  | Some var =>
      match get_type var with
      | STRING | STRING_NAME | NODE_PATH =>
          if bool_decide (method = 0) then
            _ <- memarray_cell gdata ;;
            store_cell gdata (CStdString (as_string var))
          else if bool_decide (method = 2) then
            _ <- memarray_cell gdata ;;
            store_cell gdata (CStdU32String (as_string var))
          else
            ERR_PRINT "vfetch: Unsupported method for Variant::STRING" ;;
            throw (runtime_error "vfetch: Unsupported method for Variant::STRING")
      | PACKED_BYTE_ARRAY | PACKED_FLOAT32_ARRAY | PACKED_FLOAT64_ARRAY
      | PACKED_INT32_ARRAY | PACKED_INT64_ARRAY
      | PACKED_VECTOR2_ARRAY | PACKED_VECTOR3_ARRAY =>
          _ <- memarray_cell gdata ;;
          store_cell gdata (CStdVector (EScalars (packed_data var)))
      | _ =>
          ERR_PRINT "vfetch: Cannot fetch value into guest for Variant type" ;;
          throw (runtime_error "vfetch: Cannot fetch value into guest for Variant type")
      end
  | None =>
      ERR_PRINT "vfetch: Variant is not scoped" ;;
      throw (runtime_error "vfetch: Variant is not scoped")
  end.

(** The engine's [Variant::duplicate()]: a fresh shallow copy of an array
    or dictionary, the value itself otherwise. *)
Definition duplicate (v : Variant) : M Variant :=
  match v with
  | VArray r => l <- gets (array_read r) ;; new_array l
  | VDictionary r =>
      d <- gets (dict_read r) ;;
      nd <- new_dictionary ;;
      dict_modify (dict_ref nd) (fun _ => d) ;;
      ret nd
  | _ => ret v
  end.

(** [api_vclone] *)
Definition api_vclone (vp vret : Z) : M unit :=
  penalize 10000 ;;
  g <- load vp ;;
  var <- gets (get_scoped_variant (u32 (v_i g))) ;;
  match var with
  | Some v =>
      copy <- duplicate v ;;
      index <- create_scoped_variant copy ;;
      gv_assign vret 0 (get_type v) index
  | None =>
      ERR_PRINT "vclone: Variant is not scoped" ;;
      throw (runtime_error "vclone: Variant is not scoped")
  end.

(** [api_vstore]: the data is copied into a local copy of the packed array,
    which is dropped when the handler returns. *)
Definition api_vstore (index : nat) (gdata : Z) (gsize : nat) : M unit :=
  penalize 10000 ;;
  opt <- gets (get_scoped_variant index) ;;
  match opt with
  | Some var =>
      match get_type var with
      | PACKED_BYTE_ARRAY | PACKED_FLOAT32_ARRAY | PACKED_FLOAT64_ARRAY =>
          _ <- memarray_raw gdata gsize ;;
          ret tt
      | _ =>
          ERR_PRINT "vstore: Cannot store value into guest for Variant type" ;;
          throw (runtime_error "vstore: Cannot store value into guest for Variant type")
      end
  | None =>
      ERR_PRINT "vstore: Variant is not scoped" ;;
      throw (runtime_error "vstore: Variant is not scoped")
  end.

(** [api_vfree] *)
Definition api_vfree (vp : Z) : M unit :=
  penalize 10000.

(** [allowed_objects]: the singletons a guest may ask for by name. *)
Definition allowed_objects : list (string * string) :=
  [ ("Engine", "Engine::get_singleton");
    ("Input", "Input::get_singleton");
    ("Time", "Time::get_singleton") ].

Definition find_allowed (name : string) : option string :=
  snd <$> List.find (fun e => bool_decide (e.1 = name)) allowed_objects.

(** [api_get_obj] *)
Definition api_get_obj (name : string) : M unit :=
  penalize 150000 ;;
  match find_allowed name with
  | Some getter =>
      obj <- host_call1 0 getter [] ;;
      add_scoped_object (as_ptr obj) ;;
      set_result (as_ptr obj)
  | None =>
      if bool_decide (name = "SceneTree") then
        owner_node <- gets m_tree_base ;;
        if bool_decide (owner_node = 0) then
          ERR_PRINT "Sandbox has no parent Node" ;;
          set_result 0
        else
          tree <- host_call1 owner_node "get_tree" [] ;;
          add_scoped_object (as_ptr tree) ;;
          set_result (as_ptr tree)
      else
        ERR_PRINT ("Unknown or inaccessible object: " +:+ name) ;;
        set_result 0
  end.

(** The names of a method, property or signal list of the engine; the
    reply lists one entry per name. *)
Definition names_of (l : list Variant) : list string := as_string <$> l.

Definition fetch_name_list (obj : Z) (meth : string) (gvar : Z) : M unit :=
  _ <- memarray_cell gvar ;;
  l <- host_call obj meth [] ;;
  store_cell gvar (CStdVector (EStrings (names_of l))).

(** The [switch] of [api_obj], entered once the address passed the scope
    check. *)
Definition api_obj_switch (op : Object_Op) (obj : Z) (gvar : Z) : M unit :=
  match op with
  | Object_GET_METHOD_LIST => fetch_name_list obj "get_method_list" gvar
  | Object_GET =>
      var <- memarray gvar 2 ;;
      name <- toVariant (elem var 0) ;;
      r <- host_call1 obj "get" [VString (as_string name)] ;;
      gv_create gvar 1 r
  | Object_SET =>
      var <- memarray gvar 2 ;;
      name <- toVariant (elem var 0) ;;
      value <- toVariant (elem var 1) ;;
      _ <- host_call obj "set" [VString (as_string name); value] ;;
      ret tt
  | Object_GET_PROPERTY_LIST => fetch_name_list obj "get_property_list" gvar
  | Object_CONNECT =>
      vars <- memarray gvar 3 ;;
      target <- get_object_from_address (v_i (elem vars 0)) ;;
      meth <- toVariant (elem vars 2) ;;
      signal <- toVariant (elem vars 1) ;;
      _ <- host_call obj "connect"
             [VString (as_string signal); VCallable target (as_string meth)] ;;
      ret tt
  | Object_DISCONNECT =>
      vars <- memarray gvar 3 ;;
      target <- get_object_from_address (v_i (elem vars 0)) ;;
      meth <- toVariant (elem vars 2) ;;
      signal <- toVariant (elem vars 1) ;;
      _ <- host_call obj "disconnect"
             [VString (as_string signal); VCallable target (as_string meth)] ;;
      ret tt
  | Object_GET_SIGNAL_LIST => fetch_name_list obj "get_signal_list" gvar
  | Object_INVALID _ => throw (runtime_error "Invalid Object operation")
  end.

(** [api_obj] *)
Definition api_obj (op : Object_Op) (addr : Z) (gvar : Z) : M unit :=
  penalize 250000 ;;
  scoped <- gets (is_scoped_object addr) ;;
  if negb scoped then
    ERR_PRINT "Object is not scoped" ;;
    throw (runtime_error "Object is not scoped")
  else api_obj_switch op addr gvar.

(** The call itself of [api_obj_callp], after the checks. The method name
    is decoded with [String::utf8]. The deferred call is [call_deferred]
    with the decoded arguments in order, one case for each count from 0
    to 8 in the source; it queues the call and runs nothing. *)
Definition api_obj_callp_call (obj : Z) (method : string) (deferred : bool)
    (vret_ptr args_addr : Z) (args_size : nat) : M unit :=
  g_args <- memarray args_addr args_size ;;
  if negb deferred then
    vargs <- map_m toVariant g_args ;;
    name <- String_utf8 method ;;
    r <- host_call1 obj "callv" (VString name :: vargs) ;;
    if bool_decide (vret_ptr ≠ 0) then
      _ <- memarray vret_ptr 1 ;;
      gv_create vret_ptr 0 r
    else ret tt
  else
    vargs <- map_m toVariant g_args ;;
    name <- String_utf8 method ;;
    _ <- host_call obj "call_deferred" (VString name :: vargs) ;;
    ret tt.

(** [api_obj_callp] *)
Definition api_obj_callp (addr : Z) (method : string) (deferred : bool)
    (vret_ptr args_addr : Z) (args_size : nat) : M unit :=
  penalize 250000 ;;
  scoped <- gets (is_scoped_object addr) ;;
  if negb scoped then
    ERR_PRINT "Object is not scoped" ;;
    throw (runtime_error "Object is not scoped")
  else if decide (8 < args_size)%nat then
    ERR_PRINT "Too many arguments." ;;
    throw (runtime_error "Too many arguments.")
  else api_obj_callp_call addr method deferred vret_ptr args_addr args_size.

(** [api_get_node] *)
Definition api_get_node (addr : Z) (name : string) : M unit :=
  penalize 150000 ;;
  found <-
    (if bool_decide (addr = 0) then
       owner_node <- gets m_tree_base ;;
       if bool_decide (owner_node = 0) then
         ERR_PRINT "Sandbox has no parent Node" ;;
         set_result 0 ;;
         ret None
       else
         node <- host_call1 owner_node "get_node" [VNodePath name] ;;
         ret (Some (as_ptr node))
     else
       scoped <- gets (is_scoped_object addr) ;;
       if negb scoped then
         ERR_PRINT "Node object is not scoped" ;;
         set_result 0 ;;
         ret None
       else
         node <- host_call1 addr "get_node" [VNodePath name] ;;
         ret (Some (as_ptr node))) ;;
  match found with
  | None => ret tt                       (* the early [return]s *)
  | Some node =>
      if bool_decide (node = 0) then
        ERR_PRINT ("Node not found: " +:+ name) ;;
        set_result 0
      else
        add_scoped_object node ;;
        set_result node
  end.

(** The characters of a guest buffer up to its first NUL. *)
Fixpoint c_str (l : list Z) : list Z :=
  match l with
  | [] => []
  | c :: l' => if bool_decide (c = 0) then [] else c :: c_str l'
  end.

(** [api_node_create] *)
Definition api_node_create (t : Node_Create_Shortlist) (g_class_name : Z)
    (g_class_len : nat) (name : string) : M unit :=
  penalize 150000 ;;
  created <-
    match t with
    | CREATE_CLASSDB =>
        class_name <- memarray_raw g_class_name (g_class_len + 1) ;;
        if bool_decide (nth g_class_len class_name 1 ≠ 0) then
          ERR_PRINT "Class name is not null-terminated" ;;
          throw (runtime_error "Class name is not null-terminated")
        else
          obj <- host_call1 0 "ClassDB::instantiate"
                   [VPacked PackedByte (c_str class_name)] ;;
          node <- host_call1 (as_ptr obj) "Object::cast_to<Node>" [] ;;
          if bool_decide (as_ptr node = 0) then
            add_scoped_object (as_ptr obj) ;;
            set_result (as_ptr obj) ;;
            ret None
          else ret (Some (as_ptr node))
    | CREATE_NODE =>
        node <- host_call1 0 "memnew" [VString "Node"] ;; ret (Some (as_ptr node))
    | CREATE_NODE2D =>
        node <- host_call1 0 "memnew" [VString "Node2D"] ;; ret (Some (as_ptr node))
    | CREATE_NODE3D =>
        node <- host_call1 0 "memnew" [VString "Node3D"] ;; ret (Some (as_ptr node))
    | CREATE_INVALID _ =>
        ERR_PRINT "Unknown Node type" ;;
        throw (runtime_error "Unknown Node type")
    end ;;
  match created with
  | None => ret tt                       (* the early [return] *)
  | Some node =>
      if bool_decide (node = 0) then
        ERR_PRINT "Failed to create Node" ;;
        throw (runtime_error "Failed to create Node")
      else
        (if bool_decide (name ≠ "") then
           _ <- host_call node "set_name" [VString name] ;; ret tt
         else ret tt) ;;
        add_scoped_object node ;;
        set_result node
  end.

(** The [switch] of [api_node], entered with the node that
    [get_node_from_address] returned. *)
Definition api_node_switch (op : Node_Op) (node : Z) (gvar : Z) : M unit :=
  match op with
  | Node_GET_NAME =>
      _ <- memarray gvar 1 ;;
      name <- host_call1 node "get_name" [] ;;
      gv_create gvar 0 (VString (as_string name))
  | Node_SET_NAME =>
      var <- memarray gvar 1 ;;
      name <- toVariant (elem var 0) ;;
      _ <- host_call node "set_name" [VString (as_string name)] ;;
      ret tt
  | Node_GET_PATH =>
      _ <- memarray gvar 1 ;;
      path <- host_call1 node "get_path" [] ;;
      gv_create gvar 0 (VString (as_string path))
  | Node_GET_PARENT =>
      _ <- memarray gvar 1 ;;
      parent <- host_call1 node "get_parent" [] ;;
      if bool_decide (as_ptr parent = 0) then
        gv_set gvar 0 VNil false
      else
        parent' <- host_call1 node "get_parent" [] ;;
        gv_set gvar 0 (VObject (as_ptr parent')) true
  | Node_QUEUE_FREE =>
      self <- gets this ;;
      if bool_decide (node = self) then
        ERR_PRINT "Cannot queue free the sandbox" ;;
        throw (runtime_error "Cannot queue free the sandbox")
      else
        _ <- host_call node "queue_free" [] ;;
        ret tt
  | Node_DUPLICATE =>
      _ <- memarray gvar 1 ;;
      new_node <- host_call1 node "duplicate" [] ;;
      add_scoped_object (as_ptr new_node) ;;
      gv_set gvar 0 (VObject (as_ptr new_node)) true
  | Node_GET_CHILD_COUNT =>
      _ <- memarray gvar 1 ;;
      n <- host_call1 node "get_child_count" [] ;;
      gv_set gvar 0 (VInt (as_int n)) false
  | Node_GET_CHILD =>
      var <- memarray gvar 1 ;;
      child_node <- host_call1 node "get_child" [VInt (v_i (elem var 0))] ;;
      if bool_decide (as_ptr child_node = 0) then
        gv_set gvar 0 VNil false
      else
        add_scoped_object (as_ptr child_node) ;;
        gv_set gvar 0 (VInt (as_ptr child_node)) false
  | Node_ADD_CHILD_DEFERRED =>
      child <- memarray gvar 1 ;;
      child_node <- get_node_from_address (v_i (elem child 0)) ;;
      _ <- host_call node "call_deferred" [VString "add_child"; VObject child_node] ;;
      ret tt
  | Node_ADD_CHILD =>
      child <- memarray gvar 1 ;;
      child_node <- get_node_from_address (v_i (elem child 0)) ;;
      _ <- host_call node "add_child" [VObject child_node] ;;
      ret tt
  | Node_ADD_SIBLING_DEFERRED =>
      sibling <- memarray gvar 1 ;;
      sibling_node <- get_node_from_address (v_i (elem sibling 0)) ;;
      _ <- host_call node "call_deferred" [VString "add_sibling"; VObject sibling_node] ;;
      ret tt
  | Node_ADD_SIBLING =>
      sibling <- memarray gvar 1 ;;
      sibling_node <- get_node_from_address (v_i (elem sibling 0)) ;;
      _ <- host_call node "add_sibling" [VObject sibling_node] ;;
      ret tt
  | Node_MOVE_CHILD =>
      vars <- memarray gvar 2 ;;
      child_node <- get_node_from_address (v_i (elem vars 0)) ;;
      _ <- host_call node "move_child" [VObject child_node; VInt (v_i (elem vars 1))] ;;
      ret tt
  | Node_REMOVE_CHILD_DEFERRED =>
      child <- memarray gvar 1 ;;
      child_node <- get_node_from_address (v_i (elem child 0)) ;;
      _ <- host_call node "call_deferred" [VString "remove_child"; VObject child_node] ;;
      ret tt
  | Node_REMOVE_CHILD =>
      child <- memarray gvar 1 ;;
      child_node <- get_node_from_address (v_i (elem child 0)) ;;
      _ <- host_call node "remove_child" [VObject child_node] ;;
      ret tt
  | Node_GET_CHILDREN =>
      _ <- memarray_cell gvar ;;
      children <- host_call node "get_children" [] ;;
      for_each children (fun c =>
        if bool_decide (as_ptr c ≠ 0) then add_scoped_object (as_ptr c) else ret tt) ;;
      store_cell gvar (CStdVector (EScalars (as_ptr <$> children)))
  | Node_INVALID _ => throw (runtime_error "Invalid Node operation")
  end.

(** [api_node] *)
Definition api_node (op : Node_Op) (addr : Z) (gvar : Z) : M unit :=
  penalize 250000 ;;
  node <- get_node_from_address addr ;;
  api_node_switch op node gvar.

(** The part of [api_node2d] after the node was obtained. *)
Definition api_node2d_switch (op : Node2D_Op) (node : Z) (gvar : Z) : M unit :=
  node2d <- host_call1 node "Object::cast_to<Node2D>" [] ;;
  if bool_decide (as_ptr node2d = 0) then
    ERR_PRINT "Node2D object is not a Node2D" ;;
    throw (runtime_error "Node2D object is not a Node2D")
  else
    var <- memarray gvar 1 ;;
    let getter meth :=
      (r <- host_call1 node meth [] ;; gv_set gvar 0 r false) in
    let setter meth margs :=
      (value <- toVariant (elem var 0) ;;
       _ <- host_call node meth (margs ++ [value]) ;; ret tt) in
    match op with
    | Node2D_GET_POSITION => getter "get_position"
    | Node2D_SET_POSITION => setter "set_deferred" [VString "position"]
    | Node2D_GET_ROTATION => getter "get_rotation"
    | Node2D_SET_ROTATION => setter "set_rotation" []
    | Node2D_GET_SCALE => getter "get_scale"
    | Node2D_SET_SCALE => setter "set_scale" []
    | Node2D_GET_SKEW => getter "get_skew"
    | Node2D_SET_SKEW => setter "set_skew" []
    | Node2D_INVALID _ =>
        ERR_PRINT "Invalid Node2D operation" ;;
        throw (runtime_error "Invalid Node2D operation")
    end.

(** [api_node2d] *)
Definition api_node2d (op : Node2D_Op) (addr : Z) (gvar : Z) : M unit :=
  penalize 100000 ;;
  node <- get_node_from_address addr ;;
  api_node2d_switch op node gvar.

(** The part of [api_node3d] after the node was obtained. *)
Definition api_node3d_switch (op : Node3D_Op) (node : Z) (gvar : Z) : M unit :=
  node3d <- host_call1 node "Object::cast_to<Node3D>" [] ;;
  if bool_decide (as_ptr node3d = 0) then
    ERR_PRINT "Node3D object is not a Node3D" ;;
    throw (runtime_error "Node3D object is not a Node3D")
  else
    var <- memarray gvar 1 ;;
    let getter meth :=
      (r <- host_call1 node meth [] ;; gv_set gvar 0 r false) in
    let setter meth :=
      (value <- toVariant (elem var 0) ;;
       _ <- host_call node meth [value] ;; ret tt) in
    match op with
    | Node3D_GET_POSITION => getter "get_position"
    | Node3D_SET_POSITION => setter "set_position"
    | Node3D_GET_ROTATION => getter "get_rotation"
    | Node3D_SET_ROTATION => setter "set_rotation"
    | Node3D_GET_SCALE => getter "get_scale"
    | Node3D_SET_SCALE => setter "set_scale"
    | Node3D_INVALID _ =>
        ERR_PRINT "Invalid Node3D operation" ;;
        throw (runtime_error "Invalid Node3D operation")
    end.

(** [api_node3d] *)
Definition api_node3d (op : Node3D_Op) (addr : Z) (gvar : Z) : M unit :=
  penalize 100000 ;;
  node <- get_node_from_address addr ;;
  api_node3d_switch op node gvar.

(** *** Remote collection operations *)

(** The engine's [Array] operations on the contents of an array. A negative
    position counts from the end; a position out of range leaves the array
    as it is. *)
Definition array_norm (l : list Variant) (idx : Z) : Z :=
  if idx <? 0 then idx + Z.of_nat (length l) else idx.

Definition array_pop_at (l : list Variant) (idx : Z) : list Variant :=
  let p := array_norm l idx in
  if (0 <=? p) && (p <? Z.of_nat (length l)) then delete (Z.to_nat p) l else l.

Definition array_insert (l : list Variant) (idx : Z) (v : Variant) : list Variant :=
  let p := array_norm l idx in
  if (0 <=? p) && (p <=? Z.of_nat (length l))
  then take (Z.to_nat p) l ++ v :: drop (Z.to_nat p) l
  else l.

Fixpoint array_erase (l : list Variant) (v : Variant) : list Variant :=
  match l with
  | [] => []
  | x :: l' => if decide (x = v) then l' else x :: array_erase l' v
  end.

Definition array_resize (l : list Variant) (n : Z) : list Variant :=
  if n <? 0 then l
  else take (Z.to_nat n) l ++ replicate (Z.to_nat n - length l) VNil.

Definition is_array (opt : option Variant) : bool :=
  match opt with Some v => bool_decide (get_type v = ARRAY) | None => false end.

Definition is_dictionary (opt : option Variant) : bool :=
  match opt with Some v => bool_decide (get_type v = DICTIONARY) | None => false end.

Definition is_string (opt : option Variant) : bool :=
  match opt with Some v => bool_decide (get_type v = STRING) | None => false end.

(** [api_array_ops]: the handle is looked up and checked before the
    [switch], for every operation. *)
Definition api_array_ops (op : Array_Op) (arr_idx : nat) (idx : Z) (vaddr : Z) : M unit :=
  opt_array <- gets (get_scoped_variant arr_idx) ;;
  if negb (is_array opt_array) then
    ERR_PRINT "Invalid Array object" ;;
    throw (runtime_error ("Invalid Array object, idx = " +:+ pretty arr_idx))
  else
    let array := array_ref (default VNil opt_array) in
    match op with
    | Array_CREATE =>
        a <- new_array (replicate arr_idx VNil) ;;
        idx' <- create_scoped_variant a ;;
        _ <- memarray vaddr 1 ;;
        gv_assign vaddr 0 ARRAY idx'
    | Array_PUSH_BACK =>
        g <- load vaddr ;;
        v <- toVariant g ;;
        array_modify array (fun l => l ++ [v])
    | Array_PUSH_FRONT =>
        g <- load vaddr ;;
        v <- toVariant g ;;
        array_modify array (fun l => v :: l)
    | Array_POP_AT => array_modify array (fun l => array_pop_at l idx)
    | Array_POP_BACK => array_modify array (fun l => removelast l)
    | Array_POP_FRONT => array_modify array (fun l => tail l)
    | Array_INSERT =>
        g <- load vaddr ;;
        v <- toVariant g ;;
        array_modify array (fun l => array_insert l idx v)
    | Array_ERASE => array_modify array (fun l => array_erase l (VInt idx))
    | Array_RESIZE => array_modify array (fun l => array_resize l idx)
    | Array_CLEAR => array_modify array (fun _ => [])
    | Array_SORT =>
        l <- gets (array_read array) ;;
        sorted <- host_call 0 "Array::sort" l ;;
        array_modify array (fun _ => sorted)
    | Array_INVALID _ =>
        ERR_PRINT "Invalid Array operation" ;;
        throw (runtime_error "Invalid Array operation")
    end.

(** [api_array_at] *)
Definition api_array_at (arr_idx : nat) (idx : Z) (vret : Z) : M unit :=
  opt_array <- gets (get_scoped_variant arr_idx) ;;
  if negb (is_array opt_array) then
    ERR_PRINT "Invalid Array object" ;;
    throw (runtime_error "Invalid Array object")
  else
    array <- gets (array_read (array_ref (default VNil opt_array))) ;;
    if (idx <? 0) || (Z.of_nat (length array) <=? idx) then
      ERR_PRINT "Array index out of bounds" ;;
      throw (runtime_error "Array index out of bounds")
    else
      gv_set vret 0 (default VNil (array !! Z.to_nat idx)) false.

(** [api_array_size] *)
Definition api_array_size (arr_idx : nat) : M unit :=
  opt_array <- gets (get_scoped_variant arr_idx) ;;
  if negb (is_array opt_array) then
    ERR_PRINT "Invalid Array object" ;;
    throw (runtime_error "Invalid Array object")
  else
    array <- gets (array_read (array_ref (default VNil opt_array))) ;;
    set_result (Z.of_nat (length array)).

(** The engine's [Dictionary::merge] without overwrite. *)
Definition dict_merge (d other : list (Variant * Variant)) : list (Variant * Variant) :=
  foldl (fun acc e =>
           match dict_find acc e.1 with
           | Some _ => acc
           | None => dict_set acc e.1 e.2
           end) d other.

Definition to_dictionary (v : Variant) (m : Sandbox) : list (Variant * Variant) :=
  match v with VDictionary r => dict_read r m | _ => [] end.

(** [api_dict_ops] *)
Definition api_dict_ops (op : Dictionary_Op) (dict_idx : nat) (vkey vaddr : Z) : M unit :=
  opt_dict <- gets (get_scoped_variant dict_idx) ;;
  if negb (is_dictionary opt_dict) then
    ERR_PRINT "Invalid Dictionary object" ;;
    throw (runtime_error "Invalid Dictionary object")
  else
    let dict := dict_ref (default VNil opt_dict) in
    match op with
    | Dictionary_GET =>
        key <- load vkey ;;
        _ <- memarray vaddr 1 ;;
        k <- toVariant key ;;
        d <- gets (dict_read dict) ;;
        dict_modify dict (fun _ => (dict_index d k).2) ;;
        gv_create vaddr 0 (dict_index d k).1
    | Dictionary_SET =>
        key <- load vkey ;;
        value <- load vaddr ;;
        v <- toVariant value ;;
        k <- toVariant key ;;
        dict_modify dict (fun d => dict_set d k v)
    | Dictionary_ERASE =>
        key <- load vkey ;;
        k <- toVariant key ;;
        dict_modify dict (fun d => dict_erase d k)
    | Dictionary_HAS =>
        key <- load vkey ;;
        k <- toVariant key ;;
        d <- gets (dict_read dict) ;;
        set_result (bool_result (bool_decide (is_Some (dict_find d k))))
    | Dictionary_GET_SIZE =>
        d <- gets (dict_read dict) ;;
        set_result (Z.of_nat (length d))
    | Dictionary_CLEAR => dict_modify dict (fun _ => [])
    | Dictionary_MERGE =>
        other_dict <- load vkey ;;
        o <- toVariant other_dict ;;
        other <- gets (to_dictionary o) ;;
        dict_modify dict (fun d => dict_merge d other)
    | Dictionary_INVALID _ =>
        ERR_PRINT "Invalid Dictionary operation" ;;
        throw (runtime_error "Invalid Dictionary operation")
    end.

(** [api_string_create] *)
Definition api_string_create (strview : string) : M unit :=
  penalize 10000 ;;
  str <- String_utf8 strview ;;
  idx <- create_scoped_variant (VString str) ;;
  set_result (Z.of_nat idx).

(** [api_string_ops]: [APPEND] extends a local copy of the string, which is
    dropped when the handler returns. *)
Definition api_string_ops (op : String_Op) (str_idx : nat) (index : Z) (vaddr : Z) : M unit :=
  opt_str <- gets (get_scoped_variant str_idx) ;;
  if negb (is_string opt_str) then
    ERR_PRINT "Invalid String object" ;;
    throw (runtime_error "Invalid String object")
  else
    let str := as_string (default VNil opt_str) in
    match op with
    | String_APPEND =>
        gvar <- load vaddr ;;
        _ <- toVariant gvar ;;
        ret tt
    | String_GET_LENGTH => set_result (Z.of_nat (String_length str))
    | String_TO_STD_STRING =>
        if bool_decide (index = 0) then
          _ <- memarray_cell vaddr ;;
          store_cell vaddr (CStdString str)
        else if bool_decide (index = 2) then
          _ <- memarray_cell vaddr ;;
          store_cell vaddr (CStdU32String str)
        else
          ERR_PRINT "Invalid String conversion" ;;
          throw (runtime_error "Invalid String conversion")
    | String_INVALID _ =>
        ERR_PRINT "Invalid String operation" ;;
        throw (runtime_error "Invalid String operation")
    end.

(** [str[index]]: the code point at [index]. *)
Definition char_at (s : string) (i : Z) : Z :=
  default 0 (code_points s !! Z.to_nat i).

(** [api_string_at] *)
Definition api_string_at (str_idx : nat) (index : Z) : M unit :=
  opt_str <- gets (get_scoped_variant str_idx) ;;
  if negb (is_string opt_str) then
    ERR_PRINT "Invalid String object" ;;
    throw (runtime_error "Invalid String object")
  else
    let str := as_string (default VNil opt_str) in
    if (index <? 0) || (Z.of_nat (String_length str) <=? index) then
      ERR_PRINT "String index out of bounds" ;;
      throw (runtime_error "String index out of bounds")
    else
      new_varidx <- create_scoped_variant (VInt (char_at str index)) ;;
      set_result (Z.of_nat new_varidx).

(** [api_string_size] *)
Definition api_string_size (str_idx : nat) : M unit :=
  opt_str <- gets (get_scoped_variant str_idx) ;;
  if negb (is_string opt_str) then
    ERR_PRINT "Invalid String object" ;;
    throw (runtime_error "Invalid String object")
  else
    set_result (Z.of_nat (String_length (as_string (default VNil opt_str)))).

(** [api_timer_periodic]. The callable that [vmcallable_address] builds is
    a callable on the sandbox itself, bound to the guest address. *)
Definition api_timer_periodic (interval : Z) (oneshot : bool) (callback : Z)
    (capture : Z) (vret : Z) : M unit :=
  penalize 100000 ;;
  timer <- host_call1 0 "memnew" [VString "Timer"] ;;
  let timer := as_ptr timer in
  _ <- host_call timer "set_wait_time" [VFloat interval] ;;
  _ <- host_call timer "set_one_shot" [VBool oneshot] ;;
  topnode <- gets m_tree_base ;;
  (if bool_decide (topnode ≠ 0) then
     _ <- host_call topnode "add_child" [VObject timer] ;;
     _ <- host_call timer "set_owner" [VObject topnode] ;;
     _ <- host_call timer "start" [] ;;
     ret tt
   else
     _ <- host_call timer "set_autostart" [VBool true] ;;
     ret tt) ;;
  capture_data <- memarray_raw capture 32 ;;
  self <- gets this ;;
  _ <- host_call timer "connect"
         [VString "timeout"; VCallable self ("vmcallable_address " +:+ pretty callback);
          VObject timer; VPacked PackedByte capture_data] ;;
  gv_set vret 0 (VObject timer) true.

(** [api_timer_stop] *)
Definition api_timer_stop : M unit :=
  throw (runtime_error "timer_stop: Not implemented").

(** ** The dispatch table *)

(** The system calls of [Sandbox::initialize_syscalls], in table order. *)
Inductive Ecall :=
| ECALL_PRINT | ECALL_VCALL | ECALL_VEVAL | ECALL_VFREE | ECALL_GET_OBJ
| ECALL_OBJ | ECALL_OBJ_CALLP | ECALL_GET_NODE | ECALL_NODE | ECALL_NODE2D
| ECALL_NODE3D | ECALL_THROW | ECALL_IS_EDITOR | ECALL_SINCOS
| ECALL_VEC2_LENGTH | ECALL_VEC2_NORMALIZED | ECALL_VEC2_ROTATED
| ECALL_VCREATE | ECALL_VFETCH | ECALL_VCLONE | ECALL_VSTORE
| ECALL_ARRAY_OPS | ECALL_ARRAY_AT | ECALL_ARRAY_SIZE
| ECALL_DICTIONARY_OPS
| ECALL_STRING_CREATE | ECALL_STRING_OPS | ECALL_STRING_AT
| ECALL_STRING_SIZE | ECALL_STRING_APPEND
| ECALL_TIMER_PERIODIC | ECALL_TIMER_STOP
| ECALL_NODE_CREATE.

#[global] Instance Ecall_eq_dec : EqDecision Ecall.
Proof. solve_decision. Defined.

Definition installed : list Ecall :=
  [ ECALL_PRINT; ECALL_VCALL; ECALL_VEVAL; ECALL_VFREE; ECALL_GET_OBJ;
    ECALL_OBJ; ECALL_OBJ_CALLP; ECALL_GET_NODE; ECALL_NODE; ECALL_NODE2D;
    ECALL_NODE3D; ECALL_THROW; ECALL_IS_EDITOR; ECALL_SINCOS;
    ECALL_VEC2_LENGTH; ECALL_VEC2_NORMALIZED; ECALL_VEC2_ROTATED;
    ECALL_VCREATE; ECALL_VFETCH; ECALL_VCLONE; ECALL_VSTORE;
    ECALL_ARRAY_OPS; ECALL_ARRAY_AT; ECALL_ARRAY_SIZE;
    ECALL_DICTIONARY_OPS;
    ECALL_STRING_CREATE; ECALL_STRING_OPS; ECALL_STRING_AT;
    ECALL_STRING_SIZE; ECALL_STRING_APPEND;
    ECALL_TIMER_PERIODIC; ECALL_TIMER_STOP;
    ECALL_NODE_CREATE ].

(** Modelled from the spec: [Sandbox::print] is defined outside the sources
    at hand; it is the channel on which the fallback reports the call. *)
Definition print (text : string) : M unit :=
  modify (fun m => with_out_log (out_log m ++ [text]) m).

(** [machine().on_unhandled_syscall] *)
Definition on_unhandled_syscall (syscall : Z) : M unit :=
  print ("Unhandled system call: " +:+ pretty syscall) ;;
  penalize 100000.

Section Dispatch.

(** The numbers behind the [ECALL_*] macros come from the syscall header. *)
Variable number : Ecall -> Z.

(** What the handler installed for an [Ecall] does with the registers of
    the current call; reading its arguments from the registers
    ([machine.sysargs]) is the VM's. *)
Variable run : Ecall -> M unit.

(** The handlers that [setup_linux_syscalls] and [setup_posix_threads]
    install before the Godot system calls, under the numbers of the Linux
    ABI; they belong to the VM. *)
Variable linux_handlers : gmap Z (M unit).

(** The dispatch table after [Sandbox::initialize_syscalls]: the Linux and
    thread handlers, then [machine_t::install_syscall_handlers] with the
    Godot entries, stored under their numbers in table order. *)
Definition syscall_handlers : gmap Z (M unit) :=
  foldl (fun t e => <[number e := run e]> t) linux_handlers installed.

(** Modelled from the spec: the dispatch of a system call is done by the
    VM, which is not part of the sources at hand. The spec's Syscall
    Dispatcher (section 4.5): a fixed table mapping operation identifiers
    to handlers; unknown operation identifiers are routed to a fallback.
    The fallback is the callback that [initialize_syscalls] sets. *)
Definition system_call (n : Z) : M unit :=
  match syscall_handlers !! n with
  | Some h => h
  | None => on_unhandled_syscall n
  end.

End Dispatch.

(** A system call with its decoded arguments. *)
Inductive Syscall :=
| Call_print (array : Z) (len : nat)
| Call_veval (op ap bp retp : Z)
| Call_vcreate (vp : Z) (t : VariantType) (method gdata : Z)
| Call_vfetch (index : nat) (gdata method : Z)
| Call_vclone (vp vret : Z)
| Call_vstore (index : nat) (gdata : Z) (gsize : nat)
| Call_vfree (vp : Z)
| Call_get_obj (name : string)
| Call_obj (op : Object_Op) (addr gvar : Z)
| Call_obj_callp (addr : Z) (method : string) (deferred : bool)
    (vret_ptr args_addr : Z) (args_size : nat)
| Call_get_node (addr : Z) (name : string)
| Call_node_create (t : Node_Create_Shortlist) (g_class_name : Z)
    (g_class_len : nat) (name : string)
| Call_node (op : Node_Op) (addr gvar : Z)
| Call_node2d (op : Node2D_Op) (addr gvar : Z)
| Call_node3d (op : Node3D_Op) (addr gvar : Z)
| Call_array_ops (op : Array_Op) (arr_idx : nat) (idx vaddr : Z)
| Call_array_at (arr_idx : nat) (idx vret : Z)
| Call_array_size (arr_idx : nat)
| Call_dict_ops (op : Dictionary_Op) (dict_idx : nat) (vkey vaddr : Z)
| Call_string_create (strview : string)
| Call_string_ops (op : String_Op) (str_idx : nat) (index vaddr : Z)
| Call_string_at (str_idx : nat) (index : Z)
| Call_string_size (str_idx : nat)
| Call_timer_periodic (interval : Z) (oneshot : bool) (callback capture vret : Z)
| Call_timer_stop.

Definition handler (c : Syscall) : M unit :=
  match c with
  | Call_print array len => api_print array len
  | Call_veval op ap bp retp => api_veval op ap bp retp
  | Call_vcreate vp t method gdata => api_vcreate vp t method gdata
  | Call_vfetch index gdata method => api_vfetch index gdata method
  | Call_vclone vp vret => api_vclone vp vret
  | Call_vstore index gdata gsize => api_vstore index gdata gsize
  | Call_vfree vp => api_vfree vp
  | Call_get_obj name => api_get_obj name
  | Call_obj op addr gvar => api_obj op addr gvar
  | Call_obj_callp addr method deferred vret_ptr args_addr args_size =>
      api_obj_callp addr method deferred vret_ptr args_addr args_size
  | Call_get_node addr name => api_get_node addr name
  | Call_node_create t g_class_name g_class_len name =>
      api_node_create t g_class_name g_class_len name
  | Call_node op addr gvar => api_node op addr gvar
  | Call_node2d op addr gvar => api_node2d op addr gvar
  | Call_node3d op addr gvar => api_node3d op addr gvar
  | Call_array_ops op arr_idx idx vaddr => api_array_ops op arr_idx idx vaddr
  | Call_array_at arr_idx idx vret => api_array_at arr_idx idx vret
  | Call_array_size arr_idx => api_array_size arr_idx
  | Call_dict_ops op dict_idx vkey vaddr => api_dict_ops op dict_idx vkey vaddr
  | Call_string_create strview => api_string_create strview
  | Call_string_ops op str_idx index vaddr => api_string_ops op str_idx index vaddr
  | Call_string_at str_idx index => api_string_at str_idx index
  | Call_string_size str_idx => api_string_size str_idx
  | Call_timer_periodic interval oneshot callback capture vret =>
      api_timer_periodic interval oneshot callback capture vret
  | Call_timer_stop => api_timer_stop
  end.

(** The [machine.penalize] constant at the head of a handler, if it has
    one. *)
Definition penalty (c : Syscall) : option Z :=
  match c with
  | Call_vcreate _ _ _ _ | Call_vfetch _ _ _ | Call_vclone _ _
  | Call_vstore _ _ _ | Call_vfree _ | Call_string_create _ => Some 10000
  | Call_node2d _ _ _ | Call_node3d _ _ _
  | Call_timer_periodic _ _ _ _ _ => Some 100000
  | Call_get_obj _ | Call_get_node _ _ | Call_node_create _ _ _ _ => Some 150000
  | Call_obj _ _ _ | Call_obj_callp _ _ _ _ _ _ | Call_node _ _ _ => Some 250000
  | _ => None
  end.

(** ** The call-state stack *)

Definition StackOverflow : Exn := runtime_error "StackOverflow".

(** Modelled from the spec: the transitions of the call-state stack. The
    class declares [MAX_LEVEL], [m_level], [m_states] (with [MAX_LEVEL + 1]
    entries) and [CurrentState::reset]; the function that enters and leaves
    a call level is defined outside the sources at hand. The spec's
    [enter()]: depth += 1; if depth > MAX_LEVEL, fail fatally
    (StackOverflow), before any work for the new call and without
    materializing a scope; else the scope of the new level is reset and
    becomes the current one. *)
Definition enter : M unit :=
  fun m =>
    let depth := S (m_level m) in
    let m1 := with_level depth (m_current_state m) m in
    if decide (MAX_LEVEL < depth)%nat then (Throw StackOverflow, m1)
    else
      (Ok tt,
       with_level depth depth
         (with_states (alter reset depth (m_states m1)) m1)).

(** Modelled from the spec: [leave()] clears the scope at the current
    depth and decrements the depth. *)
Definition leave : M unit :=
  fun m =>
    let depth := m_level m in
    (Ok tt,
     with_level (pred depth) (pred depth)
       (with_states (alter reset depth (m_states m)) m)).

(** ** Concrete sandboxes *)

(** A sandbox at rest: counters at zero, depth 0 with the permanent scope
    current, every scope empty, no tree base, an engine that answers every
    call with an empty reply. The node itself lives at address 4096. *)
Definition boot (mem : gmap Z Cell) : Sandbox :=
  mkSandbox 0 0 mem 4096 0 100 0 0 (replicate (S MAX_LEVEL) empty_state) [] []
    (fun _ _ => []) [] [] [].

(** Guest memory with an integer at 100 and a free result slot at 200. *)
Definition sample_memory : gmap Z Cell :=
  {[ 100 := CVariants [mkGuestVariant INT 55 []];
     200 := CVariants [nil_variant] ]}.

(** Two object variants with addresses outside every scope, and a result
    slot. *)
Definition object_memory : gmap Z Cell :=
  {[ 100 := CVariants [mkGuestVariant OBJECT 7 []];
     120 := CVariants [mkGuestVariant OBJECT 9 []];
     200 := CVariants [nil_variant] ]}.

(** Guest memory for a dictionary scenario: a key at 100, a value at 120,
    a result slot at 200 and the slot at 300 that receives the handle of
    the dictionary. *)
Definition dictionary_memory : gmap Z Cell :=
  {[ 100 := CVariants [mkGuestVariant INT 55 []];
     120 := CVariants [mkGuestVariant INT 7 []];
     200 := CVariants [nil_variant];
     300 := CVariants [nil_variant] ]}.

(** A sandbox in which the guest created a dictionary; its handle is 0. *)
Definition with_dictionary : Sandbox :=
  (api_vcreate 300 DICTIONARY 0 0 (boot dictionary_memory)).2.

(** Guest memory holding the NUL-terminated class name "X" at 400, next to
    an integer at 100 and a result slot at 200. *)
Definition class_memory : gmap Z Cell :=
  {[ 100 := CVariants [mkGuestVariant INT 55 []];
     200 := CVariants [nil_variant];
     400 := CBytes [88; 0] ]}.

(** A sandbox whose guest asked [api_node_create] for an instance of a
    class that the engine does not know: [ClassDB::instantiate] answered
    with a null object, and the handler passed it to [add_scoped_object]. *)
Definition after_failed_instantiate : Sandbox :=
  (api_node_create CREATE_CLASSDB 400 1 "" (boot class_memory)).2.

(** A numbering of the system calls, consecutive from 500 in table order. *)
Definition sample_number (e : Ecall) : Z :=
  500 + Z.of_nat (default 0%nat (fst <$> list_find (fun e' => e' = e) installed)).

(** Running a sequence of calls, stopping at the first exception. *)
Definition sequence (l : list (M unit)) : M unit := for_each l (fun c => c).

(** The spec's classification of the scope-check failure. *)
Definition ObjectNotScoped (e : Exn) : Prop :=
  e = runtime_error "Object is not scoped" \/
  e = runtime_error "Node object is not scoped".

(** ** Capabilities named by a call *)

(** The raw host-object address that a call hands to the object,
    object-call, node, Node2D or Node3D handler. *)
Definition raw_address (c : Syscall) : option Z :=
  match c with
  | Call_obj _ addr _ | Call_obj_callp addr _ _ _ _ _
  | Call_node _ addr _ | Call_node2d _ addr _ | Call_node3d _ addr _ => Some addr
  | _ => None
  end.

(** What such a handler goes on to do once the address passed the scope
    check. *)
Definition after_scope_check (c : Syscall) : M unit :=
  match c with
  | Call_obj op addr gvar => api_obj_switch op addr gvar
  | Call_obj_callp addr method deferred vret_ptr args_addr args_size =>
      if decide (8 < args_size)%nat then
        ERR_PRINT "Too many arguments." ;;
        throw (runtime_error "Too many arguments.")
      else api_obj_callp_call addr method deferred vret_ptr args_addr args_size
  | Call_node op addr gvar => api_node_switch op addr gvar
  | Call_node2d op addr gvar => api_node2d_switch op addr gvar
  | Call_node3d op addr gvar => api_node3d_switch op addr gvar
  | _ => handler c
  end.

Definition charge (c : Syscall) : Z := default 0 (penalty c).

Definition fetchable (t : VariantType) : bool :=
  match t with
  | STRING | STRING_NAME | NODE_PATH
  | PACKED_BYTE_ARRAY | PACKED_FLOAT32_ARRAY | PACKED_FLOAT64_ARRAY
  | PACKED_INT32_ARRAY | PACKED_INT64_ARRAY
  | PACKED_VECTOR2_ARRAY | PACKED_VECTOR3_ARRAY => true
  | _ => false
  end.

Definition storable (t : VariantType) : bool :=
  match t with
  | PACKED_BYTE_ARRAY | PACKED_FLOAT32_ARRAY | PACKED_FLOAT64_ARRAY => true
  | _ => false
  end.

Definition is_kind (k t : VariantType) : bool := bool_decide (t = k).

(** The scoped-variant handle that a call names in its arguments, with the
    value kinds that its handler accepts there. *)
Definition names_handle (c : Syscall) : option (nat * (VariantType -> bool)) :=
  match c with
  | Call_array_ops _ arr_idx _ _ | Call_array_at arr_idx _ _
  | Call_array_size arr_idx => Some (arr_idx, is_kind ARRAY)
  | Call_dict_ops _ dict_idx _ _ => Some (dict_idx, is_kind DICTIONARY)
  | Call_string_ops _ str_idx _ _ | Call_string_at str_idx _
  | Call_string_size str_idx => Some (str_idx, is_kind STRING)
  | Call_vfetch index _ _ => Some (index, fetchable)
  | Call_vstore index _ _ => Some (index, storable)
  | _ => None
  end.

(** The handle is out of range, or names a value of a kind that the
    operation does not accept. *)
Definition handle_violation (h : nat) (accepts : VariantType -> bool)
    (m : Sandbox) : bool :=
  match get_scoped_variant h m with
  | None => true
  | Some v => negb (accepts (get_type v))
  end.

(** The states that a rejected call leaves behind: only the counter and the
    error log may differ. *)
Definition untouched (m m' : Sandbox) : Prop :=
  host_log m' = host_log m /\ m_states m' = m_states m /\
  m_memory m' = m_memory m /\ m_arrays m' = m_arrays m /\
  m_dicts m' = m_dicts m /\ m_a0 m' = m_a0 m.

(** Two sandboxes with the same scopes and the same current scope. *)
Definition same_scope (m m' : Sandbox) : Prop :=
  m_states m' = m_states m /\ m_current_state m' = m_current_state m.

(** ** Charging *)

(** The computation leaves the instruction counter as it is. *)
Definition keeps_counter {A} (c : M A) : Prop :=
  forall m, m_counter (c m).2 = m_counter m.

(** The first thing the handler does is to charge [p]; nothing it does
    afterwards touches the counter. *)
Definition charges_first (p : Z) (h : M unit) : Prop :=
  exists body : M unit,
    (forall m, h m = (penalize p ;; body) m) /\ keeps_counter body.

(** ** Frames *)

(** The computation leaves the component [f] of the sandbox as it is,
    whether it returns or throws. *)
Definition preserves {A B} (f : Sandbox -> B) (c : M A) : Prop :=
  forall m, f (c m).2 = f m.

(** The engine call that [api_print] makes for one value. *)
Definition print_op (v : Variant) : HostOp :=
  mkHostOp 0 "UtilityFunctions::print" [v].

(** The node operations that take a second node, read from the guest
    variant at [gvar]. *)
Definition takes_child (op : Node_Op) : bool :=
  match op with
  | Node_ADD_CHILD_DEFERRED | Node_ADD_CHILD
  | Node_ADD_SIBLING_DEFERRED | Node_ADD_SIBLING | Node_MOVE_CHILD
  | Node_REMOVE_CHILD_DEFERRED | Node_REMOVE_CHILD => true
  | _ => false
  end.

(** The object operations that take a target object, read from the guest
    variant at [gvar]. *)
Definition takes_target (op : Object_Op) : bool :=
  match op with
  | Object_CONNECT | Object_DISCONNECT => true
  | _ => false
  end.

(** The handlers that hand a host address back in the result register. *)
Definition returns_address (c : Syscall) : bool :=
  match c with
  | Call_get_obj _ | Call_get_node _ _ | Call_node_create _ _ _ _ => true
  | _ => false
  end.

(** The sandbox after [add_scoped_object a]. *)
Definition with_scoped_object (a : Z) (m : Sandbox) : Sandbox := (add_scoped_object a m).2.

(** The computation takes every sandbox to one that [R] relates to it,
    whether it returns or throws. *)
Definition steps {A} (R : Sandbox -> Sandbox -> Prop) (c : M A) : Prop :=
  forall m, R m (c m).2.

(** Every address in the current scope of [m] is in the current scope of
    [m'], and every handle that names a value in [m] names the same value
    in [m']. *)
Definition capabilities_kept (m m' : Sandbox) : Prop :=
  (forall a, is_scoped_object a m = true -> is_scoped_object a m' = true) /\
  (forall h v, get_scoped_variant h m = Some v -> get_scoped_variant h m' = Some v).

(** Every array of the engine but the one at [r'] has in [m'] the contents
    it has in [m]; arrays may have been created. *)
Definition other_arrays_kept (r' : nat) (m m' : Sandbox) : Prop :=
  (length (m_arrays m) <= length (m_arrays m'))%nat /\
  forall r, r <> r' -> (r < length (m_arrays m))%nat ->
    array_read r m' = array_read r m.

(** ** Calls on a Variant *)

Section VariantCall.

(** The numbers behind [Variant::Type] come from the engine's headers. *)
Variable type_number : VariantType -> Z.

(** Modelled from the spec: [GuestVariant::toVariantPtr] is defined in
    [guest_datatypes.cpp], which is not part of the sources at hand. It
    yields the scoped Variant that the handle of the guest value names;
    decoding a reference that fails scope validation fails. *)
Definition toVariantPtr (g : GuestVariant) : M Variant :=
  opt <- gets (get_handle (v_i g)) ;;
  match opt with
  | Some v => ret v
  | None => throw (runtime_error "GuestVariant::toVariantPtr(): Variant is not scoped")
  end.

(** [api_vcall] *)
Definition api_vcall (vp : Z) (method : string) (args_ptr : Z) (args_size : nat)
    (vret : Z) : M unit :=
  if decide (8 < args_size)%nat then
    ERR_PRINT "Variant::call(): Too many arguments" ;;
    throw (runtime_error "Variant::call(): Too many arguments")
  else
    args <- memarray args_ptr args_size ;;
    g <- load vp ;;
    match type g with
    | CALLABLE =>
        vargs <- map_m toVariant args ;;
        vcall <- toVariantPtr g ;;
        r <- host_call1 0 "Variant::callp" (vcall :: VString method :: vargs) ;;
        gv_create vret 0 r
    | OBJECT =>
        obj <- get_object_from_address (v_i g) ;;
        vargs <- map_m toVariant args ;;
        r <- host_call1 obj "callv" (VString method :: vargs) ;;
        gv_create vret 0 r
    | t =>
        ERR_PRINT "Invalid Variant type for Variant::call()" ;;
        throw (runtime_error
          ("Invalid Variant type for Variant::call(): " +:+ pretty (type_number t)))
    end.

End VariantCall.

(** The methods of the engine calls that [m'] made after [m]. *)
Definition methods_since (m m' : Sandbox) : list string :=
  method <$> drop (length (host_log m)) (host_log m').

(** ** Profiling: the hotspot report *)

(** [unsigned] and [int] arithmetic. *)
Definition uint32 (z : Z) : Z := z mod 2 ^ 32.
Definition sint32 (z : Z) : Z := (z + 2 ^ 31) mod 2 ^ 32 - 2 ^ 31.

(** [struct Result] *)
Record Result := mkResult {
  elf : string;
  pc : Z;
  count : Z;
  line : Z;
  function : string;
  file : string;
}.

#[global] Instance Result_eq_dec : EqDecision Result.
Proof. solve_decision. Defined.

Definition set_count (c : Z) (r : Result) : Result :=
  mkResult (elf r) (pc r) c (line r) (function r) (file r).

Definition newline : Ascii.ascii := Ascii.ascii_of_nat 10.
Definition colon : Ascii.ascii := Ascii.ascii_of_nat 58.

(** The engine's [String::split] on a newline (empty pieces are kept) and
    [String::rfind] of a colon. *)
Fixpoint split_lines (s : string) : list string :=
  match s with
  | EmptyString => [EmptyString]
  | String c s' =>
      if Ascii.eqb c newline then EmptyString :: split_lines s'
      else
        match split_lines s' with
        | piece :: rest => String c piece :: rest
        | [] => [String c EmptyString]
        end
  end.

Fixpoint rfind_colon (s : string) : option nat :=
  match s with
  | EmptyString => None
  | String c s' =>
      match rfind_colon s' with
      | Some i => Some (S i)
      | None => if Ascii.eqb c colon then Some 0%nat else None
      end
  end.

(** The dictionaries of the report, with string keys. *)
Definition Dict : Type := list (Variant * Variant).

Definition dict_put (k : string) (v : Variant) (d : Dict) : Dict :=
  dict_set d (VString k) v.

Definition field (k : string) (d : Dict) : Variant :=
  default VNil (dict_find d (VString k)).

Section Hotspots.

(** The output of [riscv64-linux-gnu-addr2line -e elf -f -C 0xpc], read
    through [popen]; nothing when the process cannot be started. *)
Variable addr2line : string -> Z -> option string.

(** The fallback [Callable], called with the file name and the address. *)
Variable callback : string -> Z -> string.

(** The engine's [String::to_int]. *)
Variable to_int : string -> Z.

(** [std::partial_sort(first, first + n, last, comp)] with the comparison
    [a.count > b.count], on the whole of [results]. *)
Variable partial_sort : nat -> list Result -> list Result.

(** [resolve] *)
Definition resolve (res : Result) (fallback_filename : string) : Result :=
  match (if decide (elf res = "") then None else addr2line (elf res) (pc res)) with
  | Some output =>
      let lines := split_lines output in
      let res :=
        if decide (2 <= length lines)%nat then
          let res := mkResult (elf res) (pc res) (count res) (line res)
                       (default "" (lines !! 0%nat)) (file res) in
          let line2 := default "" (lines !! 1%nat) in
          match rfind_colon line2 with
          | Some idx =>
              let file' := String.substring 0 idx line2 in
              let line' :=
                to_int (String.substring (S idx) (String.length line2 - S idx) line2) in
              mkResult (elf res) (pc res) (count res) line' (function res)
                (if decide (file' = "??") then elf res else file')
          | None => res
          end
        else
          mkResult (elf res) (pc res) (count res) (line res) output (file res) in
      if decide (file res = "") then
        mkResult (elf res) (pc res) (count res) (line res) (function res) (elf res)
      else res
  | None =>
      mkResult (elf res) (pc res) (count res) (line res)
        (callback fallback_filename (pc res)) fallback_filename
  end.

(** The gathering loops of [get_hotspots] over the copy of the profiling
    data; the lists are in the iteration order of the unordered maps. *)
Definition gather_entry (elf_path std_elf_hint : string)
    (st : list Result * Z) (entry : Z * Z) : list Result * Z :=
  let res := mkResult elf_path entry.1 entry.2 0 "" "" in
  let total_measurements := uint32 (st.2 + count res) in
  let res := resolve res std_elf_hint in
  (st.1 ++ [res], total_measurements).

Definition gather_path (std_elf_hint : string)
    (st : list Result * Z) (path : string * list (Z * Z)) : list Result * Z :=
  foldl (gather_entry path.1 std_elf_hint) st path.2.

Definition gather (visited : list (string * list (Z * Z))) (std_elf_hint : string)
  : list Result * Z :=
  foldl (gather_path std_elf_hint) ([], 0) visited.

(** The key under which results are merged. *)
Definition hotspot_key (res : Result) : string := function res +:+ file res.

(** One round of the deduplication loop, on the result at index [i]. *)
Definition dedup_step (st : list Result * gmap string nat) (i : nat)
  : list Result * gmap string nat :=
  match st.1 !! i with
  | Some res =>
      let key := hotspot_key res in
      match st.2 !! key with
      | Some index =>
          let results :=
            alter (fun r => set_count (sint32 (count r + count res)) r) index st.1 in
          (alter (set_count 0) i results, st.2)
      | None => (st.1, <[key := i]> st.2)
      end
  | None => st
  end.

Definition deduplicate (results : list Result) : list Result * gmap string nat :=
  foldl dedup_step (results, ∅) (seq 0 (length results)).

(** [while (!results.empty() && results.back().count == 0) results.pop_back()] *)
Fixpoint trim (fuel : nat) (results : list Result) : list Result :=
  match fuel with
  | O => results
  | S fuel' =>
      match last results with
      | Some r => if decide (count r = 0) then trim fuel' (removelast results) else results
      | None => results
      end
  end.

Definition hotspot (res : Result) : Dict :=
  dict_put "count" (VInt (count res))
    (dict_put "line" (VInt (line res))
       (dict_put "file" (VString (file res))
          (dict_put "function" (VString (function res)) []))).

Definition stats (functions : nat) (measurements : Z) : Dict :=
  dict_put "measurements" (VInt measurements)
    (dict_put "functions" (VInt (Z.of_nat functions)) []).

(** The results that [get_hotspots] reports, after deduplication, partial
    sort, cut and trim, for [0 <= total]. *)
Definition top_results (results : list Result) (total : Z) : list Result :=
  let total := Z.to_nat (Z.min total (Z.of_nat (length results))) in
  let results := partial_sort total results in
  let results := take total results in
  trim (length results) results.

(** [Sandbox::get_hotspots]: the error output and the returned array. The
    profiling data is absent when profiling is not enabled. The embedding
    describes the original for [0 <= total] only: with a negative [total]
    the middle iterator of [std::partial_sort] lies before [begin()] and
    the original has no defined behaviour, so every statement below about
    the report with profiling data assumes [0 <= total]. *)
Definition get_hotspots (m_profiling_data : option (list (string * list (Z * Z))))
    (elf_hint : string) (total : Z) : list string * list Dict :=
  match m_profiling_data with
  | None => (["Profiling is not currently enabled."], [])
  | Some visited =>
      let '(results, total_measurements) := gather visited elf_hint in
      let '(results, dedup) := deduplicate results in
      ([], (hotspot <$> top_results results total)
           ++ [stats (size dedup) total_measurements])
  end.

End Hotspots.

(** [a] may stand before [b] in descending order of count: the comparison
    [b.count > a.count] of the sort does not hold. *)
Definition descending (a b : Result) : Prop := count b <= count a.

#[global] Instance descending_dec : RelDecision descending.
Proof. intros a b. unfold descending. apply _. Defined.

(** A full sort by descending count, as an instance of [std::partial_sort]. *)
Definition sort_by_count (n : nat) (results : list Result) : list Result :=
  merge_sort descending results.

(** The sum of the counts. *)
Definition sum_counts (results : list Result) : Z :=
  foldr (fun r acc => count r + acc) 0 results.

(** The measurements of a key: the counts of the results that carry it. *)
Definition key_total (results : list Result) (key : string) : Z :=
  sum_counts (filter (fun r => hotspot_key r = key) results).

(** What [partial_sort n] guarantees: a rearrangement in which the first
    [n] results are in descending order of count and none of the others
    has a greater count than any of them. *)
Definition partial_sort_spec (partial_sort : nat -> list Result -> list Result) : Prop :=
  forall n l, (n <= length l)%nat ->
    partial_sort n l ≡ₚ l /\
    StronglySorted descending (take n (partial_sort n l)) /\
    forall a b, a ∈ take n (partial_sort n l) -> b ∈ drop n (partial_sort n l) ->
      count b <= count a.

(** The index of the first of [keys] that equals [key]. *)
Definition key_index (keys : list string) (key : string) : option nat :=
  fst <$> list_find (fun k => k = key) keys.

(** The count that the deduplication loop has left at index [i] after [k]
    rounds: a result that was visited carries the measurements of its key
    so far if it is the first with that key, and nothing otherwise. *)
Definition merged_count (results : list Result) (k i : nat) (r : Result) : Z :=
  if decide (i < k)%nat then
    if decide (key_index (take k (hotspot_key <$> results)) (hotspot_key r) = Some i)
    then key_total (take k results) (hotspot_key r)
    else 0
  else count r.

Definition merged (results : list Result) (k : nat) : list Result :=
  imap (fun i r => set_count (merged_count results k i r) r) results.

(** The counts of the profiling data, in iteration order, and their sum. *)
Definition all_counts (visited : list (string * list (Z * Z))) : list Z :=
  visited ≫= (fun path => snd <$> path.2).

Definition sum_Z (l : list Z) : Z := foldr Z.add 0 l.

(** The node operations that hand a node of the tree to the guest through
    the guest variant at [gvar]. *)
Definition navigates (op : Node_Op) : bool :=
  match op with
  | Node_GET_PARENT | Node_DUPLICATE | Node_GET_CHILD => true
  | _ => false
  end.

(** * Properties *)

(** ** The monad *)

Lemma bind_ok {A B} (c : M A) (k : A -> M B) m a m' :
  c m = (Ok a, m') -> bind c k m = k a m'.
Proof. intros H. unfold bind. now rewrite H. Qed.

Lemma bind_throw {A B} (c : M A) (k : A -> M B) m e m' :
  c m = (Throw e, m') -> bind c k m = (Throw e, m').
Proof. intros H. unfold bind. now rewrite H. Qed.

Lemma bind_assoc {A B C} (c : M A) (k : A -> M B) (h : B -> M C) m :
  bind (bind c k) h m = bind c (fun a => bind (k a) h) m.
Proof. unfold bind. destruct (c m) as [[a|e] m']; reflexivity. Qed.

(** ** Reads and writes of guest variants *)

Lemma memarray_head addr g l m :
  m_memory m !! addr = Some (CVariants (g :: l)) ->
  memarray addr 1 m = (Ok [g], m).
Proof.
  intros H. unfold memarray. rewrite H.
  destruct (decide (1 ≤ length (g :: l))%nat) as [_|Hn]; [|cbn in Hn; lia].
  reflexivity.
Qed.

Lemma load_head addr g l m :
  m_memory m !! addr = Some (CVariants (g :: l)) ->
  load addr m = (Ok g, m).
Proof.
  intros H. unfold load. erewrite bind_ok by (eapply memarray_head; exact H).
  reflexivity.
Qed.

Lemma store_variant_head addr g g0 l m :
  m_memory m !! addr = Some (CVariants (g0 :: l)) ->
  store_variant addr 0 g m =
  (Ok tt, with_memory (<[addr := CVariants (g :: l)]> (m_memory m)) m).
Proof.
  intros H. unfold store_variant. rewrite H.
  destruct (decide (0 < length (g0 :: l))%nat) as [_|Hn]; [|cbn in Hn; lia].
  reflexivity.
Qed.

(** Symbolic execution of a handler: the monad is unfolded and the
    decided tests are resolved. *)
#[local] Arguments pretty : simpl never.

Ltac unfold_m :=
  unfold bind, ret, gets, modify, throw, penalize, set_result, ERR_PRINT,
    host_call1, host_call, print.

Ltac decide_test :=
  first [ rewrite bool_decide_true by done
        | rewrite bool_decide_false by done ].

Ltac run_m := unfold_m; repeat (cbn; try decide_test).

(** ** The scope check *)

Lemma get_node_from_address_ok addr m :
  addr ≠ 0 -> is_scoped_object addr m = true ->
  get_node_from_address addr m = (Ok addr, m).
Proof.
  intros Hnz Hs. unfold get_node_from_address.
  rewrite bool_decide_false by assumption.
  unfold bind, gets. now rewrite Hs.
Qed.

Lemma get_node_from_address_null m :
  get_node_from_address 0 m =
  (Throw (runtime_error "Node object is Null"),
   with_err_log (err_log m ++ ["Node object is Null"]) m).
Proof. reflexivity. Qed.

Lemma get_node_from_address_unscoped addr m :
  addr ≠ 0 -> is_scoped_object addr m = false ->
  get_node_from_address addr m =
  (Throw (runtime_error "Node object is not scoped"),
   with_err_log (err_log m ++ ["Node object is not scoped"]) m).
Proof.
  intros Hnz Hs. unfold get_node_from_address.
  rewrite bool_decide_false by assumption.
  unfold bind, gets. now rewrite Hs.
Qed.

Lemma get_object_from_address_ok addr m :
  addr ≠ 0 -> is_scoped_object addr m = true ->
  get_object_from_address addr m = (Ok addr, m).
Proof.
  intros Hnz Hs. unfold get_object_from_address.
  rewrite bool_decide_false by assumption.
  unfold bind, gets. now rewrite Hs.
Qed.

(** Whatever the address, a failed lookup of the object leaves the engine
    and the scopes untouched. *)
Lemma get_object_from_address_fails addr m :
  addr = 0 \/ is_scoped_object addr m = false ->
  exists e m',
    get_object_from_address addr m = (Throw e, m') /\
    host_log m' = host_log m /\ m_states m' = m_states m /\
    m_memory m' = m_memory m /\ m_counter m' = m_counter m.
Proof.
  intros H. unfold get_object_from_address.
  destruct (bool_decide (addr = 0)) eqn:E.
  - do 2 eexists. split; [reflexivity|]. now cbn.
  - destruct H as [H|H]; [apply bool_decide_eq_false in E; contradiction|].
    unfold bind, gets. rewrite H. do 2 eexists. split; [reflexivity|]. now cbn.
Qed.

Lemma get_node_from_address_fails addr m :
  addr = 0 \/ is_scoped_object addr m = false ->
  exists e m',
    get_node_from_address addr m = (Throw e, m') /\
    (e = runtime_error "Node object is Null" /\ addr = 0 \/
     e = runtime_error "Node object is not scoped" /\ addr ≠ 0) /\
    host_log m' = host_log m /\ m_states m' = m_states m /\
    m_memory m' = m_memory m /\ m_counter m' = m_counter m.
Proof.
  intros H. destruct (decide (addr = 0)) as [->|Hnz].
  - rewrite get_node_from_address_null. do 2 eexists.
    split; [reflexivity|]. split; [now left|]. now cbn.
  - destruct H as [H|H]; [contradiction|].
    rewrite get_node_from_address_unscoped by assumption. do 2 eexists.
    split; [reflexivity|]. split; [now right|]. now cbn.
Qed.

(** Admission through [add_scoped_object]. *)
Lemma state_set_state st m :
  state_valid m -> state (set_state st m) = st.
Proof.
  intros Hv. unfold state, set_state. cbn.
  now rewrite list_lookup_insert_eq.
Qed.

Lemma add_scoped_object_admits addr m :
  state_valid m -> is_scoped_object addr (add_scoped_object addr m).2 = true.
Proof.
  intros Hv. unfold add_scoped_object, modify, is_scoped_object. cbn.
  rewrite state_set_state by assumption. cbn.
  apply bool_decide_eq_true. set_solver.
Qed.

Lemma add_scoped_object_keeps addr other m :
  is_scoped_object addr m = true ->
  is_scoped_object addr (add_scoped_object other m).2 = true.
Proof.
  unfold add_scoped_object, modify, is_scoped_object, state, set_state. cbn.
  intros H. apply bool_decide_eq_true in H. apply bool_decide_eq_true.
  destruct (m_states m !! m_current_state m) as [st|] eqn:E; cbn in *.
  - rewrite list_lookup_insert_eq by (eapply lookup_lt_Some; eassumption).
    cbn. set_solver.
  - set_solver.
Qed.

Lemma rem_scoped_object_revokes addr m :
  is_scoped_object addr (rem_scoped_object addr m).2 = false.
Proof.
  unfold rem_scoped_object, modify, is_scoped_object, state, set_state. cbn.
  apply bool_decide_eq_false.
  destruct (m_states m !! m_current_state m) as [st|] eqn:E; cbn.
  - rewrite list_lookup_insert_eq by (eapply lookup_lt_Some; eassumption).
    cbn. rewrite list_elem_of_filter. tauto.
  - rewrite list_insert_ge by (now apply lookup_ge_None).
    rewrite E. cbn. set_solver.
Qed.

(** A scope that was just reset admits nothing. *)
Lemma reset_admits_nothing st addr :
  addr ∉ scoped_objects (reset st).
Proof. cbn. set_solver. Qed.

(** ** Node lookup without a tree base *)

(** C7. When the guest asks for a node by path with base address 0 and the
    sandbox has no tree base, [api_get_node] returns normally with result 0
    in the result register: it raises nothing, logs the error, calls
    nothing in the engine and admits nothing. *)
Theorem get_node_without_tree_base name m :
  m_tree_base m = 0 ->
  exists m',
    api_get_node 0 name m = (Ok tt, m') /\
    m_a0 m' = 0 /\
    host_log m' = host_log m /\
    m_states m' = m_states m /\
    err_log m' = err_log m ++ ["Sandbox has no parent Node"].
Proof.
  intros Hbase. unfold api_get_node. run_m.
  eexists. split; [reflexivity|]. now cbn.
Qed.

Lemma get_node_without_tree_base_witness :
  m_tree_base (boot sample_memory) = 0 /\
  exists m',
    api_get_node 0 "." (boot sample_memory) = (Ok tt, m') /\
    m_a0 m' = 0 /\
    host_log m' = host_log (boot sample_memory) /\
    m_states m' = m_states (boot sample_memory) /\
    err_log m' = err_log (boot sample_memory) ++ ["Sandbox has no parent Node"].
Proof.
  split; [reflexivity|].
  apply (get_node_without_tree_base "." (boot sample_memory)). reflexivity.
Defined.

(** ** The guard of queue_free *)

Lemma api_node_enter op addr gvar m :
  addr ≠ 0 -> is_scoped_object addr m = true ->
  api_node op addr gvar m =
  api_node_switch op addr gvar (with_counter (m_counter m + 250000) m).
Proof.
  intros Hnz Hs. unfold api_node.
  erewrite bind_ok by reflexivity.
  erewrite bind_ok; [reflexivity|].
  now apply get_node_from_address_ok.
Qed.

Lemma api_node_rejects op addr gvar m :
  addr = 0 \/ is_scoped_object addr m = false ->
  exists e m',
    api_node op addr gvar m = (Throw e, m') /\
    (e = runtime_error "Node object is Null" /\ addr = 0 \/
     e = runtime_error "Node object is not scoped" /\ addr ≠ 0) /\
    host_log m' = host_log m /\ m_states m' = m_states m /\
    m_memory m' = m_memory m.
Proof.
  intros H. unfold api_node.
  erewrite bind_ok by reflexivity.
  destruct (get_node_from_address_fails addr
              (with_counter (m_counter m + 250000) m))
    as (e & m' & Hr & He & Hl & Hst & Hm & _); [exact H|].
  exists e, m'. erewrite bind_throw by exact Hr. auto.
Qed.

(** C8. Queue-for-destruction applied to the sandbox's own node always
    fails and queues nothing; once the node passed the scope check it is
    the guard that rejects it. Applied to any other admitted node, the
    node's [queue_free] is called. *)
Theorem queue_free_guard m gvar :
  (exists e m',
     api_node Node_QUEUE_FREE (this m) gvar m = (Throw e, m') /\
     host_log m' = host_log m /\
     (this m ≠ 0 -> is_scoped_object (this m) m = true ->
      e = runtime_error "Cannot queue free the sandbox")) /\
  (forall addr,
     addr ≠ 0 -> addr ≠ this m -> is_scoped_object addr m = true ->
     exists m',
       api_node Node_QUEUE_FREE addr gvar m = (Ok tt, m') /\
       host_log m' = host_log m ++ [mkHostOp addr "queue_free" []]).
Proof.
  split.
  - destruct (decide (this m = 0)) as [Hz|Hnz];
      [|destruct (is_scoped_object (this m) m) eqn:Hs].
    + destruct (api_node_rejects Node_QUEUE_FREE (this m) gvar m)
        as (e & m' & Hr & _ & Hl & _); [now left|].
      exists e, m'. repeat split; [exact Hr|exact Hl|]. intros; contradiction.
    + rewrite api_node_enter by assumption.
      unfold api_node_switch, bind, gets. cbn.
      rewrite bool_decide_true by reflexivity. cbn.
      do 2 eexists. repeat split; reflexivity.
    + destruct (api_node_rejects Node_QUEUE_FREE (this m) gvar m)
        as (e & m' & Hr & _ & Hl & _); [now right|].
      exists e, m'. repeat split; [exact Hr|exact Hl|]. intros; congruence.
  - intros addr Hnz Hself Hs.
    rewrite api_node_enter by assumption.
    unfold api_node_switch, bind, gets. cbn.
    rewrite bool_decide_false by assumption. cbn.
    eexists. split; reflexivity.
Qed.

Lemma queue_free_guard_witness :
  let m := (add_scoped_object 4096 (add_scoped_object 7 (boot sample_memory)).2).2 in
  api_node Node_QUEUE_FREE 4096 0 m
  = (Throw (runtime_error "Cannot queue free the sandbox"),
     with_err_log ["Cannot queue free the sandbox"] (with_counter 250000 m)) /\
  exists m',
    api_node Node_QUEUE_FREE 7 0 m = (Ok tt, m') /\
    host_log m' = host_log m ++ [mkHostOp 7 "queue_free" []].
Proof.
  intros m. split; [reflexivity|].
  apply (proj2 (queue_free_guard m 0) 7); [discriminate|discriminate|reflexivity].
Defined.

(** ** Unknown system calls *)

Lemma foldl_insert_lookup_None (number : Ecall -> Z) (run : Ecall -> M unit) n
    (l : list Ecall) (t : gmap Z (M unit)) :
  foldl (fun t e => <[number e := run e]> t) t l !! n = None <->
  t !! n = None /\ (forall e, e ∈ l -> number e ≠ n).
Proof.
  revert t. induction l as [|e l IH]; intros t; cbn.
  - split; [intros H; split; [exact H|]|intros [H _]; exact H].
    intros e He. inversion He.
  - rewrite IH. split.
    + intros [Ht Hl].
      destruct (decide (number e = n)) as [Heq|Hne].
      * rewrite Heq, lookup_insert_eq in Ht. discriminate.
      * rewrite lookup_insert_ne in Ht by exact Hne. split; [exact Ht|].
        intros e' He'. apply elem_of_cons in He' as [->|He']; auto.
    + intros [Ht Hl]. split.
      * rewrite lookup_insert_ne; [exact Ht|]. apply Hl. left.
      * intros e' He'. apply Hl. now right.
Qed.

Lemma installed_all e : e ∈ installed.
Proof. destruct e; unfold installed; set_solver. Qed.

(** A number is absent from the dispatch table exactly when neither a
    Linux or thread handler nor a Godot entry carries it. *)
Lemma syscall_handlers_absent number run linux_handlers n :
  syscall_handlers number run linux_handlers !! n = None <->
  linux_handlers !! n = None /\ (forall e, number e ≠ n).
Proof.
  unfold syscall_handlers. rewrite foldl_insert_lookup_None. split.
  - intros [Hl He]. split; [exact Hl|]. intros e. apply He, installed_all.
  - intros [Hl He]. split; [exact Hl|]. intros e _. apply He.
Qed.

(** C9. A system-call number that is not present in the dispatch table
    (the Linux and thread handlers and the Godot entries) is routed to the
    unhandled-syscall callback: the call is reported on the sandbox's
    output, 100000 is charged, and the dispatch returns normally; the
    engine and the scopes are not touched. *)
Theorem unhandled_syscall_fallback (number : Ecall -> Z) (run : Ecall -> M unit)
    (linux_handlers : gmap Z (M unit)) n m :
  syscall_handlers number run linux_handlers !! n = None ->
  exists m',
    system_call number run linux_handlers n m = (Ok tt, m') /\
    on_unhandled_syscall n m = (Ok tt, m') /\
    m_counter m' = m_counter m + 100000 /\
    out_log m' = out_log m ++ ["Unhandled system call: " +:+ pretty n] /\
    host_log m' = host_log m /\
    m_states m' = m_states m.
Proof.
  intros H. unfold system_call. rewrite H.
  eexists. split; [reflexivity|]. split; [reflexivity|]. now cbn.
Qed.

Lemma sample_number_range e : 500 <= sample_number e < 533.
Proof. destruct e; vm_compute; (split; [discriminate|reflexivity]). Qed.

(** A table with the handlers of two Linux system calls (write is 64, exit
    is 93): 77 is in neither part of the table, 93 is handled. *)
Lemma unhandled_syscall_fallback_witness :
  let linux : gmap Z (M unit) := {[ 64 := ret tt; 93 := ret tt ]} in
  (exists m',
     system_call sample_number (fun _ => ret tt) linux 77 (boot sample_memory)
       = (Ok tt, m') /\
     m_counter m' = 100000 /\
     out_log m' = ["Unhandled system call: 77"]) /\
  system_call sample_number (fun _ => ret tt) linux 93 (boot sample_memory)
    = (Ok tt, boot sample_memory).
Proof.
  intros linux. split; [|reflexivity].
  destruct (unhandled_syscall_fallback sample_number (fun _ => ret tt) linux 77
              (boot sample_memory)) as (m' & Hr & _ & Hc & Ho & _).
  - apply syscall_handlers_absent. split; [reflexivity|].
    intros e. pose proof (sample_number_range e). lia.
  - exists m'. split; [exact Hr|]. split; [exact Hc|exact Ho].
Defined.

(** ** The call-state stack *)

(** C4. At depth [MAX_LEVEL], [enter] fails with StackOverflow and leaves
    every scope and the current-scope pointer as they were; below
    [MAX_LEVEL], it succeeds, the depth grows by one, and the scope of the
    new level is the current one and is empty, the other scopes being
    untouched. *)
Theorem enter_bounded m :
  (m_level m = MAX_LEVEL ->
   exists m',
     enter m = (Throw StackOverflow, m') /\
     m_states m' = m_states m /\
     m_current_state m' = m_current_state m) /\
  ((m_level m < MAX_LEVEL)%nat -> length (m_states m) = S MAX_LEVEL ->
   exists m',
     enter m = (Ok tt, m') /\
     m_level m' = S (m_level m) /\
     m_current_state m' = S (m_level m) /\
     state m' = empty_state /\
     forall i, i ≠ S (m_level m) -> m_states m' !! i = m_states m !! i).
Proof.
  split.
  - intros Hl. unfold enter. rewrite Hl.
    destruct (decide (MAX_LEVEL < S MAX_LEVEL)%nat) as [_|Hn]; [|lia].
    eexists. split; [reflexivity|]. now cbn.
  - intros Hl Hlen. unfold enter.
    destruct (decide (MAX_LEVEL < S (m_level m))%nat) as [Hn|_]; [lia|].
    eexists. split; [reflexivity|]. cbn. repeat split.
    + unfold state. cbn.
      destruct (lookup_lt_is_Some_2 (m_states m) (S (m_level m))) as [st Hst];
        [lia|].
      rewrite list_lookup_alter_eq, Hst. reflexivity.
    + intros i Hi. now rewrite list_lookup_alter_ne.
Qed.

(** Leaving the level that was just entered restores the depth and the
    current scope of the caller, and clears the scope that was left. *)
Lemma leave_after_enter m m1 :
  m_current_state m = m_level m ->
  enter m = (Ok tt, m1) ->
  exists m2,
    leave m1 = (Ok tt, m2) /\
    m_level m2 = m_level m /\ m_current_state m2 = m_current_state m /\
    forall st, m_states m2 !! S (m_level m) = Some st -> st = empty_state.
Proof.
  intros Hcur He. unfold enter in He.
  destruct (decide (MAX_LEVEL < S (m_level m))%nat); [discriminate|].
  inversion He; subst m1; clear He.
  eexists. split; [reflexivity|]. cbn. repeat split; [congruence|].
  intros st. rewrite list_lookup_alter_eq.
  destruct (alter reset (S (m_level m)) (m_states m) !! S (m_level m));
    cbn; intros H; now inversion H.
Qed.

Lemma enter_bounded_witness :
  (enter (with_level MAX_LEVEL MAX_LEVEL (boot sample_memory))).1 = Throw StackOverflow /\
  exists m',
    enter (boot sample_memory) = (Ok tt, m') /\
    m_level m' = 1%nat /\ state m' = empty_state.
Proof.
  split.
  - destruct (proj1 (enter_bounded (with_level MAX_LEVEL MAX_LEVEL (boot sample_memory))))
      as (m' & Hr & _); [reflexivity|]. now rewrite Hr.
  - destruct (proj2 (enter_bounded (boot sample_memory))) as (m' & Hr & Hl & _ & Hs & _);
      [vm_compute; lia|reflexivity|].
    exists m'. auto.
Defined.

(** ** Raw addresses and the scope check *)

#[local] Arguments is_scoped_object : simpl never.

Lemma api_obj_enter op addr gvar m :
  is_scoped_object addr m = true ->
  api_obj op addr gvar m =
  api_obj_switch op addr gvar (with_counter (m_counter m + 250000) m).
Proof.
  intros Hs. unfold api_obj.
  erewrite bind_ok by reflexivity. erewrite bind_ok by reflexivity.
  change (is_scoped_object addr (with_counter (m_counter m + 250000) m))
    with (is_scoped_object addr m).
  now rewrite Hs.
Qed.

Lemma api_obj_rejects op addr gvar m :
  is_scoped_object addr m = false ->
  api_obj op addr gvar m =
  (Throw (runtime_error "Object is not scoped"),
   with_err_log (err_log m ++ ["Object is not scoped"])
     (with_counter (m_counter m + 250000) m)).
Proof.
  intros Hs. unfold api_obj.
  erewrite bind_ok by reflexivity. erewrite bind_ok by reflexivity.
  change (is_scoped_object addr (with_counter (m_counter m + 250000) m))
    with (is_scoped_object addr m).
  now rewrite Hs.
Qed.

Lemma api_obj_callp_enter addr method deferred vret_ptr args_addr args_size m :
  is_scoped_object addr m = true ->
  api_obj_callp addr method deferred vret_ptr args_addr args_size m =
  after_scope_check
    (Call_obj_callp addr method deferred vret_ptr args_addr args_size)
    (with_counter (m_counter m + 250000) m).
Proof.
  intros Hs. unfold api_obj_callp.
  erewrite bind_ok by reflexivity. erewrite bind_ok by reflexivity.
  change (is_scoped_object addr (with_counter (m_counter m + 250000) m))
    with (is_scoped_object addr m).
  now rewrite Hs.
Qed.

Lemma api_obj_callp_rejects addr method deferred vret_ptr args_addr args_size m :
  is_scoped_object addr m = false ->
  api_obj_callp addr method deferred vret_ptr args_addr args_size m =
  (Throw (runtime_error "Object is not scoped"),
   with_err_log (err_log m ++ ["Object is not scoped"])
     (with_counter (m_counter m + 250000) m)).
Proof.
  intros Hs. unfold api_obj_callp.
  erewrite bind_ok by reflexivity. erewrite bind_ok by reflexivity.
  change (is_scoped_object addr (with_counter (m_counter m + 250000) m))
    with (is_scoped_object addr m).
  now rewrite Hs.
Qed.

Lemma api_node2d_enter op addr gvar m :
  addr ≠ 0 -> is_scoped_object addr m = true ->
  api_node2d op addr gvar m =
  api_node2d_switch op addr gvar (with_counter (m_counter m + 100000) m).
Proof.
  intros Hnz Hs. unfold api_node2d.
  erewrite bind_ok by reflexivity.
  erewrite bind_ok; [reflexivity|].
  now apply get_node_from_address_ok.
Qed.

Lemma api_node3d_enter op addr gvar m :
  addr ≠ 0 -> is_scoped_object addr m = true ->
  api_node3d op addr gvar m =
  api_node3d_switch op addr gvar (with_counter (m_counter m + 100000) m).
Proof.
  intros Hnz Hs. unfold api_node3d.
  erewrite bind_ok by reflexivity.
  erewrite bind_ok; [reflexivity|].
  now apply get_node_from_address_ok.
Qed.

Lemma api_node2d_rejects op addr gvar m :
  addr = 0 \/ is_scoped_object addr m = false ->
  exists e m',
    api_node2d op addr gvar m = (Throw e, m') /\
    (e = runtime_error "Node object is Null" /\ addr = 0 \/
     e = runtime_error "Node object is not scoped" /\ addr ≠ 0) /\
    host_log m' = host_log m /\ m_states m' = m_states m /\
    m_memory m' = m_memory m.
Proof.
  intros H. unfold api_node2d.
  erewrite bind_ok by reflexivity.
  destruct (get_node_from_address_fails addr
              (with_counter (m_counter m + 100000) m))
    as (e & m' & Hr & He & Hl & Hst & Hm & _); [exact H|].
  exists e, m'. erewrite bind_throw by exact Hr. auto.
Qed.

Lemma api_node3d_rejects op addr gvar m :
  addr = 0 \/ is_scoped_object addr m = false ->
  exists e m',
    api_node3d op addr gvar m = (Throw e, m') /\
    (e = runtime_error "Node object is Null" /\ addr = 0 \/
     e = runtime_error "Node object is not scoped" /\ addr ≠ 0) /\
    host_log m' = host_log m /\ m_states m' = m_states m /\
    m_memory m' = m_memory m.
Proof.
  intros H. unfold api_node3d.
  erewrite bind_ok by reflexivity.
  destruct (get_node_from_address_fails addr
              (with_counter (m_counter m + 100000) m))
    as (e & m' & Hr & He & Hl & Hst & Hm & _); [exact H|].
  exists e, m'. erewrite bind_throw by exact Hr. auto.
Qed.

(** A handler that is handed an address outside the current scope throws
    before it calls the engine, writes guest memory or changes a scope. *)
Lemma raw_address_rejected c addr m :
  raw_address c = Some addr -> is_scoped_object addr m = false ->
  exists e m',
    handler c m = (Throw e, m') /\
    (ObjectNotScoped e \/ addr = 0 /\ e = runtime_error "Node object is Null") /\
    host_log m' = host_log m /\ m_states m' = m_states m /\
    m_memory m' = m_memory m.
Proof.
  intros Hc Hs. destruct c; try discriminate; cbn in Hc;
    injection Hc as ->; cbn [handler].
  - rewrite api_obj_rejects by assumption. do 2 eexists.
    split; [reflexivity|]. split; [left; now left|]. now cbn.
  - rewrite api_obj_callp_rejects by assumption. do 2 eexists.
    split; [reflexivity|]. split; [left; now left|]. now cbn.
  - destruct (api_node_rejects op addr gvar m)
      as (e & m' & Hr & [[-> ->]|[-> Hnz]] & Hrest); [now right| |];
      eexists; exists m'; (split; [exact Hr|]); (split; [|exact Hrest]).
    + now right.
    + left; now right.
  - destruct (api_node2d_rejects op addr gvar m)
      as (e & m' & Hr & [[-> ->]|[-> Hnz]] & Hrest); [now right| |];
      eexists; exists m'; (split; [exact Hr|]); (split; [|exact Hrest]).
    + now right.
    + left; now right.
  - destruct (api_node3d_rejects op addr gvar m)
      as (e & m' & Hr & [[-> ->]|[-> Hnz]] & Hrest); [now right| |];
      eexists; exists m'; (split; [exact Hr|]); (split; [|exact Hrest]).
    + now right.
    + left; now right.
Qed.

(** C1, as amended. For the object, object-call, node, Node2D and Node3D
    handlers: an address that is not in the current scope makes the call
    throw before the engine is called, guest memory is written or a scope
    changes; the exception is the not-scoped error, except that the node
    handlers answer the null address with a null-object error. A non-null
    address that is in the scope passes the check and the handler goes on
    to its operation; [add_scoped_object] puts an address in the scope. *)
Theorem scope_check_guards_address c addr m :
  raw_address c = Some addr ->
  (is_scoped_object addr m = false ->
   exists e m',
     handler c m = (Throw e, m') /\
     (ObjectNotScoped e \/ addr = 0 /\ e = runtime_error "Node object is Null") /\
     host_log m' = host_log m /\ m_states m' = m_states m /\
     m_memory m' = m_memory m) /\
  (addr ≠ 0 -> is_scoped_object addr m = true ->
   handler c m = after_scope_check c (with_counter (m_counter m + charge c) m)) /\
  (state_valid m -> is_scoped_object addr (add_scoped_object addr m).2 = true).
Proof.
  intros Hc. split; [|split].
  - now apply raw_address_rejected.
  - intros Hnz Hs. destruct c; try discriminate; cbn in Hc;
      injection Hc as ->; cbn [handler after_scope_check charge penalty default].
    + now apply api_obj_enter.
    + now apply api_obj_callp_enter.
    + now apply api_node_enter.
    + now apply api_node2d_enter.
    + now apply api_node3d_enter.
  - apply add_scoped_object_admits.
Qed.

Lemma scope_check_guards_address_witness :
  let m := boot sample_memory in
  let c := Call_node Node_QUEUE_FREE 7 0 in
  (exists e m', handler c m = (Throw e, m') /\
     (ObjectNotScoped e \/ 7 = 0 /\ e = runtime_error "Node object is Null") /\
     host_log m' = host_log m /\ m_states m' = m_states m /\
     m_memory m' = m_memory m) /\
  handler c (add_scoped_object 7 m).2 =
  after_scope_check c
    (with_counter (m_counter (add_scoped_object 7 m).2 + charge c)
       (add_scoped_object 7 m).2).
Proof.
  intros m c. split.
  - apply (proj1 (scope_check_guards_address c 7 m eq_refl)). reflexivity.
  - apply (proj1 (proj2 (scope_check_guards_address c 7 (add_scoped_object 7 m).2 eq_refl)));
      [discriminate|reflexivity].
Defined.

(** C1, the claim as stated fails at the null address. Not in any
    scope, it makes the node handler throw the null-object error, which is
    not the not-scoped error. And once it is in the scope (the handler
    that creates nodes admits the null result of a failed instantiation),
    the check of the node handler still does not pass. *)
Lemma null_node_address_counterexample :
  raw_address (Call_node Node_GET_NAME 0 200) = Some 0 /\
  (is_scoped_object 0 (boot sample_memory) = false /\
   (handler (Call_node Node_GET_NAME 0 200) (boot sample_memory)).1
   = Throw (runtime_error "Node object is Null") /\
   ~ ObjectNotScoped (runtime_error "Node object is Null")) /\
  (is_scoped_object 0 after_failed_instantiate = true /\
   (handler (Call_node Node_GET_NAME 0 200) after_failed_instantiate).1
   = Throw (runtime_error "Node object is Null")).
Proof.
  repeat split; try reflexivity.
  intros [H|H]; discriminate.
Qed.

(** ** Capability violations *)

Lemma handle_violation_not_array h m :
  handle_violation h (is_kind ARRAY) m = true ->
  is_array (get_scoped_variant h m) = false.
Proof.
  unfold handle_violation, is_array, is_kind.
  destruct (get_scoped_variant h m); [|reflexivity].
  now destruct (bool_decide (get_type v = ARRAY)).
Qed.

Lemma handle_violation_not_dictionary h m :
  handle_violation h (is_kind DICTIONARY) m = true ->
  is_dictionary (get_scoped_variant h m) = false.
Proof.
  unfold handle_violation, is_dictionary, is_kind.
  destruct (get_scoped_variant h m); [|reflexivity].
  now destruct (bool_decide (get_type v = DICTIONARY)).
Qed.

Lemma handle_violation_not_string h m :
  handle_violation h (is_kind STRING) m = true ->
  is_string (get_scoped_variant h m) = false.
Proof.
  unfold handle_violation, is_string, is_kind.
  destruct (get_scoped_variant h m); [|reflexivity].
  now destruct (bool_decide (get_type v = STRING)).
Qed.

Ltac rejected :=
  do 2 eexists; split; [reflexivity|]; repeat split.

(** A handler that is handed a handle out of range, or a handle to a value
    of a kind it does not accept, throws and changes nothing. *)
Lemma handle_violation_rejected c h accepts m :
  names_handle c = Some (h, accepts) -> handle_violation h accepts m = true ->
  exists e m', handler c m = (Throw e, m') /\ untouched m m'.
Proof.
  intros Hc Hv. destruct c; try discriminate; cbn in Hc;
    injection Hc as -> <-; cbn [handler].
  - (* vfetch *)
    unfold api_vfetch. run_m.
    change (get_scoped_variant h (with_counter (m_counter m + 10000) m))
      with (get_scoped_variant h m).
    unfold handle_violation in Hv.
    destruct (get_scoped_variant h m) as [v|]; [|rejected].
    destruct (get_type v); try discriminate; rejected.
  - (* vstore *)
    unfold api_vstore. run_m.
    change (get_scoped_variant h (with_counter (m_counter m + 10000) m))
      with (get_scoped_variant h m).
    unfold handle_violation in Hv.
    destruct (get_scoped_variant h m) as [v|]; [|rejected].
    destruct (get_type v); try discriminate; rejected.
  - (* array_ops *)
    apply handle_violation_not_array in Hv.
    unfold api_array_ops. run_m. rewrite Hv. rejected.
  - (* array_at *)
    apply handle_violation_not_array in Hv.
    unfold api_array_at. run_m. rewrite Hv. rejected.
  - (* array_size *)
    apply handle_violation_not_array in Hv.
    unfold api_array_size. run_m. rewrite Hv. rejected.
  - (* dict_ops *)
    apply handle_violation_not_dictionary in Hv.
    unfold api_dict_ops. run_m. rewrite Hv. rejected.
  - (* string_ops *)
    apply handle_violation_not_string in Hv.
    unfold api_string_ops. run_m. rewrite Hv. rejected.
  - (* string_at *)
    apply handle_violation_not_string in Hv.
    unfold api_string_at. run_m. rewrite Hv. rejected.
  - (* string_size *)
    apply handle_violation_not_string in Hv.
    unfold api_string_size. run_m. rewrite Hv. rejected.
Qed.

Lemma api_get_node_unscoped addr name m :
  addr ≠ 0 -> is_scoped_object addr m = false ->
  api_get_node addr name m =
  (Ok tt,
   with_a0 0
     (with_err_log (err_log m ++ ["Node object is not scoped"])
        (with_counter (m_counter m + 150000) m))).
Proof.
  intros Hnz Hs. unfold api_get_node. run_m.
  change (is_scoped_object addr (with_counter (m_counter m + 150000) m))
    with (is_scoped_object addr m).
  rewrite Hs. reflexivity.
Qed.

Lemma api_vclone_out_of_range vp vret g rest m :
  m_memory m !! vp = Some (CVariants (g :: rest)) ->
  get_scoped_variant (u32 (v_i g)) m = None ->
  api_vclone vp vret m =
  (Throw (runtime_error "vclone: Variant is not scoped"),
   with_err_log (err_log m ++ ["vclone: Variant is not scoped"])
     (with_counter (m_counter m + 10000) m)).
Proof.
  intros Hm Hh. unfold api_vclone.
  erewrite bind_ok by reflexivity.
  erewrite bind_ok by (eapply load_head; exact Hm).
  erewrite bind_ok by reflexivity.
  change (get_scoped_variant (u32 (v_i g)) (with_counter (m_counter m + 10000) m))
    with (get_scoped_variant (u32 (v_i g)) m).
  rewrite Hh. reflexivity.
Qed.

(** C2, as amended. A capability violation is fatal to the call in these
    handlers: an address outside the current scope given to the object,
    object-call, node, Node2D or Node3D handler; a handle that is out of
    range or names a value of the wrong kind given to the array,
    dictionary, string, vfetch or vstore handler; a handle out of range
    given to the vclone handler. The call throws and the engine, the scopes
    and guest memory are as before. The lookup of a node by path is
    different: given a non-null base address outside the scope it does not
    fail the call, it logs the error and returns normally with result 0,
    without calling the engine and without admitting anything. *)
Theorem capability_violation_outcomes m :
  (forall c addr,
     raw_address c = Some addr -> is_scoped_object addr m = false ->
     exists e m',
       handler c m = (Throw e, m') /\
       host_log m' = host_log m /\ m_states m' = m_states m /\
       m_memory m' = m_memory m) /\
  (forall c h accepts,
     names_handle c = Some (h, accepts) -> handle_violation h accepts m = true ->
     exists e m',
       handler c m = (Throw e, m') /\
       host_log m' = host_log m /\ m_states m' = m_states m /\
       m_memory m' = m_memory m) /\
  (forall vp vret g rest,
     m_memory m !! vp = Some (CVariants (g :: rest)) ->
     get_scoped_variant (u32 (v_i g)) m = None ->
     exists e m',
       api_vclone vp vret m = (Throw e, m') /\
       host_log m' = host_log m /\ m_states m' = m_states m /\
       m_memory m' = m_memory m) /\
  (forall addr name,
     addr ≠ 0 -> is_scoped_object addr m = false ->
     exists m',
       api_get_node addr name m = (Ok tt, m') /\
       m_a0 m' = 0 /\
       host_log m' = host_log m /\ m_states m' = m_states m /\
       err_log m' = err_log m ++ ["Node object is not scoped"]).
Proof.
  split; [|split; [|split]].
  - intros c addr Hc Hs.
    destruct (raw_address_rejected c addr m Hc Hs) as (e & m' & Hr & _ & Hrest).
    now exists e, m'.
  - intros c h accepts Hc Hv.
    destruct (handle_violation_rejected c h accepts m Hc Hv)
      as (e & m' & Hr & Hl & Hst & Hm & _).
    now exists e, m'.
  - intros vp vret g rest Hm Hh.
    rewrite (api_vclone_out_of_range vp vret g rest m Hm Hh).
    do 2 eexists. split; [reflexivity|]. now cbn.
  - intros addr name Hnz Hs. rewrite api_get_node_unscoped by assumption.
    eexists. split; [reflexivity|]. now cbn.
Qed.

Lemma capability_violation_outcomes_witness :
  let m := boot sample_memory in
  (exists e m', handler (Call_obj Object_GET 7 100) m = (Throw e, m') /\
     host_log m' = host_log m /\ m_states m' = m_states m /\
     m_memory m' = m_memory m) /\
  (exists e m', handler (Call_array_size 0) m = (Throw e, m') /\
     host_log m' = host_log m /\ m_states m' = m_states m /\
     m_memory m' = m_memory m) /\
  (exists e m', api_vclone 100 200 m = (Throw e, m') /\
     host_log m' = host_log m /\ m_states m' = m_states m /\
     m_memory m' = m_memory m) /\
  (exists m', api_get_node 5 "child" m = (Ok tt, m') /\
     m_a0 m' = 0 /\
     host_log m' = host_log m /\ m_states m' = m_states m /\
     err_log m' = err_log m ++ ["Node object is not scoped"]).
Proof.
  intros m.
  destruct (capability_violation_outcomes m) as (Ha & Hh & Hc & Hg).
  split; [|split; [|split]].
  - apply (Ha (Call_obj Object_GET 7 100) 7); reflexivity.
  - apply (Hh (Call_array_size 0) 0%nat (is_kind ARRAY)); reflexivity.
  - apply (Hc 100 200 (mkGuestVariant INT 55 []) []); reflexivity.
  - apply (Hg 5 "child"); [discriminate|reflexivity].
Defined.

(** C2, the claim as stated fails: given the base address 5, which is in
    no scope, the lookup of a node by path does not fail the call; it
    returns normally with the default result 0. *)
Lemma get_node_unscoped_base_counterexample :
  is_scoped_object 5 (boot sample_memory) = false /\
  (api_get_node 5 "child" (boot sample_memory)).1 = Ok tt /\
  m_a0 (api_get_node 5 "child" (boot sample_memory)).2 = 0 /\
  ~ (exists e, (api_get_node 5 "child" (boot sample_memory)).1 = Throw e).
Proof.
  repeat split; try reflexivity.
  intros [e H]. discriminate H.
Qed.

(** ** Charging *)

Lemma keeps_ret {A} (a : A) : keeps_counter (ret a).
Proof. intros m. reflexivity. Qed.

Lemma keeps_throw {A} e : keeps_counter (@throw A e).
Proof. intros m. reflexivity. Qed.

Lemma keeps_gets {A} (f : Sandbox -> A) : keeps_counter (gets f).
Proof. intros m. reflexivity. Qed.

Lemma keeps_bind {A B} (c : M A) (k : A -> M B) :
  keeps_counter c -> (forall a, keeps_counter (k a)) -> keeps_counter (bind c k).
Proof.
  intros Hc Hk m. unfold bind. specialize (Hc m).
  destruct (c m) as [[a|e] m']; cbn in *.
  - now rewrite Hk.
  - exact Hc.
Qed.

Lemma keeps_modify (f : Sandbox -> Sandbox) :
  (forall m, m_counter (f m) = m_counter m) -> keeps_counter (modify f).
Proof. intros H m. apply H. Qed.

Lemma keeps_for_each {A} (l : list A) (body : A -> M unit) :
  (forall x, keeps_counter (body x)) -> keeps_counter (for_each l body).
Proof.
  intros H. induction l as [|x l IH]; cbn.
  - apply keeps_ret.
  - apply keeps_bind; [apply H|intros _; exact IH].
Qed.

Lemma keeps_map_m {A B} (f : A -> M B) (l : list A) :
  (forall x, keeps_counter (f x)) -> keeps_counter (map_m f l).
Proof.
  intros H. induction l as [|x l IH]; cbn.
  - apply keeps_ret.
  - apply keeps_bind; [apply H|intros y].
    apply keeps_bind; [exact IH|intros ys; apply keeps_ret].
Qed.

Create HintDb keeps.

Ltac keeps_step :=
  match goal with
  | |- keeps_counter (bind _ _) => apply keeps_bind; [|intros ?]
  | |- keeps_counter (ret _) => apply keeps_ret
  | |- keeps_counter (throw _) => apply keeps_throw
  | |- keeps_counter (gets _) => apply keeps_gets
  | |- keeps_counter (for_each _ _) => apply keeps_for_each; intros ?
  | |- keeps_counter (map_m _ _) => apply keeps_map_m; intros ?
  | |- keeps_counter (modify _) => apply keeps_modify; intros ?; reflexivity
  | |- keeps_counter (let _ := _ in _) => cbv zeta
  | |- keeps_counter (match ?x with _ => _ end) => destruct x
  | |- _ => solve [auto with keeps]
  end.

Ltac keeps := repeat keeps_step.

Lemma keeps_set_result r : keeps_counter (set_result r).
Proof. unfold set_result. keeps. Qed.

Lemma keeps_ERR_PRINT s : keeps_counter (ERR_PRINT s).
Proof. unfold ERR_PRINT. keeps. Qed.

Lemma keeps_print s : keeps_counter (print s).
Proof. unfold print. keeps. Qed.

Lemma keeps_add_scoped_object a : keeps_counter (add_scoped_object a).
Proof. unfold add_scoped_object. keeps. Qed.

Lemma keeps_create_scoped_variant v : keeps_counter (create_scoped_variant v).
Proof. intros m. reflexivity. Qed.

Lemma keeps_add_scoped_variant v : keeps_counter (add_scoped_variant v).
Proof. intros m. reflexivity. Qed.

Lemma keeps_memarray addr n : keeps_counter (memarray addr n).
Proof.
  intros m. unfold memarray.
  destruct (m_memory m !! addr) as [[l| | | |]|]; try reflexivity.
  now destruct (decide (n ≤ length l)%nat).
Qed.

Lemma keeps_memarray_cell addr : keeps_counter (memarray_cell addr).
Proof. intros m. unfold memarray_cell. now destruct (m_memory m !! addr). Qed.

Lemma keeps_store_cell addr c : keeps_counter (store_cell addr c).
Proof. unfold store_cell. keeps. Qed.

Lemma keeps_store_variant addr i g : keeps_counter (store_variant addr i g).
Proof.
  intros m. unfold store_variant.
  destruct (m_memory m !! addr) as [[l| | | |]|]; try reflexivity.
  now destruct (decide (i < length l)%nat).
Qed.

Lemma keeps_host_call r meth a : keeps_counter (host_call r meth a).
Proof. intros m. reflexivity. Qed.

Lemma keeps_new_array l : keeps_counter (new_array l).
Proof. intros m. reflexivity. Qed.

Lemma keeps_new_dictionary : keeps_counter new_dictionary.
Proof. intros m. reflexivity. Qed.

Lemma keeps_array_modify r f : keeps_counter (array_modify r f).
Proof. unfold array_modify. keeps. Qed.

Lemma keeps_dict_modify r f : keeps_counter (dict_modify r f).
Proof. unfold dict_modify. keeps. Qed.

#[local] Hint Resolve keeps_set_result keeps_ERR_PRINT keeps_print
  keeps_add_scoped_object keeps_create_scoped_variant
  keeps_add_scoped_variant keeps_memarray keeps_memarray_cell
  keeps_store_cell keeps_store_variant keeps_host_call keeps_new_array
  keeps_new_dictionary keeps_array_modify keeps_dict_modify : keeps.

Lemma keeps_host_call1 r meth a : keeps_counter (host_call1 r meth a).
Proof. unfold host_call1. keeps. Qed.

Lemma keeps_get_object_from_address a : keeps_counter (get_object_from_address a).
Proof. unfold get_object_from_address. keeps. Qed.

Lemma keeps_get_node_from_address a : keeps_counter (get_node_from_address a).
Proof. unfold get_node_from_address. keeps. Qed.

Lemma keeps_load p : keeps_counter (load p).
Proof. unfold load. keeps. Qed.

#[local] Hint Resolve keeps_host_call1 keeps_get_object_from_address
  keeps_get_node_from_address keeps_load : keeps.

Lemma keeps_toVariant g : keeps_counter (toVariant g).
Proof. unfold toVariant. keeps. Qed.

Lemma keeps_encode v t o : keeps_counter (encode v t o).
Proof. unfold encode. keeps. Qed.

#[local] Hint Resolve keeps_toVariant keeps_encode : keeps.

Lemma keeps_gv_set addr i v t : keeps_counter (gv_set addr i v t).
Proof. unfold gv_set. keeps. Qed.

Lemma keeps_gv_create addr i v : keeps_counter (gv_create addr i v).
Proof. unfold gv_create. keeps. Qed.

Lemma keeps_gv_assign addr i t idx : keeps_counter (gv_assign addr i t idx).
Proof. unfold gv_assign. keeps. Qed.

Lemma keeps_read_std_string a : keeps_counter (read_std_string a).
Proof. unfold read_std_string. keeps. Qed.

Lemma keeps_read_std_u32string a : keeps_counter (read_std_u32string a).
Proof. unfold read_std_u32string. keeps. Qed.

Lemma keeps_read_variant_vector a : keeps_counter (read_variant_vector a).
Proof. unfold read_variant_vector. keeps. Qed.

Lemma keeps_read_scalar_vector a : keeps_counter (read_scalar_vector a).
Proof. unfold read_scalar_vector. keeps. Qed.

Lemma keeps_memarray_raw a n : keeps_counter (memarray_raw a n).
Proof. unfold memarray_raw. keeps. Qed.

Lemma keeps_duplicate v : keeps_counter (duplicate v).
Proof. unfold duplicate. keeps. Qed.

Lemma keeps_fetch_name_list obj meth gvar :
  keeps_counter (fetch_name_list obj meth gvar).
Proof. unfold fetch_name_list. keeps. Qed.

#[local] Hint Resolve keeps_gv_set keeps_gv_create keeps_gv_assign
  keeps_read_std_string keeps_read_std_u32string keeps_read_variant_vector
  keeps_read_scalar_vector keeps_memarray_raw keeps_duplicate
  keeps_fetch_name_list : keeps.

Lemma keeps_api_obj_switch op obj gvar : keeps_counter (api_obj_switch op obj gvar).
Proof. unfold api_obj_switch. keeps. Qed.

Lemma keeps_api_obj_callp_call obj method deferred vret_ptr args_addr args_size :
  keeps_counter (api_obj_callp_call obj method deferred vret_ptr args_addr args_size).
Proof. unfold api_obj_callp_call. keeps. Qed.

Lemma keeps_api_node_switch op node gvar : keeps_counter (api_node_switch op node gvar).
Proof. unfold api_node_switch. keeps. Qed.

Lemma keeps_api_node2d_switch op node gvar : keeps_counter (api_node2d_switch op node gvar).
Proof. unfold api_node2d_switch. keeps. Qed.

Lemma keeps_api_node3d_switch op node gvar : keeps_counter (api_node3d_switch op node gvar).
Proof. unfold api_node3d_switch. keeps. Qed.

#[local] Hint Resolve keeps_api_obj_switch keeps_api_obj_callp_call
  keeps_api_node_switch keeps_api_node2d_switch keeps_api_node3d_switch : keeps.

Lemma charges_first_counter p h :
  charges_first p h -> forall m, m_counter (h m).2 = m_counter m + p.
Proof.
  intros (body & Heq & Hk) m. rewrite Heq.
  erewrite bind_ok by reflexivity. now rewrite Hk.
Qed.

Ltac charges :=
  eexists; split; [intros ?; reflexivity|]; keeps.

(** C3, as amended. The handlers that carry a charge (the variant
    lifecycle and string creation: 10000; Node2D, Node3D and timer
    creation: 100000; object and node lookup and node creation: 150000;
    object access, object call and node operations: 250000) charge it as
    the first thing they do once their arguments are decoded, and nothing
    later in the handler touches the counter: on every invocation, whether
    it returns or throws, the counter has grown by exactly that amount.
    The other handlers (print, evaluate, the array, dictionary and string
    operations, timer-stop) charge nothing. *)
Theorem charging_handlers c :
  (forall p, penalty c = Some p ->
     0 < p /\
     charges_first p (handler c) /\
     forall m, m_counter (handler c m).2 = m_counter m + p) /\
  (penalty c = None -> keeps_counter (handler c)).
Proof.
  split.
  - intros p Hp.
    assert (Hpos : 0 < p) by (destruct c; cbn in Hp; inversion Hp; lia).
    assert (Hc : charges_first p (handler c)).
    { destruct c; cbn in Hp; try discriminate; injection Hp as <-; cbn [handler].
      - unfold api_vcreate. charges.
      - unfold api_vfetch. charges.
      - unfold api_vclone. charges.
      - unfold api_vstore. charges.
      - exists (ret tt). split; [reflexivity|apply keeps_ret].
      - unfold api_get_obj. charges.
      - unfold api_obj. charges.
      - unfold api_obj_callp. charges.
      - unfold api_get_node. charges.
      - unfold api_node_create. charges.
      - unfold api_node. charges.
      - unfold api_node2d. charges.
      - unfold api_node3d. charges.
      - unfold api_string_create. charges.
      - unfold api_timer_periodic. charges. }
    repeat split; [exact Hpos|exact Hc|].
    now apply charges_first_counter.
  - intros Hp. destruct c; cbn in Hp; try discriminate; cbn [handler].
    + unfold api_print. keeps.
    + unfold api_veval. keeps.
    + unfold api_array_ops. keeps.
    + unfold api_array_at. keeps.
    + unfold api_array_size. keeps.
    + unfold api_dict_ops. keeps.
    + unfold api_string_ops. keeps.
    + unfold api_string_at. keeps.
    + unfold api_string_size. keeps.
    + unfold api_timer_stop. keeps.
Qed.

Lemma charging_handlers_witness :
  (0 < 250000 /\
   charges_first 250000 (handler (Call_node Node_QUEUE_FREE 0 0)) /\
   forall m, m_counter (handler (Call_node Node_QUEUE_FREE 0 0) m).2
             = m_counter m + 250000) /\
  keeps_counter (handler (Call_array_size 0)).
Proof.
  split.
  - apply (proj1 (charging_handlers (Call_node Node_QUEUE_FREE 0 0)) 250000).
    reflexivity.
  - apply (proj2 (charging_handlers (Call_array_size 0))). reflexivity.
Defined.

(** C3, the claim as stated fails: the print handler charges nothing. On
    one Variant at address 100 it succeeds and the counter is as before,
    so it is not a handler that charges a positive cost first. *)
Lemma print_charges_nothing_counterexample :
  (handler (Call_print 100 1) (boot sample_memory)).1 = Ok tt /\
  m_counter (handler (Call_print 100 1) (boot sample_memory)).2
  = m_counter (boot sample_memory) /\
  ~ (exists p, 0 < p /\ charges_first p (handler (Call_print 100 1))).
Proof.
  repeat split; try reflexivity.
  intros (p & Hp & Hc).
  pose proof (charges_first_counter p _ Hc (boot sample_memory)) as H.
  vm_compute in H. destruct p; discriminate || (cbn in Hp; lia).
Qed.

(** ** Operators on two objects *)

(** C10. On two guest variants of object kind, the equality operator
    always succeeds: the result register is set to true and the result
    slot receives the boolean comparison of the two raw addresses; no scope
    is consulted or changed and the engine is not called, whatever the
    addresses are. For every other operator, a call in which one of the two
    addresses is not in the current scope throws before the engine is
    called. *)
Theorem veval_object_operands op ap bp retp a la b lb r lr m :
  m_memory m !! ap = Some (CVariants (a :: la)) ->
  m_memory m !! bp = Some (CVariants (b :: lb)) ->
  m_memory m !! retp = Some (CVariants (r :: lr)) ->
  type a = OBJECT -> type b = OBJECT ->
  (op = OP_EQUAL ->
   api_veval op ap bp retp m =
   (Ok tt,
    with_memory
      (<[retp := CVariants
                   (mkGuestVariant BOOL
                      (bool_result (bool_decide (v_i a = v_i b))) [] :: lr)]>
         (m_memory m))
      (with_a0 1 m))) /\
  (op ≠ OP_EQUAL ->
   is_scoped_object (v_i a) m = false \/ is_scoped_object (v_i b) m = false ->
   exists e m',
     api_veval op ap bp retp m = (Throw e, m') /\
     host_log m' = host_log m /\ m_states m' = m_states m /\
     m_memory m' = m_memory m).
Proof.
  intros Ha Hb Hr Hta Htb. split.
  - intros ->. unfold api_veval.
    erewrite bind_ok by (eapply load_head; exact Ha).
    erewrite bind_ok by (eapply load_head; exact Hb).
    rewrite Hta, Htb. rewrite !bool_decide_true by reflexivity. cbn [andb].
    erewrite bind_ok by reflexivity.
    unfold gv_set. erewrite bind_ok by reflexivity.
    erewrite store_variant_head by exact Hr.
    now destruct (bool_decide (v_i a = v_i b)).
  - intros Hop Hs. unfold api_veval.
    erewrite bind_ok by (eapply load_head; exact Ha).
    erewrite bind_ok by (eapply load_head; exact Hb).
    rewrite Hta, Htb. rewrite !bool_decide_true by reflexivity. cbn [andb].
    rewrite bool_decide_false by exact Hop.
    destruct (decide (v_i a = 0)) as [Haz|Hanz];
      [|destruct (is_scoped_object (v_i a) m) eqn:Hsa].
    + destruct (get_object_from_address_fails (v_i a) m)
        as (e & m' & Hf & Hl & Hst & Hm & _); [now left|].
      exists e, m'. erewrite bind_throw by exact Hf. auto.
    + erewrite bind_ok by (now apply get_object_from_address_ok).
      destruct Hs as [Hs|Hs]; [congruence|].
      destruct (get_object_from_address_fails (v_i b) m)
        as (e & m' & Hf & Hl & Hst & Hm & _); [now right|].
      exists e, m'. erewrite bind_throw by exact Hf. auto.
    + destruct (get_object_from_address_fails (v_i a) m)
        as (e & m' & Hf & Hl & Hst & Hm & _); [now right|].
      exists e, m'. erewrite bind_throw by exact Hf. auto.
Qed.

Lemma veval_object_operands_witness :
  let m := boot object_memory in
  is_scoped_object 7 m = false /\ is_scoped_object 9 m = false /\
  api_veval OP_EQUAL 100 120 200 m =
  (Ok tt,
   with_memory
     (<[200 := CVariants [mkGuestVariant BOOL 0 []]]> object_memory)
     (with_a0 1 m)) /\
  exists e m',
    api_veval 1 100 120 200 m = (Throw e, m') /\
    host_log m' = host_log m /\ m_states m' = m_states m /\
    m_memory m' = m_memory m.
Proof.
  intros m.
  pose proof (veval_object_operands OP_EQUAL 100 120 200
                (mkGuestVariant OBJECT 7 []) [] (mkGuestVariant OBJECT 9 []) []
                nil_variant [] m eq_refl eq_refl eq_refl eq_refl eq_refl) as [He _].
  pose proof (veval_object_operands 1 100 120 200
                (mkGuestVariant OBJECT 7 []) [] (mkGuestVariant OBJECT 9 []) []
                nil_variant [] m eq_refl eq_refl eq_refl eq_refl eq_refl) as [_ Hn].
  split; [reflexivity|]. split; [reflexivity|]. split.
  - exact (He eq_refl).
  - apply Hn; [discriminate|now left].
Defined.

(** ** Array creation *)

(** C5. The create operation of [api_array_ops] is reached only through the
    handle check that precedes the switch: when the requested size
    [arr_idx] is not also the handle of a scoped array, the call throws and
    no array is created. In a fresh scope this is every request. *)
Theorem array_create_needs_array_handle arr_idx idx vaddr m :
  is_array (get_scoped_variant arr_idx m) = false ->
  api_array_ops Array_CREATE arr_idx idx vaddr m =
  (Throw (runtime_error ("Invalid Array object, idx = " +:+ pretty arr_idx)),
   with_err_log (err_log m ++ ["Invalid Array object"]) m).
Proof.
  intros H. unfold api_array_ops.
  erewrite bind_ok by reflexivity. rewrite H. reflexivity.
Qed.

Lemma array_create_needs_array_handle_witness :
  is_array (get_scoped_variant 0 (boot sample_memory)) = false /\
  api_array_ops Array_CREATE 0 0 200 (boot sample_memory) =
  (Throw (runtime_error "Invalid Array object, idx = 0"),
   with_err_log ["Invalid Array object"] (boot sample_memory)).
Proof.
  split; [reflexivity|].
  apply (array_create_needs_array_handle 0 0 200 (boot sample_memory)).
  reflexivity.
Defined.

(** The scenario of the spec, run in a fresh scope through the create
    operation of [api_array_ops]: the first call throws. *)
Example array_create_scenario_throws :
  (sequence
     [ api_array_ops Array_CREATE 0 0 200;
       api_array_ops Array_PUSH_BACK 0 0 100;
       api_array_ops Array_PUSH_BACK 0 0 100;
       api_array_ops Array_PUSH_BACK 0 0 100;
       api_array_size 0 ] (boot sample_memory)).1
  = Throw (runtime_error "Invalid Array object, idx = 0").
Proof. reflexivity. Qed.

(** The same scenario with the array created through [api_vcreate]: three
    values are pushed and the size reads back 3. *)
Example vcreate_array_scenario_size_3 :
  let r := sequence
     [ api_vcreate 200 ARRAY 0 0;
       api_array_ops Array_PUSH_BACK 0 0 100;
       api_array_ops Array_PUSH_BACK 0 0 100;
       api_array_ops Array_PUSH_BACK 0 0 100;
       api_array_size 0 ] (boot sample_memory) in
  r.1 = Ok tt /\ m_a0 r.2 = 3.
Proof. split; reflexivity. Qed.

(** Where the create operation does pass the check, the number it was
    given serves both as the handle that was checked and as the size of
    the new array: with arrays at handles 0 and 1, a create with 1 yields
    an array of one Nil at handle 2, and three pushes make its size 4. *)
Example array_create_through_handle_size_4 :
  let r := sequence
     [ api_vcreate 200 ARRAY 0 0;
       api_vcreate 200 ARRAY 0 0;
       api_array_ops Array_CREATE 1 0 200;
       api_array_ops Array_PUSH_BACK 2 0 100;
       api_array_ops Array_PUSH_BACK 2 0 100;
       api_array_ops Array_PUSH_BACK 2 0 100;
       api_array_size 2 ] (boot sample_memory) in
  r.1 = Ok tt /\
  m_memory r.2 !! 200 = Some (CVariants [mkGuestVariant ARRAY 2 []]) /\
  m_a0 r.2 = 4.
Proof. repeat split; reflexivity. Qed.

(** ** Dictionaries *)

Lemma dict_find_set_eq d k v : dict_find (dict_set d k v) k = Some v.
Proof.
  induction d as [|[k' v'] d IH]; cbn.
  - now rewrite decide_True.
  - destruct (decide (k' = k)) as [->|Hne]; cbn.
    + now rewrite decide_True.
    + now rewrite decide_False.
Qed.

Lemma get_scoped_variant_same h m m' :
  same_scope m m' -> get_scoped_variant h m' = get_scoped_variant h m.
Proof.
  intros [Hs Hc]. unfold get_scoped_variant, state. now rewrite Hs, Hc.
Qed.

Lemma is_scoped_object_same a m m' :
  same_scope m m' -> is_scoped_object a m' = is_scoped_object a m.
Proof.
  intros [Hs Hc]. unfold is_scoped_object, state. now rewrite Hs, Hc.
Qed.

Lemma get_object_from_address_same a m m' :
  same_scope m m' ->
  get_object_from_address a m = (Ok a, m) ->
  get_object_from_address a m' = (Ok a, m').
Proof.
  intros Hsame. unfold get_object_from_address.
  destruct (bool_decide (a = 0)); [discriminate|].
  unfold bind, gets. rewrite (is_scoped_object_same a m m' Hsame).
  destruct (is_scoped_object a m); [reflexivity|discriminate].
Qed.

(** Decoding depends on the scopes only. *)
Lemma toVariant_same g v m m' :
  same_scope m m' ->
  toVariant g m = (Ok v, m) -> toVariant g m' = (Ok v, m').
Proof.
  intros Hsame. unfold toVariant.
  assert (Hh : forall h, get_handle h m' = get_handle h m).
  { intros h. unfold get_handle. destruct (h <? 0); [reflexivity|].
    now apply get_scoped_variant_same. }
  assert (Hobj :
    (a <- get_object_from_address (v_i g) ;; ret (VObject a)) m = (Ok v, m) ->
    (a <- get_object_from_address (v_i g) ;; ret (VObject a)) m' = (Ok v, m')).
  { unfold bind. intros H.
    destruct (get_object_from_address (v_i g) m) as [[a|e] m0] eqn:E;
      [|discriminate].
    assert (a = v_i g /\ m0 = m) as [-> ->].
    { unfold get_object_from_address in E.
      destruct (bool_decide (v_i g = 0)); [discriminate|].
      unfold bind, gets in E.
      destruct (is_scoped_object (v_i g) m); cbn in E; [|discriminate].
      now inversion E. }
    rewrite (get_object_from_address_same _ m m' Hsame E).
    unfold ret in *. now inversion H. }
  assert (Hdef :
    (opt <- gets (get_handle (v_i g)) ;;
     match opt with
     | Some v => ret v
     | None => throw (runtime_error "GuestVariant::toVariant(): Variant is not scoped")
     end) m = (Ok v, m) ->
    (opt <- gets (get_handle (v_i g)) ;;
     match opt with
     | Some v => ret v
     | None => throw (runtime_error "GuestVariant::toVariant(): Variant is not scoped")
     end) m' = (Ok v, m')).
  { unfold bind, gets. rewrite Hh.
    destruct (get_handle (v_i g) m); cbn; [|discriminate].
    intros H. now inversion H. }
  destruct (type g); try exact Hdef; try exact Hobj;
    unfold ret; intros H; now inversion H.
Qed.

Lemma get_scoped_variant_valid h v m :
  get_scoped_variant h m = Some v -> state_valid m.
Proof.
  unfold get_scoped_variant, state, state_valid. intros H.
  destruct (m_states m !! m_current_state m) eqn:E.
  - eapply lookup_lt_Some; eassumption.
  - cbn in H. rewrite lookup_nil in H. discriminate.
Qed.

(** The trusted, owning encoding never fails and touches the scopes only. *)
Lemma encode_create_total v m :
  exists g m',
    encode v true true m = (Ok g, m') /\
    m_memory m' = m_memory m /\ m_dicts m' = m_dicts m /\
    m_arrays m' = m_arrays m /\ m_current_state m' = m_current_state m /\
    host_log m' = host_log m.
Proof.
  destruct v; cbn; unfold ret, bind, add_scoped_object, modify,
    create_scoped_variant; cbn; do 2 eexists; (split; [reflexivity|]); now cbn.
Qed.

(** Round trip of the codec: what the owning encoding wrote decodes, in
    the scope it left behind, to the value that was encoded. The null
    object is the one value without a decoding. *)
Lemma encode_create_roundtrip v g m m' m'' :
  state_valid m -> v ≠ VObject 0 ->
  encode v true true m = (Ok g, m') ->
  same_scope m' m'' ->
  toVariant g m'' = (Ok v, m'').
Proof.
  intros Hv Hnull He Hsame.
  apply (toVariant_same g v m' m'' Hsame).
  assert (Hhandle : forall t,
            is_inline t = false -> t ≠ OBJECT -> get_type v = t ->
            encode v true true m =
              (idx <- create_scoped_variant v ;;
               ret (mkGuestVariant t (Z.of_nat idx) [])) m ->
            toVariant g m' = (Ok v, m')).
  { intros t Hin Hobj Ht Henc. rewrite Henc in He.
    unfold bind, create_scoped_variant, ret in He. inversion He; subst g m'.
    clear He Henc.
    unfold toVariant. cbn [type v_i].
    assert (Hget :
      get_handle (Z.of_nat (length (scoped_variants (state m))))
        (set_state
           (mkCurrentState (variants (state m) ++ [v])
              (scoped_variants (state m) ++ [Owned (length (variants (state m)))])
              (scoped_objects (state m))) m) = Some v).
    { unfold get_handle.
      destruct (Z.of_nat (length (scoped_variants (state m))) <? 0) eqn:E;
        [apply Z.ltb_lt in E; lia|].
      rewrite Nat2Z.id. unfold get_scoped_variant.
      rewrite state_set_state by exact Hv. cbn [scoped_variants variants].
      rewrite lookup_app_r by lia. rewrite Nat.sub_diag. cbn.
      rewrite lookup_app_r by lia. rewrite Nat.sub_diag. reflexivity. }
    subst t.
    destruct (get_type v); try discriminate; try congruence;
      unfold bind, gets; rewrite Hget; reflexivity. }
  destruct v; cbn in He;
    try (unfold ret in He; inversion He; subst; reflexivity);
    try (eapply Hhandle; [| |reflexivity|reflexivity]; [reflexivity|discriminate]).
  - (* booleans *)
    unfold ret in He. inversion He; subst. unfold toVariant; cbn.
    now destruct b.
  - (* objects *)
    unfold bind, add_scoped_object, modify, ret in He. inversion He; subst g m'.
    unfold toVariant; cbn [type v_i].
    erewrite bind_ok; [reflexivity|].
    apply get_object_from_address_ok; [congruence|].
    apply (add_scoped_object_admits addr m Hv).
  - (* packed arrays *)
    destruct k; (eapply Hhandle; [| |reflexivity|reflexivity]; [reflexivity|discriminate]).
Qed.

Lemma encode_type v t o g m m' :
  encode v t o m = (Ok g, m') -> type g = get_type v.
Proof.
  destruct v; cbn; unfold ret, bind; intros H;
    try (inversion H; subst; reflexivity);
    try (destruct o; cbn in H; inversion H; reflexivity).
  destruct t.
  - destruct (add_scoped_object addr m) as [[[]|e] m0]; inversion H; reflexivity.
  - destruct (get_object_from_address addr m) as [[a|e] m0]; inversion H; reflexivity.
Qed.

Lemma dict_read_modify ref D m :
  (ref < length (m_dicts m))%nat ->
  dict_read ref (with_dicts (<[ref := D]> (m_dicts m)) m) = D.
Proof.
  intros H. unfold dict_read. cbn. now rewrite list_lookup_insert_eq.
Qed.

(** [GET] on a scoped dictionary: the engine's indexing, then the owning
    encoding of the value into the result slot. *)
Lemma dictionary_get_step d ref vkey vaddr key rest_k out rest_o kv m :
  get_scoped_variant d m = Some (VDictionary ref) ->
  m_memory m !! vkey = Some (CVariants (key :: rest_k)) ->
  m_memory m !! vaddr = Some (CVariants (out :: rest_o)) ->
  toVariant key m = (Ok kv, m) ->
  api_dict_ops Dictionary_GET d vkey vaddr m =
  (dict_modify ref (fun _ => (dict_index (dict_read ref m) kv).2) ;;
   gv_create vaddr 0 (dict_index (dict_read ref m) kv).1) m.
Proof.
  intros Hd Hk Ho Hkv. unfold api_dict_ops.
  erewrite bind_ok by reflexivity. rewrite Hd.
  cbn [is_dictionary get_type]. rewrite bool_decide_true by reflexivity.
  cbn [negb default dict_ref].
  erewrite bind_ok by (eapply load_head; exact Hk).
  erewrite bind_ok by (eapply memarray_head; exact Ho).
  erewrite bind_ok by exact Hkv.
  erewrite bind_ok by reflexivity. reflexivity.
Qed.

(** [SET] on a scoped dictionary. *)
Lemma dictionary_set_step d ref vkey vaddr key rest_k value rest_v kv vv m :
  get_scoped_variant d m = Some (VDictionary ref) ->
  m_memory m !! vkey = Some (CVariants (key :: rest_k)) ->
  m_memory m !! vaddr = Some (CVariants (value :: rest_v)) ->
  toVariant key m = (Ok kv, m) ->
  toVariant value m = (Ok vv, m) ->
  api_dict_ops Dictionary_SET d vkey vaddr m =
  dict_modify ref (fun D => dict_set D kv vv) m.
Proof.
  intros Hd Hk Hv Hkv Hvv. unfold api_dict_ops.
  erewrite bind_ok by reflexivity. rewrite Hd.
  cbn [is_dictionary get_type]. rewrite bool_decide_true by reflexivity.
  cbn [negb default dict_ref].
  erewrite bind_ok by (eapply load_head; exact Hk).
  erewrite bind_ok by (eapply load_head; exact Hv).
  erewrite bind_ok by exact Hvv.
  erewrite bind_ok by exact Hkv.
  reflexivity.
Qed.

(** C6. Through the handle of a scoped dictionary: a GET of a key that the
    dictionary does not hold, then a SET of that key to a value, then a GET
    of the key. All three calls succeed; the first GET yields Nil; after
    the last one the dictionary maps the key to the value, and the result
    slot holds a guest variant of the value's kind that decodes, in the
    scope the call left behind, to the value that was set. *)
Theorem dictionary_get_set_get
    d ref vkey vval vout key rest_k value rest_v out rest_o kv vv m :
  get_scoped_variant d m = Some (VDictionary ref) ->
  (ref < length (m_dicts m))%nat ->
  m_memory m !! vkey = Some (CVariants (key :: rest_k)) ->
  m_memory m !! vval = Some (CVariants (value :: rest_v)) ->
  m_memory m !! vout = Some (CVariants (out :: rest_o)) ->
  vout ≠ vkey -> vout ≠ vval ->
  toVariant key m = (Ok kv, m) ->
  toVariant value m = (Ok vv, m) ->
  dict_find (dict_read ref m) kv = None ->
  exists m1 m2 m3 g,
    api_dict_ops Dictionary_GET d vkey vout m = (Ok tt, m1) /\
    m_memory m1 !! vout = Some (CVariants (nil_variant :: rest_o)) /\
    api_dict_ops Dictionary_SET d vkey vval m1 = (Ok tt, m2) /\
    api_dict_ops Dictionary_GET d vkey vout m2 = (Ok tt, m3) /\
    dict_find (dict_read ref m3) kv = Some vv /\
    m_memory m3 !! vout = Some (CVariants (g :: rest_o)) /\
    type g = get_type vv /\
    (vv ≠ VObject 0 -> toVariant g m3 = (Ok vv, m3)).
Proof.
  intros Hd Href Hk Hv Ho Hok Hov Hkv Hvv Hmiss.
  pose proof (get_scoped_variant_valid _ _ _ Hd) as Hvalid.
  set (D0 := dict_read ref m) in *.
  (* the first GET *)
  set (m1 := with_memory (<[vout := CVariants (nil_variant :: rest_o)]> (m_memory m))
               (with_dicts (<[ref := dict_set D0 kv VNil]> (m_dicts m)) m)).
  assert (H1 : api_dict_ops Dictionary_GET d vkey vout m = (Ok tt, m1)).
  { erewrite dictionary_get_step by eassumption.
    fold D0. unfold dict_index. rewrite Hmiss. cbn [fst snd].
    erewrite bind_ok by reflexivity.
    unfold gv_create. erewrite bind_ok by reflexivity.
    erewrite store_variant_head by exact Ho. reflexivity. }
  assert (Hs1 : same_scope m m1) by (split; reflexivity).
  assert (Hd1 : get_scoped_variant d m1 = Some (VDictionary ref))
    by (now rewrite (get_scoped_variant_same d m m1 Hs1)).
  assert (Hk1 : m_memory m1 !! vkey = Some (CVariants (key :: rest_k)))
    by (cbn; now rewrite lookup_insert_ne).
  assert (Hv1 : m_memory m1 !! vval = Some (CVariants (value :: rest_v)))
    by (cbn; now rewrite lookup_insert_ne).
  assert (Ho1 : m_memory m1 !! vout = Some (CVariants (nil_variant :: rest_o)))
    by (cbn; now rewrite lookup_insert_eq).
  assert (Hr1 : dict_read ref m1 = dict_set D0 kv VNil)
    by (apply (dict_read_modify ref _ m Href)).
  (* the SET *)
  set (D2 := dict_set (dict_set D0 kv VNil) kv vv).
  set (m2 := with_dicts (<[ref := D2]> (m_dicts m1)) m1).
  assert (H2 : api_dict_ops Dictionary_SET d vkey vval m1 = (Ok tt, m2)).
  { erewrite dictionary_set_step;
      [|exact Hd1|exact Hk1|exact Hv1
       |exact (toVariant_same _ _ _ _ Hs1 Hkv)
       |exact (toVariant_same _ _ _ _ Hs1 Hvv)].
    unfold dict_modify, modify. rewrite Hr1. reflexivity. }
  assert (Hs2 : same_scope m m2) by (split; reflexivity).
  assert (Href1 : (ref < length (m_dicts m1))%nat)
    by (cbn; now rewrite length_insert).
  assert (Hd2 : get_scoped_variant d m2 = Some (VDictionary ref))
    by (now rewrite (get_scoped_variant_same d m m2 Hs2)).
  assert (Hr2 : dict_read ref m2 = D2)
    by (apply (dict_read_modify ref _ m1 Href1)).
  (* the second GET *)
  set (m2' := with_dicts (<[ref := D2]> (m_dicts m2)) m2).
  destruct (encode_create_total vv m2')
    as (g & m2'' & He & Hmem & Hdict & _ & Hcur & _).
  set (m3 := with_memory (<[vout := CVariants (g :: rest_o)]> (m_memory m2'')) m2'').
  assert (H3 : api_dict_ops Dictionary_GET d vkey vout m2 = (Ok tt, m3)).
  { erewrite dictionary_get_step;
      [|exact Hd2|exact Hk1|exact Ho1
       |exact (toVariant_same _ _ _ _ Hs2 Hkv)].
    rewrite Hr2.
    assert (Hidx : dict_index D2 kv = (vv, D2))
      by (unfold dict_index, D2; now rewrite dict_find_set_eq).
    rewrite Hidx. cbn [fst snd].
    erewrite bind_ok by reflexivity.
    unfold gv_create. erewrite bind_ok by exact He.
    erewrite store_variant_head by (rewrite Hmem; exact Ho1). reflexivity. }
  exists m1, m2, m3, g. repeat split; try assumption.
  - (* the dictionary holds the value *)
    unfold dict_read. cbn. rewrite Hdict. cbn.
    rewrite list_lookup_insert_eq by (rewrite length_insert; exact Href1).
    apply dict_find_set_eq.
  - cbn. now rewrite lookup_insert_eq.
  - eapply encode_type; exact He.
  - intros Hnull. eapply encode_create_roundtrip; [|exact Hnull|exact He|].
    + unfold state_valid in *. exact Hvalid.
    + split; reflexivity.
Qed.

Lemma dictionary_get_set_get_witness :
  exists m1 m2 m3 g,
    api_dict_ops Dictionary_GET 0 100 200 with_dictionary = (Ok tt, m1) /\
    m_memory m1 !! 200 = Some (CVariants [nil_variant]) /\
    api_dict_ops Dictionary_SET 0 100 120 m1 = (Ok tt, m2) /\
    api_dict_ops Dictionary_GET 0 100 200 m2 = (Ok tt, m3) /\
    dict_find (dict_read 0 m3) (VInt 55) = Some (VInt 7) /\
    m_memory m3 !! 200 = Some (CVariants [g]) /\
    type g = INT /\
    (VInt 7 ≠ VObject 0 -> toVariant g m3 = (Ok (VInt 7), m3)).
Proof.
  apply (dictionary_get_set_get 0 0 100 120 200
           (mkGuestVariant INT 55 []) [] (mkGuestVariant INT 7 []) []
           nil_variant [] (VInt 55) (VInt 7) with_dictionary);
    first [reflexivity | discriminate | (vm_compute; lia)].
Defined.

(** * Further properties of the handlers *)

(** ** Frames *)

Lemma preserves_ret {A B} (f : Sandbox -> B) (a : A) : preserves f (ret a).
Proof. intros m. reflexivity. Qed.

Lemma preserves_throw {A B} (f : Sandbox -> B) e : preserves f (@throw A e).
Proof. intros m. reflexivity. Qed.

Lemma preserves_gets {A B} (f : Sandbox -> B) (g : Sandbox -> A) :
  preserves f (gets g).
Proof. intros m. reflexivity. Qed.

Lemma preserves_bind {A B C} (f : Sandbox -> C) (c : M A) (k : A -> M B) :
  preserves f c -> (forall a, preserves f (k a)) -> preserves f (bind c k).
Proof.
  intros Hc Hk m. unfold bind. specialize (Hc m).
  destruct (c m) as [[a|e] m']; cbn in *.
  - now rewrite Hk.
  - exact Hc.
Qed.

Lemma preserves_for_each {A B} (f : Sandbox -> B) (l : list A) (body : A -> M unit) :
  (forall x, preserves f (body x)) -> preserves f (for_each l body).
Proof.
  intros H. induction l as [|x l IH]; cbn.
  - apply preserves_ret.
  - apply preserves_bind; [apply H|intros _; exact IH].
Qed.

Lemma preserves_map_m {A B C} (f : Sandbox -> C) (g : A -> M B) (l : list A) :
  (forall x, preserves f (g x)) -> preserves f (map_m g l).
Proof.
  intros H. induction l as [|x l IH]; cbn.
  - apply preserves_ret.
  - apply preserves_bind; [apply H|intros y].
    apply preserves_bind; [exact IH|intros ys; apply preserves_ret].
Qed.

(** A primitive: its effect on the sandbox is read off by computation. *)
Ltac pres_leaf :=
  let m := fresh "m" in
  intros m;
  unfold memarray, memarray_cell, store_cell, store_variant, host_call,
    new_array, new_dictionary, create_scoped_variant, add_scoped_variant,
    add_scoped_object, array_modify, dict_modify, set_result, ERR_PRINT,
    print, penalize, modify;
  cbn;
  repeat match goal with
         | |- context [match ?x with _ => _ end] => destruct x
         end;
  reflexivity.

Ltac pres_step :=
  match goal with
  | |- preserves _ (bind _ _) => apply preserves_bind; [|intros ?]
  | |- preserves _ (ret _) => apply preserves_ret
  | |- preserves _ (throw _) => apply preserves_throw
  | |- preserves _ (gets _) => apply preserves_gets
  | |- preserves _ (for_each _ _) => apply preserves_for_each; intros ?
  | |- preserves _ (map_m _ _) => apply preserves_map_m; intros ?
  | |- preserves _ (let _ := _ in _) => cbv zeta
  | |- preserves _ (match ?x with _ => _ end) => destruct x
  | |- _ => solve [pres_leaf]
  end.

Ltac pres :=
  unfold toVariant, encode, gv_set, gv_create, gv_assign, load,
    get_object_from_address, get_node_from_address, host_call1,
    read_std_string, read_std_u32string, read_variant_vector,
    read_scalar_vector, memarray_raw, duplicate, fetch_name_list;
  repeat pres_step.

(** A goal [f (c m).2 = f m] as a frame property of [c]. *)
Ltac by_frame :=
  match goal with
  | |- ?f (snd (?c ?m)) = ?f ?m =>
      let H := fresh in
      enough (H : preserves f c) by exact (H m); pres
  end.

(** ** Printing *)

Lemma print_loop m gs vs :
  Forall2 (fun g v => toVariant g m = (Ok v, m)) gs vs ->
  forall m', same_scope m m' ->
    for_each gs (fun var =>
      v <- toVariant var ;;
      _ <- host_call 0 "UtilityFunctions::print" [v] ;;
      ret tt) m'
    = (Ok tt, with_host_log (host_log m' ++ (print_op <$> vs)) m').
Proof.
  induction 1 as [|g v gs vs Hg _ IH]; intros m' Hsame; cbn [for_each fmap list_fmap].
  - rewrite app_nil_r. now destruct m'.
  - erewrite bind_ok; cycle 1.
    { erewrite bind_ok by (eapply toVariant_same; eassumption).
      erewrite bind_ok by reflexivity. reflexivity. }
    rewrite IH by (destruct Hsame; split; assumption).
    cbn. now rewrite <- app_assoc.
Qed.

(** X1. [api_print] refuses 64 variants or more before it reads guest
    memory or calls the engine; given fewer, all of which decode, it calls
    the engine's print once per variant, in array order, and changes
    nothing else. *)
Theorem print_limit_and_order array len m :
  ((64 <= len)%nat ->
   api_print array len m =
   (Throw (runtime_error "print(): Too many Variants to print"),
    with_err_log (err_log m ++ ["print(): Too many Variants to print"]) m)) /\
  (forall gs vs,
     (len < 64)%nat ->
     m_memory m !! array = Some (CVariants gs) -> (len <= length gs)%nat ->
     Forall2 (fun g v => toVariant g m = (Ok v, m)) (take len gs) vs ->
     api_print array len m =
     (Ok tt, with_host_log (host_log m ++ (print_op <$> vs)) m)).
Proof.
  split.
  - intros Hlen. unfold api_print.
    destruct (decide (64 <= len)%nat) as [_|Hn]; [reflexivity|lia].
  - intros gs vs Hlen Hmem Hle Hdec. unfold api_print.
    destruct (decide (64 <= len)%nat) as [Hn|_]; [lia|].
    erewrite bind_ok; cycle 1.
    { unfold memarray. rewrite Hmem.
      destruct (decide (len <= length gs)%nat) as [_|Hn]; [reflexivity|lia]. }
    apply (print_loop m _ _ Hdec). split; reflexivity.
Qed.

Lemma print_limit_and_order_witness :
  api_print 0 64 (boot sample_memory) =
  (Throw (runtime_error "print(): Too many Variants to print"),
   with_err_log ["print(): Too many Variants to print"] (boot sample_memory)) /\
  api_print 100 1 (boot sample_memory) =
  (Ok tt, with_host_log [print_op (VInt 55)] (boot sample_memory)).
Proof.
  destruct (print_limit_and_order 0 64 (boot sample_memory)) as [H1 _].
  destruct (print_limit_and_order 100 1 (boot sample_memory)) as [_ H2].
  split.
  - apply H1. lia.
  - apply (H2 [mkGuestVariant INT 55 []] [VInt 55]);
      [lia|reflexivity|cbn; lia|].
    repeat constructor.
Defined.

(** ** Addresses handed to the guest *)

#[local] Arguments add_scoped_object : simpl never.
#[local] Arguments with_scoped_object : simpl never.

Lemma add_scoped_object_run a m :
  add_scoped_object a m = (Ok tt, with_scoped_object a m).
Proof. reflexivity. Qed.

Lemma with_scoped_object_admits a m : state_valid m -> is_scoped_object a (with_scoped_object a m) = true.
Proof. apply add_scoped_object_admits. Qed.

Lemma with_scoped_object_keeps a o m :
  is_scoped_object a m = true -> is_scoped_object a (with_scoped_object o m) = true.
Proof. apply add_scoped_object_keeps. Qed.

Lemma with_scoped_object_valid a m : state_valid m -> state_valid (with_scoped_object a m).
Proof.
  unfold state_valid, with_scoped_object, add_scoped_object, modify, set_state. cbn.
  now rewrite length_insert.
Qed.

Lemma scoped_with_a0 a r m :
  is_scoped_object a (with_a0 r m) = is_scoped_object a m.
Proof. reflexivity. Qed.

Lemma scoped_with_counter a r m :
  is_scoped_object a (with_counter r m) = is_scoped_object a m.
Proof. reflexivity. Qed.

Lemma scoped_with_host_log a r m :
  is_scoped_object a (with_host_log r m) = is_scoped_object a m.
Proof. reflexivity. Qed.

Lemma scoped_with_err_log a r m :
  is_scoped_object a (with_err_log r m) = is_scoped_object a m.
Proof. reflexivity. Qed.

Lemma scoped_with_memory a r m :
  is_scoped_object a (with_memory r m) = is_scoped_object a m.
Proof. reflexivity. Qed.

Ltac norm_scoped :=
  rewrite ?scoped_with_a0, ?scoped_with_counter, ?scoped_with_host_log,
    ?scoped_with_err_log, ?scoped_with_memory.

Ltac unfold_m_in H :=
  unfold bind, ret, gets, modify, throw, penalize, set_result, ERR_PRINT,
    host_call1, host_call, print in H.

(** Symbolic execution of a run that is known by a hypothesis, with a case
    split at every test. *)
Ltac run_in H :=
  repeat first
    [ rewrite add_scoped_object_run in H
    | progress unfold_m_in H
    | progress cbn in H
    | case_bool_decide
    | match type of H with
      | context [negb ?b] => destruct b eqn:?
      | context [m_memory ?m !! ?a] =>
          destruct (m_memory m !! a) as [[]|] eqn:?
      | context [decide ?P] => destruct (decide P)
      end ].

Ltac handed :=
  cbn; norm_scoped; split;
  [ first [ left; reflexivity | left; assumption
          | right; apply with_scoped_object_admits; assumption ]
  | let a := fresh "a" in
    let Ha := fresh "Ha" in
    intros a Ha; repeat apply with_scoped_object_keeps; norm_scoped; exact Ha ].

(** X2. Whenever the object lookup, the node lookup or the node creation
    returns normally, the result register holds 0 or an address that is in
    the current scope; every address that was in the scope still is. *)
Theorem handed_out_addresses_are_admitted c m m' :
  returns_address c = true ->
  state_valid m ->
  handler c m = (Ok tt, m') ->
  (m_a0 m' = 0 \/ is_scoped_object (m_a0 m') m' = true) /\
  (forall a, is_scoped_object a m = true -> is_scoped_object a m' = true).
Proof.
  intros Hc Hv H. destruct c; try discriminate; cbn [handler] in H.
  - unfold api_get_obj in H.
    destruct (find_allowed name); run_in H;
      inversion H; subst m'; clear H; handed.
  - unfold api_get_node in H. run_in H;
      inversion H; subst m'; clear H; handed.
  - unfold api_node_create in H.
    destruct t; unfold memarray_raw, memarray_cell in H; run_in H;
      try discriminate; inversion H; subst m'; clear H; handed.
Qed.

(** An engine whose every reply is the object at address 77. *)
Lemma handed_out_addresses_are_admitted_witness :
  let m := mkSandbox 0 0 sample_memory 4096 12 100 0 0
             (replicate (S MAX_LEVEL) empty_state) [] []
             (fun _ _ => [VObject 77]) [] [] [] in
  exists m',
    handler (Call_get_node 0 "Player") m = (Ok tt, m') /\
    m_a0 m' = 77 /\ is_scoped_object 77 m' = true.
Proof.
  intros m. eexists. split; [reflexivity|]. split; [reflexivity|].
  destruct (handed_out_addresses_are_admitted (Call_get_node 0 "Player") m
              (handler (Call_get_node 0 "Player") m).2 eq_refl) as [[H|H] _].
  - vm_compute. lia.
  - reflexivity.
  - discriminate H.
  - exact H.
Defined.

(** ** Node creation *)

Lemma nth_take_last {A} (l : list A) n d :
  nth n (take (n + 1) l) d = nth n l d.
Proof.
  revert l. induction n as [|n IH]; intros [|x l]; cbn; try reflexivity.
  apply IH.
Qed.

(** X3. [api_node_create] throws for a type outside its shortlist, and for
    a class name whose byte at [g_class_len] is not NUL; in both cases the
    engine is not called, so nothing is instantiated. *)
Theorem node_create_rejections g_class_name g_class_len name m :
  (forall code,
     api_node_create (CREATE_INVALID code) g_class_name g_class_len name m =
     (Throw (runtime_error "Unknown Node type"),
      with_err_log (err_log m ++ ["Unknown Node type"])
        (with_counter (m_counter m + 150000) m))) /\
  (forall bytes,
     m_memory m !! g_class_name = Some (CBytes bytes) ->
     (g_class_len + 1 <= length bytes)%nat ->
     nth g_class_len bytes 1 ≠ 0 ->
     api_node_create CREATE_CLASSDB g_class_name g_class_len name m =
     (Throw (runtime_error "Class name is not null-terminated"),
      with_err_log (err_log m ++ ["Class name is not null-terminated"])
        (with_counter (m_counter m + 150000) m))).
Proof.
  split.
  - intros code. reflexivity.
  - intros bytes Hmem Hlen Hnul. unfold api_node_create.
    erewrite bind_ok by reflexivity.
    erewrite bind_throw; [reflexivity|].
    erewrite bind_ok; cycle 1.
    { unfold memarray_raw. erewrite bind_ok; cycle 1.
      { unfold memarray_cell. cbn. rewrite Hmem. reflexivity. }
      cbn. destruct (decide (g_class_len + 1 <= length bytes)%nat); [reflexivity|lia]. }
    rewrite nth_take_last. rewrite bool_decide_true by exact Hnul.
    reflexivity.
Qed.

Lemma node_create_rejections_witness :
  api_node_create CREATE_CLASSDB 400 0 "" (boot class_memory) =
  (Throw (runtime_error "Class name is not null-terminated"),
   with_err_log ["Class name is not null-terminated"]
     (with_counter 150000 (boot class_memory))).
Proof.
  apply (proj2 (node_create_rejections 400 0 "" (boot class_memory)) [88; 0]);
    [reflexivity|cbn; lia|discriminate].
Defined.

(** ** Second operands *)

Lemma memarray_first addr n g rest m :
  m_memory m !! addr = Some (CVariants (g :: rest)) ->
  (exists l, memarray addr (S n) m = (Ok l, m) /\ elem l 0 = g) \/
  memarray addr (S n) m = (Throw protection_fault, m).
Proof.
  intros H. unfold memarray. rewrite H.
  destruct (decide (S n <= length (g :: rest))%nat); [left|right; reflexivity].
  eexists. split; reflexivity.
Qed.

(** X4. The node operations that take a second node (add child, add
    sibling, move child, remove child, deferred or not) look that node up
    like the first: when the address in the guest variant is null or not
    in the current scope, the call throws and the engine is not called. *)
Theorem node_child_operand_checked op addr gvar g rest m :
  takes_child op = true ->
  addr ≠ 0 -> is_scoped_object addr m = true ->
  m_memory m !! gvar = Some (CVariants (g :: rest)) ->
  v_i g = 0 \/ is_scoped_object (v_i g) m = false ->
  exists e m',
    api_node op addr gvar m = (Throw e, m') /\
    host_log m' = host_log m /\ m_states m' = m_states m /\
    m_memory m' = m_memory m.
Proof.
  intros Hop Hnz Hs Hmem Hchild.
  rewrite api_node_enter by assumption.
  set (m1 := with_counter (m_counter m + 250000) m).
  assert (Hmem1 : m_memory m1 !! gvar = Some (CVariants (g :: rest))) by exact Hmem.
  assert (Hfail : exists e m',
            get_node_from_address (v_i g) m1 = (Throw e, m') /\
            host_log m' = host_log m /\ m_states m' = m_states m /\
            m_memory m' = m_memory m).
  { destruct (get_node_from_address_fails (v_i g) m1)
      as (e & m' & Hr & _ & Hl & Hst & Hm & _); [exact Hchild|].
    now exists e, m'. }
  destruct Hfail as (e & m' & Hf & Hrest).
  destruct op; try discriminate; unfold api_node_switch;
    match goal with
    | |- context [memarray gvar (S ?n)] =>
        destruct (memarray_first gvar n g rest m1 Hmem1) as [(l & Hl & He)|Hl]
    end;
    try (erewrite bind_throw by exact Hl; do 2 eexists;
         split; [reflexivity|now cbn]);
    erewrite bind_ok by exact Hl; rewrite He;
    erewrite bind_throw by exact Hf; exists e, m'; auto.
Qed.

Lemma node_child_operand_checked_witness :
  let m := with_scoped_object 7 (boot object_memory) in
  exists e m',
    api_node Node_ADD_CHILD 7 120 m = (Throw e, m') /\
    host_log m' = host_log m /\ m_states m' = m_states m /\
    m_memory m' = m_memory m.
Proof.
  intros m.
  apply (node_child_operand_checked Node_ADD_CHILD 7 120
           (mkGuestVariant OBJECT 9 []) [] m);
    [reflexivity|discriminate|reflexivity|reflexivity|right; reflexivity].
Defined.

(** X5. Connecting or disconnecting a signal looks up the target object as
    well: when the address in the first guest variant is null or not in the
    current scope, the call throws and the engine is not called. *)
Theorem connect_target_checked op addr gvar g rest m :
  takes_target op = true ->
  is_scoped_object addr m = true ->
  m_memory m !! gvar = Some (CVariants (g :: rest)) ->
  v_i g = 0 \/ is_scoped_object (v_i g) m = false ->
  exists e m',
    api_obj op addr gvar m = (Throw e, m') /\
    host_log m' = host_log m /\ m_states m' = m_states m /\
    m_memory m' = m_memory m.
Proof.
  intros Hop Hs Hmem Htarget.
  rewrite api_obj_enter by assumption.
  set (m1 := with_counter (m_counter m + 250000) m).
  assert (Hmem1 : m_memory m1 !! gvar = Some (CVariants (g :: rest))) by exact Hmem.
  destruct (get_object_from_address_fails (v_i g) m1)
    as (e & m' & Hf & Hl & Hst & Hm & _); [exact Htarget|].
  destruct op; try discriminate; unfold api_obj_switch;
    (destruct (memarray_first gvar 2 g rest m1 Hmem1) as [(l & Hl' & He)|Hl'];
     [ erewrite bind_ok by exact Hl'; rewrite He;
       erewrite bind_throw by exact Hf; exists e, m'; auto
     | erewrite bind_throw by exact Hl'; do 2 eexists;
       split; [reflexivity|now cbn] ]).
Qed.

(** Three guest variants for a connect: target 9, signal and method given
    as integers. *)
Lemma connect_target_checked_witness :
  let mem : gmap Z Cell :=
    {[ 100 := CVariants [mkGuestVariant OBJECT 9 []; mkGuestVariant INT 1 [];
                         mkGuestVariant INT 2 []] ]} in
  let m := with_scoped_object 7 (boot mem) in
  exists e m',
    api_obj Object_CONNECT 7 100 m = (Throw e, m') /\
    host_log m' = host_log m /\ m_states m' = m_states m /\
    m_memory m' = m_memory m.
Proof.
  intros mem m.
  apply (connect_target_checked Object_CONNECT 7 100
           (mkGuestVariant OBJECT 9 [])
           [mkGuestVariant INT 1 []; mkGuestVariant INT 2 []] m);
    [reflexivity|reflexivity|reflexivity|right; reflexivity].
Defined.

(** ** Method calls on objects *)

Lemma String_utf8_ascii s m :
  ascii_text s = true -> String_utf8 s m = (Ok s, m).
Proof. intros H. unfold String_utf8, gets. now rewrite H. Qed.

Lemma map_m_toVariant_same m m' gs vs :
  Forall2 (fun g v => toVariant g m = (Ok v, m)) gs vs ->
  same_scope m m' ->
  map_m toVariant gs m' = (Ok vs, m').
Proof.
  intros H Hsame. induction H as [|g v gs vs Hg _ IH]; [reflexivity|].
  cbn [map_m].
  erewrite bind_ok by (eapply toVariant_same; eassumption).
  erewrite bind_ok by exact IH. reflexivity.
Qed.

(** X6. [api_obj_callp] accepts at most eight arguments: with more, a call
    on a scoped object throws before the argument array is read and before
    the engine is called. *)
Theorem obj_callp_argument_limit addr method deferred vret_ptr args_addr args_size m :
  is_scoped_object addr m = true ->
  (8 < args_size)%nat ->
  api_obj_callp addr method deferred vret_ptr args_addr args_size m =
  (Throw (runtime_error "Too many arguments."),
   with_err_log (err_log m ++ ["Too many arguments."])
     (with_counter (m_counter m + 250000) m)).
Proof.
  intros Hs Hn. rewrite api_obj_callp_enter by assumption.
  cbn [after_scope_check].
  destruct (decide (8 < args_size)%nat); [reflexivity|lia].
Qed.

Lemma obj_callp_argument_limit_witness :
  let m := with_scoped_object 7 (boot sample_memory) in
  api_obj_callp 7 "free" false 0 100 9 m =
  (Throw (runtime_error "Too many arguments."),
   with_err_log ["Too many arguments."] (with_counter 250000 m)).
Proof.
  intros m.
  apply (obj_callp_argument_limit 7 "free" false 0 100 9 m); [reflexivity|lia].
Defined.

(** X7. A deferred method call never writes guest memory: the arguments
    are decoded and the call is queued with [call_deferred], which runs
    nothing before the handler returns, and no result is written; whether
    the handler returns or throws, guest memory is as before. When the
    object is in the scope, the method name is 7-bit text without NUL,
    there are at most eight arguments and all of them decode, the handler
    returns and the one engine call it made is [call_deferred] on the
    object, with the method name and the decoded arguments. *)
Theorem obj_callp_deferred_writes_nothing addr method vret_ptr args_addr args_size m :
  m_memory (api_obj_callp addr method true vret_ptr args_addr args_size m).2
    = m_memory m /\
  (forall gs vs,
     is_scoped_object addr m = true ->
     ascii_text method = true ->
     (args_size <= 8)%nat ->
     m_memory m !! args_addr = Some (CVariants gs) ->
     (args_size <= length gs)%nat ->
     Forall2 (fun g v => toVariant g m = (Ok v, m)) (take args_size gs) vs ->
     api_obj_callp addr method true vret_ptr args_addr args_size m =
     (Ok tt,
      with_host_log
        (host_log m ++ [mkHostOp addr "call_deferred" (VString method :: vs)])
        (with_counter (m_counter m + 250000) m))).
Proof.
  split.
  - enough (H : preserves m_memory
                  (api_obj_callp addr method true vret_ptr args_addr args_size))
      by exact (H m).
    unfold api_obj_callp, api_obj_callp_call. cbn [negb]. pres.
  - intros gs vs Hs Hname Hn Hmem Hlen Hdec.
    rewrite api_obj_callp_enter by assumption. cbn [after_scope_check].
    destruct (decide (8 < args_size)%nat) as [Hbig|_]; [lia|].
    unfold api_obj_callp_call.
    set (m1 := with_counter (m_counter m + 250000) m).
    erewrite bind_ok; cycle 1.
    { unfold memarray. cbn [m_memory m1 with_counter]. rewrite Hmem.
      destruct (decide (args_size <= length gs)%nat) as [_|Hc]; [reflexivity|lia]. }
    cbn [negb].
    erewrite bind_ok; cycle 1.
    { apply (map_m_toVariant_same m m1 _ _ Hdec). split; reflexivity. }
    erewrite bind_ok by (apply String_utf8_ascii; exact Hname).
    erewrite bind_ok by reflexivity. reflexivity.
Qed.

Lemma obj_callp_deferred_writes_nothing_witness :
  let m := with_scoped_object 7 (boot sample_memory) in
  api_obj_callp 7 "free" true 200 100 1 m =
  (Ok tt,
   with_host_log [mkHostOp 7 "call_deferred" [VString "free"; VInt 55]]
     (with_counter 250000 m)).
Proof.
  intros m.
  apply (proj2 (obj_callp_deferred_writes_nothing 7 "free" 200 100 1 m)
           [mkGuestVariant INT 55 []] [VInt 55]);
    [reflexivity|reflexivity|lia|reflexivity|cbn; lia|].
  repeat constructor.
Defined.

(** ** Arrays through a handle *)

Lemma array_read_modify r l m :
  (r < length (m_arrays m))%nat ->
  array_read r (with_arrays (<[r := l]> (m_arrays m)) m) = l.
Proof.
  intros H. unfold array_read. cbn. now rewrite list_lookup_insert_eq.
Qed.

Lemma array_handle_checked h r m :
  get_scoped_variant h m = Some (VArray r) ->
  is_array (get_scoped_variant h m) = true /\
  array_ref (default VNil (get_scoped_variant h m)) = r.
Proof. intros ->. split; reflexivity. Qed.

(** X8. Pushing a value at the back of a scoped array makes it the last
    element of the array behind the handle: the size that [api_array_size]
    reports grows by one, and [api_array_at] at the old size returns the
    value that was pushed. *)
Theorem array_push_back_then_read h r idx vaddr g rest v m :
  get_scoped_variant h m = Some (VArray r) ->
  (r < length (m_arrays m))%nat ->
  m_memory m !! vaddr = Some (CVariants (g :: rest)) ->
  toVariant g m = (Ok v, m) ->
  exists m1,
    api_array_ops Array_PUSH_BACK h idx vaddr m = (Ok tt, m1) /\
    array_read r m1 = array_read r m ++ [v] /\
    api_array_size h m1 =
      (Ok tt, with_a0 (Z.of_nat (length (array_read r m)) + 1) m1) /\
    forall vret,
      api_array_at h (Z.of_nat (length (array_read r m))) vret m1 =
      gv_set vret 0 v false m1.
Proof.
  intros Hh Hr Hmem Hv.
  destruct (array_handle_checked h r m Hh) as [Hia Href].
  set (old := array_read r m).
  set (m1 := with_arrays (<[r := old ++ [v]]> (m_arrays m)) m).
  assert (Hh1 : get_scoped_variant h m1 = Some (VArray r)) by exact Hh.
  assert (Hread : array_read r m1 = old ++ [v]) by (apply array_read_modify; exact Hr).
  destruct (array_handle_checked h r m1 Hh1) as [Hia1 Href1].
  exists m1. split; [|split; [exact Hread|split]].
  - unfold api_array_ops. erewrite bind_ok by reflexivity.
    rewrite Hia, Href. cbn [negb].
    erewrite bind_ok by (eapply load_head; exact Hmem).
    erewrite bind_ok by exact Hv. reflexivity.
  - unfold api_array_size. erewrite bind_ok by reflexivity.
    rewrite Hia1, Href1. cbn [negb].
    erewrite bind_ok by reflexivity. rewrite Hread.
    rewrite length_app. cbn [length]. unfold set_result, modify.
    do 2 f_equal. lia.
  - intros vret. unfold api_array_at. erewrite bind_ok by reflexivity.
    rewrite Hia1, Href1. cbn [negb].
    erewrite bind_ok by reflexivity. rewrite Hread.
    rewrite length_app. cbn [length].
    replace (Z.of_nat (length old) <? 0) with false by (symmetry; apply Z.ltb_ge; lia).
    replace (Z.of_nat (length old + 1) <=? Z.of_nat (length old)) with false
      by (symmetry; apply Z.leb_gt; lia).
    cbn [orb]. rewrite Nat2Z.id.
    rewrite lookup_app_r by lia. rewrite Nat.sub_diag. reflexivity.
Qed.

(** A sandbox in which the guest created an empty array; its handle is 0. *)
Lemma array_push_back_then_read_witness :
  let m := (api_vcreate 200 ARRAY 0 0 (boot sample_memory)).2 in
  exists m1,
    api_array_ops Array_PUSH_BACK 0 0 100 m = (Ok tt, m1) /\
    array_read 0 m1 = [VInt 55] /\
    api_array_size 0 m1 = (Ok tt, with_a0 1 m1) /\
    forall vret, api_array_at 0 0 vret m1 = gv_set vret 0 (VInt 55) false m1.
Proof.
  intros m.
  apply (array_push_back_then_read 0 0 0 100 (mkGuestVariant INT 55 []) []
           (VInt 55) m);
    [reflexivity|vm_compute; lia|reflexivity|reflexivity].
Defined.

(** X9. [api_array_at] checks the index against the size of the array: a
    negative index and an index at or beyond the size throw, and nothing
    but the error log changes; so every index is refused on an empty
    array. *)
Theorem array_at_out_of_bounds h r idx vret m :
  get_scoped_variant h m = Some (VArray r) ->
  idx < 0 \/ Z.of_nat (length (array_read r m)) <= idx ->
  api_array_at h idx vret m =
  (Throw (runtime_error "Array index out of bounds"),
   with_err_log (err_log m ++ ["Array index out of bounds"]) m).
Proof.
  intros Hh Hidx. unfold api_array_at. erewrite bind_ok by reflexivity.
  destruct (array_handle_checked h r m Hh) as [Hia Href].
  rewrite Hia, Href. cbn [negb].
  erewrite bind_ok by reflexivity.
  assert (Hc : (idx <? 0) || (Z.of_nat (length (array_read r m)) <=? idx) = true).
  { apply orb_true_iff. destruct Hidx as [H|H];
      [left; now apply Z.ltb_lt|right; now apply Z.leb_le]. }
  rewrite Hc. reflexivity.
Qed.

Lemma array_at_out_of_bounds_witness :
  let m := (api_vcreate 200 ARRAY 0 0 (boot sample_memory)).2 in
  api_array_at 0 0 200 m =
  (Throw (runtime_error "Array index out of bounds"),
   with_err_log (err_log m ++ ["Array index out of bounds"]) m).
Proof.
  intros m. apply (array_at_out_of_bounds 0 0 0 200 m); [reflexivity|].
  right. vm_compute. discriminate.
Defined.

(** ** Dictionaries through a handle *)

Lemma dict_handle_checked d ref m :
  get_scoped_variant d m = Some (VDictionary ref) ->
  is_dictionary (get_scoped_variant d m) = true /\
  dict_ref (default VNil (get_scoped_variant d m)) = ref.
Proof. intros ->. split; reflexivity. Qed.

Lemma dict_find_erase d k : dict_find (dict_erase d k) k = None.
Proof.
  unfold dict_erase. induction d as [|[k' v'] d IH]; [reflexivity|].
  rewrite filter_cons. cbn [fst].
  destruct (decide (k' ≠ k)) as [Hne|Heq]; [|exact IH].
  cbn. rewrite decide_False by exact Hne. exact IH.
Qed.

Lemma dict_set_length d k v :
  length (dict_set d k v) =
  match dict_find d k with
  | Some _ => length d
  | None => S (length d)
  end.
Proof.
  induction d as [|[k' v'] d IH]; cbn; [reflexivity|].
  destruct (decide (k' = k)); cbn; [reflexivity|].
  rewrite IH. now destruct (dict_find d k).
Qed.

(** [HAS] and [ERASE] on a scoped dictionary. *)
Lemma dictionary_has_step d ref vkey vaddr key rest_k kv m :
  get_scoped_variant d m = Some (VDictionary ref) ->
  m_memory m !! vkey = Some (CVariants (key :: rest_k)) ->
  toVariant key m = (Ok kv, m) ->
  api_dict_ops Dictionary_HAS d vkey vaddr m =
  (Ok tt,
   with_a0 (bool_result (bool_decide (is_Some (dict_find (dict_read ref m) kv)))) m).
Proof.
  intros Hd Hk Hkv. destruct (dict_handle_checked d ref m Hd) as [Hid Href].
  unfold api_dict_ops. erewrite bind_ok by reflexivity.
  rewrite Hid, Href. cbn [negb].
  erewrite bind_ok by (eapply load_head; exact Hk).
  erewrite bind_ok by exact Hkv.
  erewrite bind_ok by reflexivity. reflexivity.
Qed.

Lemma dictionary_erase_step d ref vkey vaddr key rest_k kv m :
  get_scoped_variant d m = Some (VDictionary ref) ->
  m_memory m !! vkey = Some (CVariants (key :: rest_k)) ->
  toVariant key m = (Ok kv, m) ->
  api_dict_ops Dictionary_ERASE d vkey vaddr m =
  dict_modify ref (fun D => dict_erase D kv) m.
Proof.
  intros Hd Hk Hkv. destruct (dict_handle_checked d ref m Hd) as [Hid Href].
  unfold api_dict_ops. erewrite bind_ok by reflexivity.
  rewrite Hid, Href. cbn [negb].
  erewrite bind_ok by (eapply load_head; exact Hk).
  erewrite bind_ok by exact Hkv. reflexivity.
Qed.

Lemma dictionary_size_step d ref vkey vaddr m :
  get_scoped_variant d m = Some (VDictionary ref) ->
  api_dict_ops Dictionary_GET_SIZE d vkey vaddr m =
  (Ok tt, with_a0 (Z.of_nat (length (dict_read ref m))) m).
Proof.
  intros Hd. destruct (dict_handle_checked d ref m Hd) as [Hid Href].
  unfold api_dict_ops. erewrite bind_ok by reflexivity.
  rewrite Hid, Href. cbn [negb].
  erewrite bind_ok by reflexivity. reflexivity.
Qed.

(** X10. Through the handle of a scoped dictionary: after a SET of a key,
    HAS of that key answers 1 and the size has grown by one exactly when
    the key was new; after an ERASE of the key, HAS answers 0. *)
Theorem dictionary_set_has_erase
    d ref vkey vval vaddr key rest_k value rest_v kv vv m :
  get_scoped_variant d m = Some (VDictionary ref) ->
  (ref < length (m_dicts m))%nat ->
  m_memory m !! vkey = Some (CVariants (key :: rest_k)) ->
  m_memory m !! vval = Some (CVariants (value :: rest_v)) ->
  toVariant key m = (Ok kv, m) ->
  toVariant value m = (Ok vv, m) ->
  exists m1 m2,
    api_dict_ops Dictionary_SET d vkey vval m = (Ok tt, m1) /\
    api_dict_ops Dictionary_HAS d vkey vaddr m1 = (Ok tt, with_a0 1 m1) /\
    api_dict_ops Dictionary_GET_SIZE d vkey vaddr m1 =
      (Ok tt,
       with_a0 (Z.of_nat (length (dict_read ref m)) +
                match dict_find (dict_read ref m) kv with
                | Some _ => 0
                | None => 1
                end) m1) /\
    api_dict_ops Dictionary_ERASE d vkey vaddr m1 = (Ok tt, m2) /\
    api_dict_ops Dictionary_HAS d vkey vaddr m2 = (Ok tt, with_a0 0 m2).
Proof.
  intros Hd Href Hk Hv Hkv Hvv.
  set (D0 := dict_read ref m).
  set (m1 := with_dicts (<[ref := dict_set D0 kv vv]> (m_dicts m)) m).
  assert (Hs1 : same_scope m m1) by (split; reflexivity).
  assert (Hd1 : get_scoped_variant d m1 = Some (VDictionary ref)) by exact Hd.
  assert (Hk1 : m_memory m1 !! vkey = Some (CVariants (key :: rest_k))) by exact Hk.
  assert (Hkv1 : toVariant key m1 = (Ok kv, m1))
    by exact (toVariant_same _ _ _ _ Hs1 Hkv).
  assert (Hr1 : dict_read ref m1 = dict_set D0 kv vv)
    by (apply (dict_read_modify ref _ m Href)).
  set (m2 := with_dicts (<[ref := dict_erase (dict_set D0 kv vv) kv]> (m_dicts m1)) m1).
  assert (Hs2 : same_scope m m2) by (split; reflexivity).
  assert (Href1 : (ref < length (m_dicts m1))%nat)
    by (cbn; now rewrite length_insert).
  assert (Hr2 : dict_read ref m2 = dict_erase (dict_set D0 kv vv) kv)
    by (apply (dict_read_modify ref _ m1 Href1)).
  exists m1, m2. repeat split.
  - erewrite dictionary_set_step by eassumption. reflexivity.
  - erewrite dictionary_has_step by eassumption.
    rewrite Hr1, dict_find_set_eq.
    rewrite bool_decide_true by (eexists; reflexivity). reflexivity.
  - erewrite dictionary_size_step by eassumption.
    rewrite Hr1, dict_set_length. fold D0.
    destruct (dict_find D0 kv); do 2 f_equal; lia.
  - erewrite dictionary_erase_step by eassumption.
    unfold dict_modify, modify. rewrite Hr1. reflexivity.
  - erewrite dictionary_has_step;
      [|exact Hd|exact Hk|exact (toVariant_same _ _ _ _ Hs2 Hkv)].
    rewrite Hr2, dict_find_erase.
    rewrite bool_decide_false by (intros [x Hx]; discriminate). reflexivity.
Qed.

Lemma dictionary_set_has_erase_witness :
  exists m1 m2,
    api_dict_ops Dictionary_SET 0 100 120 with_dictionary = (Ok tt, m1) /\
    api_dict_ops Dictionary_HAS 0 100 0 m1 = (Ok tt, with_a0 1 m1) /\
    api_dict_ops Dictionary_GET_SIZE 0 100 0 m1 = (Ok tt, with_a0 (0 + 1) m1) /\
    api_dict_ops Dictionary_ERASE 0 100 0 m1 = (Ok tt, m2) /\
    api_dict_ops Dictionary_HAS 0 100 0 m2 = (Ok tt, with_a0 0 m2).
Proof.
  apply (dictionary_set_has_erase 0 0 100 120 0
           (mkGuestVariant INT 55 []) [] (mkGuestVariant INT 7 []) []
           (VInt 55) (VInt 7) with_dictionary);
    first [reflexivity | (vm_compute; lia)].
Defined.

(** ** Local copies *)

(** X11. [String_Op::APPEND] extends a local copy of the string only: the
    call changes neither the scoped string nor anything else of the sandbox
    but the error log, whether it returns or throws; with a string handle
    and a value that decodes, it returns and the sandbox is exactly as
    before. *)
Theorem string_append_is_discarded str_idx index vaddr m :
  untouched m (api_string_ops String_APPEND str_idx index vaddr m).2 /\
  m_counter (api_string_ops String_APPEND str_idx index vaddr m).2 = m_counter m /\
  (forall s g rest v,
     get_scoped_variant str_idx m = Some (VString s) ->
     m_memory m !! vaddr = Some (CVariants (g :: rest)) ->
     toVariant g m = (Ok v, m) ->
     api_string_ops String_APPEND str_idx index vaddr m = (Ok tt, m)).
Proof.
  split; [|split].
  - unfold untouched, api_string_ops. repeat split; by_frame.
  - unfold api_string_ops. by_frame.
  - intros s g rest v Hs Hmem Hv. unfold api_string_ops.
    erewrite bind_ok by reflexivity. rewrite Hs. cbn [is_string get_type negb].
    rewrite bool_decide_true by reflexivity. cbn [negb].
    erewrite bind_ok by (eapply load_head; exact Hmem).
    erewrite bind_ok by exact Hv. reflexivity.
Qed.

(** A sandbox in which the guest created the string [ab]; its handle is 0. *)
Lemma string_append_is_discarded_witness :
  let m := (api_string_create "ab" (boot sample_memory)).2 in
  api_string_ops String_APPEND 0 0 100 m = (Ok tt, m) /\
  api_string_size 0 m = (Ok tt, with_a0 2 m).
Proof.
  intros m. split; [|reflexivity].
  destruct (string_append_is_discarded 0 0 100 m) as (_ & _ & H).
  apply (H "ab" (mkGuestVariant INT 55 []) [] (VInt 55)); reflexivity.
Defined.

(** X12. [api_vstore] copies the guest data into a local copy of the packed
    array: whatever the handle, the address and the size, the call changes
    nothing of the sandbox but the instruction counter and the error log;
    the scoped variant and guest memory are as before. *)
Theorem vstore_changes_no_variant index gdata gsize m :
  untouched m (api_vstore index gdata gsize m).2 /\
  forall h, get_scoped_variant h (api_vstore index gdata gsize m).2
            = get_scoped_variant h m.
Proof.
  assert (Hs : m_states (api_vstore index gdata gsize m).2 = m_states m)
    by (unfold api_vstore; by_frame).
  assert (Hc : m_current_state (api_vstore index gdata gsize m).2 = m_current_state m)
    by (unfold api_vstore; by_frame).
  split.
  - unfold untouched. repeat split; try exact Hs; unfold api_vstore; by_frame.
  - intros h. apply get_scoped_variant_same. split; assumption.
Qed.

(** ** Relations kept by every step *)

Section Steps.
Context (R : Sandbox -> Sandbox -> Prop).
Context (R_refl : Reflexive R) (R_trans : Transitive R).

Lemma steps_ret {A} (a : A) : steps R (ret a).
Proof. intros m. cbn. reflexivity. Qed.

Lemma steps_throw {A} e : steps R (@throw A e).
Proof. intros m. cbn. reflexivity. Qed.

Lemma steps_gets {A} (g : Sandbox -> A) : steps R (gets g).
Proof. intros m. cbn. reflexivity. Qed.

Lemma steps_bind {A B} (c : M A) (k : A -> M B) :
  steps R c -> (forall a, steps R (k a)) -> steps R (bind c k).
Proof.
  intros Hc Hk m. unfold bind. specialize (Hc m).
  destruct (c m) as [[a|e] m']; cbn in *.
  - etransitivity; [exact Hc|apply Hk].
  - exact Hc.
Qed.

Lemma steps_for_each {A} (l : list A) (body : A -> M unit) :
  (forall x, steps R (body x)) -> steps R (for_each l body).
Proof.
  intros H. induction l as [|x l IH]; cbn.
  - apply steps_ret.
  - apply steps_bind; [apply H|intros _; exact IH].
Qed.

Lemma steps_map_m {A B} (g : A -> M B) (l : list A) :
  (forall x, steps R (g x)) -> steps R (map_m g l).
Proof.
  intros H. induction l as [|x l IH]; cbn.
  - apply steps_ret.
  - apply steps_bind; [apply H|intros y].
    apply steps_bind; [exact IH|intros ys; apply steps_ret].
Qed.

End Steps.

#[local] Instance capabilities_kept_refl : Reflexive capabilities_kept.
Proof. intros m. split; auto. Qed.

#[local] Instance capabilities_kept_trans : Transitive capabilities_kept.
Proof. intros m1 m2 m3 [Ha Hb] [Hc Hd]. split; auto. Qed.

#[local] Instance other_arrays_kept_refl r' : Reflexive (other_arrays_kept r').
Proof. intros m. split; auto. Qed.

#[local] Instance other_arrays_kept_trans r' : Transitive (other_arrays_kept r').
Proof.
  intros m1 m2 m3 [Ha Hb] [Hc Hd]. split; [lia|].
  intros r Hr Hlt. rewrite Hd by (trivial; lia). now apply Hb.
Qed.

Lemma capabilities_kept_frame {A} (c : M A) :
  preserves m_states c -> preserves m_current_state c ->
  steps capabilities_kept c.
Proof.
  intros Hs Hc m.
  assert (Hsame : same_scope m (c m).2) by (split; [apply Hs|apply Hc]).
  split.
  - intros a. now rewrite (is_scoped_object_same a _ _ Hsame).
  - intros h v. now rewrite (get_scoped_variant_same h _ _ Hsame).
Qed.

Lemma set_state_invalid st m :
  ~ state_valid m -> m_states (set_state st m) = m_states m.
Proof.
  unfold state_valid, set_state. intros H. cbn. apply list_insert_ge. lia.
Qed.

Lemma capabilities_kept_set_state st m :
  scoped_objects st = scoped_objects (state m) ->
  (forall h v, scoped_variants (state m) !! h ≫= deref (state m) = Some v ->
               scoped_variants st !! h ≫= deref st = Some v) ->
  capabilities_kept m (set_state st m).
Proof.
  intros Ho Hv. destruct (decide (state_valid m)) as [Hval|Hinv].
  - split.
    + intros a. unfold is_scoped_object.
      now rewrite (state_set_state st m Hval), Ho.
    + intros h v. unfold get_scoped_variant.
      rewrite (state_set_state st m Hval). apply Hv.
  - assert (Hsame : same_scope m (set_state st m))
      by (split; [now apply set_state_invalid|reflexivity]).
    split.
    + intros a. now rewrite (is_scoped_object_same a _ _ Hsame).
    + intros h v. now rewrite (get_scoped_variant_same h _ _ Hsame).
Qed.

Lemma deref_grows vs ss p w v o o' :
  deref (mkCurrentState vs ss o) p = Some w ->
  forall ss', deref (mkCurrentState (vs ++ [v]) ss' o') p = Some w.
Proof.
  destruct p as [i|x]; cbn; [|trivial].
  intros H ss'. now apply lookup_app_l_Some.
Qed.

Lemma steps_add_scoped_object a : steps capabilities_kept (add_scoped_object a).
Proof.
  intros m. unfold add_scoped_object, modify. cbn.
  split.
  - intros b. apply add_scoped_object_keeps.
  - intros h v. unfold get_scoped_variant.
    destruct (decide (state_valid m)) as [Hval|Hinv].
    + rewrite (state_set_state _ m Hval). cbn.
      destruct (state m) as [vs ss os]. cbn. trivial.
    + intros H. apply get_scoped_variant_valid in H. contradiction.
Qed.

Lemma steps_create_scoped_variant v :
  steps capabilities_kept (create_scoped_variant v).
Proof.
  intros m. unfold create_scoped_variant. cbn.
  apply capabilities_kept_set_state; [reflexivity|].
  intros h w. cbn. destruct (state m) as [vs ss os]. cbn.
  destruct (ss !! h) as [p|] eqn:E; cbn; [|discriminate].
  intros H. rewrite (lookup_app_l_Some _ _ _ _ E). cbn.
  eapply deref_grows. exact H.
Qed.

Lemma steps_add_scoped_variant v :
  steps capabilities_kept (add_scoped_variant v).
Proof.
  intros m. unfold add_scoped_variant. cbn.
  apply capabilities_kept_set_state; [reflexivity|].
  intros h w. cbn. destruct (state m) as [vs ss os]. cbn.
  destruct (ss !! h) as [p|] eqn:E; cbn; [|discriminate].
  intros H. rewrite (lookup_app_l_Some _ _ _ _ E). cbn.
  destruct p; exact H.
Qed.

Lemma other_arrays_kept_frame {A} r' (c : M A) :
  preserves m_arrays c -> steps (other_arrays_kept r') c.
Proof.
  intros H m. unfold other_arrays_kept, array_read. rewrite (H m). auto.
Qed.

Lemma steps_array_modify r' f : steps (other_arrays_kept r') (array_modify r' f).
Proof.
  intros m. unfold array_modify, modify, other_arrays_kept, array_read. cbn.
  rewrite length_insert. split; [lia|].
  intros r Hr _. now rewrite list_lookup_insert_ne by congruence.
Qed.

Lemma steps_new_array r' l : steps (other_arrays_kept r') (new_array l).
Proof.
  intros m. unfold new_array, other_arrays_kept, array_read. cbn.
  rewrite length_app. split; [lia|].
  intros r _ Hlt. now rewrite lookup_app_l by exact Hlt.
Qed.

Ltac steps_leaf :=
  match goal with
  | |- steps capabilities_kept (add_scoped_object _) => apply steps_add_scoped_object
  | |- steps capabilities_kept (create_scoped_variant _) =>
      apply steps_create_scoped_variant
  | |- steps capabilities_kept (add_scoped_variant _) =>
      apply steps_add_scoped_variant
  | |- steps capabilities_kept _ => apply capabilities_kept_frame; pres_leaf
  | |- steps (other_arrays_kept _) (array_modify _ _) => apply steps_array_modify
  | |- steps (other_arrays_kept _) (new_array _) => apply steps_new_array
  | |- steps (other_arrays_kept _) _ => apply other_arrays_kept_frame; pres_leaf
  end.

Ltac steps_step :=
  match goal with
  | |- steps _ (bind _ _) => apply steps_bind; [exact _| |intros ?]
  | |- steps _ (ret _) => apply steps_ret; exact _
  | |- steps _ (throw _) => apply steps_throw; exact _
  | |- steps _ (gets _) => apply steps_gets; exact _
  | |- steps _ (for_each _ _) => apply steps_for_each; [exact _|exact _|intros ?]
  | |- steps _ (map_m _ _) => apply steps_map_m; [exact _|exact _|intros ?]
  | |- steps _ (let _ := _ in _) => cbv zeta
  | |- steps _ (match ?x with _ => _ end) => destruct x
  | |- _ => solve [steps_leaf]
  end.

Ltac steps_all :=
  unfold fetch_name_list, gv_set, gv_create, gv_assign, load, duplicate,
    read_std_string, read_std_u32string, read_variant_vector,
    read_scalar_vector, memarray_raw;
  unfold toVariant, encode;
  unfold get_object_from_address, get_node_from_address, host_call1;
  repeat steps_step.

(** ** Capabilities are never taken back *)

(** X13. No modelled handler revokes a capability of the current scope: after any
    call, whether it returned or threw, every address that was in the scope
    is still in it, and every handle that named a value still names that
    value. In particular the address of a node stays in the scope after
    [QUEUE_FREE] was called on it. *)
Theorem handlers_keep_capabilities c m :
  (forall a, is_scoped_object a m = true ->
             is_scoped_object a (handler c m).2 = true) /\
  (forall h v, get_scoped_variant h m = Some v ->
               get_scoped_variant h (handler c m).2 = Some v).
Proof.
  enough (H : steps capabilities_kept (handler c)) by exact (H m).
  destruct c; cbn [handler];
    unfold api_print, api_veval, api_vcreate, api_vfetch, api_vclone,
      api_vstore, api_vfree, api_get_obj, api_obj, api_obj_callp,
      api_get_node, api_node_create, api_node, api_node2d, api_node3d,
      api_array_ops, api_array_at, api_array_size, api_dict_ops,
      api_string_create, api_string_ops, api_string_at, api_string_size,
      api_timer_periodic, api_timer_stop,
      api_obj_switch, api_obj_callp_call, api_node_switch,
      api_node2d_switch, api_node3d_switch;
    steps_all.
Qed.

Lemma handlers_keep_capabilities_witness :
  let m := with_scoped_object 7 (boot sample_memory) in
  exists m',
    handler (Call_node Node_QUEUE_FREE 7 0) m = (Ok tt, m') /\
    host_log m' = [mkHostOp 7 "queue_free" []] /\
    is_scoped_object 7 m' = true.
Proof.
  intros m. eexists. split; [reflexivity|]. split; [reflexivity|].
  apply (proj1 (handlers_keep_capabilities (Call_node Node_QUEUE_FREE 7 0) m) 7).
  reflexivity.
Defined.

(** ** Arrays are shared by reference *)

Lemma api_array_ops_steps op h r' idx vaddr m :
  get_scoped_variant h m = Some (VArray r') ->
  other_arrays_kept r' m (api_array_ops op h idx vaddr m).2.
Proof.
  intros Hh.
  destruct (array_handle_checked h r' m Hh) as [Hia Href].
  unfold api_array_ops. erewrite bind_ok by reflexivity.
  rewrite Hia, Href. cbn [negb].
  match goal with
  | |- other_arrays_kept r' m (snd (?c m)) =>
      assert (Hst : steps (other_arrays_kept r') c)
  end.
  { destruct op; steps_all. }
  apply (Hst m).
Qed.

(** X14. An array operation through a handle changes only the array that
    the handle names: whatever the operation, and whether it returns or
    throws, every other array of the engine has the contents it had. *)
Theorem array_ops_touch_one_array op h r' idx vaddr m :
  get_scoped_variant h m = Some (VArray r') ->
  forall r, r <> r' -> (r < length (m_arrays m))%nat ->
    array_read r (api_array_ops op h idx vaddr m).2 = array_read r m.
Proof.
  intros Hh r Hr Hlt.
  apply (api_array_ops_steps op h r' idx vaddr m Hh); assumption.
Qed.

(** Two arrays created by the guest, with handles 0 and 1: a push onto the
    second leaves the first as it is. *)
Lemma array_ops_touch_one_array_witness :
  let m0 := (api_vcreate 200 ARRAY 0 0 (boot sample_memory)).2 in
  let m1 := (api_array_ops Array_PUSH_BACK 0 0 100 m0).2 in
  let m := (api_vcreate 200 ARRAY 0 0 m1).2 in
  array_read 0 m = [VInt 55] /\
  array_read 0 (api_array_ops Array_PUSH_BACK 1 0 100 m).2 = [VInt 55] /\
  array_read 1 (api_array_ops Array_PUSH_BACK 1 0 100 m).2 = [VInt 55].
Proof.
  intros m0 m1 m. split; [reflexivity|]. split; [|reflexivity].
  rewrite (array_ops_touch_one_array Array_PUSH_BACK 1 1 0 100 m);
    [reflexivity|reflexivity|discriminate|vm_compute; lia].
Defined.

Lemma create_scoped_variant_get v m :
  state_valid m ->
  get_scoped_variant (length (scoped_variants (state m)))
    (create_scoped_variant v m).2 = Some v.
Proof.
  intros Hval. unfold get_scoped_variant, create_scoped_variant. cbn.
  rewrite (state_set_state _ m Hval). cbn.
  rewrite lookup_app_r by lia. rewrite Nat.sub_diag. cbn.
  rewrite lookup_app_r by lia. now rewrite Nat.sub_diag.
Qed.

(** X15. Cloning the handle of an array gives a new handle to a new array
    with the same elements: the result slot receives the kind ARRAY and
    the next free handle, that handle names an array other than the
    original, with the original's contents, and no array operation through
    the new handle changes the original. *)
Theorem vclone_array_is_a_fresh_copy vp vret g rest r gr restr m :
  m_memory m !! vp = Some (CVariants (g :: rest)) ->
  get_scoped_variant (u32 (v_i g)) m = Some (VArray r) ->
  (r < length (m_arrays m))%nat ->
  m_memory m !! vret = Some (CVariants (gr :: restr)) ->
  let h := length (scoped_variants (state m)) in
  let r' := length (m_arrays m) in
  exists m1,
    api_vclone vp vret m = (Ok tt, m1) /\
    m_memory m1 !! vret =
      Some (CVariants (mkGuestVariant ARRAY (Z.of_nat h) [] :: restr)) /\
    get_scoped_variant h m1 = Some (VArray r') /\
    array_read r' m1 = array_read r m /\
    array_read r m1 = array_read r m /\
    forall op idx vaddr,
      array_read r (api_array_ops op h idx vaddr m1).2 = array_read r m.
Proof.
  intros Hvp Hh Hr Hvret h r'.
  pose proof (get_scoped_variant_valid _ _ _ Hh) as Hval.
  set (ma := with_counter (m_counter m + 10000) m).
  set (mb := with_arrays (m_arrays ma ++ [array_read r ma]) ma).
  assert (Hvalb : state_valid mb) by exact Hval.
  set (mc := (create_scoped_variant (VArray r') mb).2).
  set (m1 := with_memory
               (<[vret := CVariants (mkGuestVariant ARRAY (Z.of_nat h) [] :: restr)]>
                  (m_memory mc)) mc).
  assert (Hrun : api_vclone vp vret m = (Ok tt, m1)).
  { unfold api_vclone. erewrite bind_ok by reflexivity.
    erewrite bind_ok by (eapply load_head; exact Hvp).
    erewrite bind_ok by reflexivity.
    change (get_scoped_variant (u32 (v_i g)) (with_counter (m_counter m + 10000) m))
      with (get_scoped_variant (u32 (v_i g)) m).
    rewrite Hh. cbn [duplicate get_type].
    erewrite bind_ok by reflexivity.
    erewrite bind_ok by reflexivity.
    unfold gv_assign. erewrite store_variant_head by exact Hvret.
    reflexivity. }
  assert (Hh1 : get_scoped_variant h m1 = Some (VArray r'))
    by (apply (create_scoped_variant_get (VArray r') mb Hvalb)).
  assert (Hr' : array_read r' m1 = array_read r m).
  { unfold array_read. cbn. rewrite lookup_app_r by (unfold r'; lia).
    unfold r'. now rewrite Nat.sub_diag. }
  assert (Hr1 : array_read r m1 = array_read r m).
  { unfold array_read. cbn. now rewrite lookup_app_l by exact Hr. }
  exists m1. split; [exact Hrun|]. split; [apply lookup_insert_eq|].
  split; [exact Hh1|]. split; [exact Hr'|]. split; [exact Hr1|].
  intros op idx vaddr. rewrite <- Hr1.
  apply (api_array_ops_steps op h r' idx vaddr m1 Hh1).
  - unfold r'. lia.
  - cbn. rewrite length_app. lia.
Qed.

Lemma vclone_array_is_a_fresh_copy_witness :
  let m0 := (api_vcreate 200 ARRAY 0 0 (boot sample_memory)).2 in
  let m := (api_array_ops Array_PUSH_BACK 0 0 100 m0).2 in
  exists m1,
    api_vclone 200 200 m = (Ok tt, m1) /\
    m_memory m1 !! 200 = Some (CVariants [mkGuestVariant ARRAY 1 []]) /\
    get_scoped_variant 1 m1 = Some (VArray 1) /\
    array_read 1 m1 = [VInt 55] /\
    array_read 0 m1 = [VInt 55] /\
    forall op idx vaddr,
      array_read 0 (api_array_ops op 1 idx vaddr m1).2 = [VInt 55].
Proof.
  intros m0 m.
  apply (vclone_array_is_a_fresh_copy 200 200 (mkGuestVariant ARRAY 0 []) []
           0 (mkGuestVariant ARRAY 0 []) [] m);
    [reflexivity|reflexivity|vm_compute; lia|reflexivity].
Defined.

(** ** Strings through a handle *)

Lemma ascii_text_code_points s :
  ascii_text s = true -> code_points s = bytes_of s.
Proof.
  unfold ascii_text, code_points.
  induction (bytes_of s) as [|b l IH]; [reflexivity|].
  cbn [forallb decode_utf8]. intros H.
  apply andb_true_iff in H as [Hb Hl]. apply andb_true_iff in Hb as [_ Hb].
  rewrite Hb. f_equal. exact (IH Hl).
Qed.

Lemma length_bytes_of s : length (bytes_of s) = String.length s.
Proof. induction s as [|c s IH]; cbn; [reflexivity|]. now rewrite IH. Qed.

(** X16. Text of 7-bit characters created from a guest [std::string] is
    read back unchanged: [api_vcreate] with method 0 and one of the kinds
    STRING, STRING_NAME and NODE_PATH decodes the bytes, stores the text as
    a STRING value under the next free handle and writes the requested
    kind and that handle to the guest variant; [api_vfetch] of the handle
    with method 0 then stores the same bytes at any mapped address. *)
Theorem vcreate_string_then_vfetch vp t gdata s g0 rest m :
  t = STRING \/ t = STRING_NAME \/ t = NODE_PATH ->
  ascii_text s = true ->
  state_valid m ->
  m_memory m !! gdata = Some (CStdString s) ->
  m_memory m !! vp = Some (CVariants (g0 :: rest)) ->
  let h := length (scoped_variants (state m)) in
  exists m1,
    api_vcreate vp t 0 gdata m = (Ok tt, m1) /\
    m_memory m1 !! vp = Some (CVariants (mkGuestVariant t (Z.of_nat h) [] :: rest)) /\
    get_scoped_variant h m1 = Some (VString s) /\
    forall gout, is_Some (m_memory m1 !! gout) ->
      exists m2,
        api_vfetch h gout 0 m1 = (Ok tt, m2) /\
        m_memory m2 !! gout = Some (CStdString s).
Proof.
  intros Ht Hascii Hval Hdata Hvp h.
  set (ma := with_counter (m_counter m + 10000) m).
  assert (Hvala : state_valid ma) by exact Hval.
  set (mb := (create_scoped_variant (VString s) ma).2).
  set (m1 := with_memory
               (<[vp := CVariants (mkGuestVariant t (Z.of_nat h) [] :: rest)]>
                  (m_memory mb)) mb).
  assert (Hread : (str <- read_std_string gdata ;; String_utf8 str) ma = (Ok s, ma)).
  { erewrite bind_ok; [apply String_utf8_ascii; exact Hascii|].
    unfold read_std_string, memarray_cell, bind. cbn. now rewrite Hdata. }
  assert (Hrun : api_vcreate vp t 0 gdata m = (Ok tt, m1)).
  { unfold api_vcreate. erewrite bind_ok by reflexivity. fold ma.
    destruct Ht as [-> | [-> | ->]];
      rewrite bool_decide_true by reflexivity;
      (erewrite bind_ok by exact Hread);
      (erewrite bind_ok by reflexivity);
      unfold gv_assign; (erewrite store_variant_head by exact Hvp);
      reflexivity. }
  assert (Hh1 : get_scoped_variant h m1 = Some (VString s))
    by (apply (create_scoped_variant_get (VString s) ma Hvala)).
  exists m1. split; [exact Hrun|]. split; [apply lookup_insert_eq|].
  split; [exact Hh1|].
  intros gout [c Hc]. eexists. split.
  - unfold api_vfetch. erewrite bind_ok by reflexivity.
    erewrite bind_ok by reflexivity.
    change (get_scoped_variant h (with_counter (m_counter m1 + 10000) m1))
      with (get_scoped_variant h m1).
    rewrite Hh1. cbn [get_type]. rewrite bool_decide_true by reflexivity.
    erewrite bind_ok; [reflexivity|].
    unfold memarray_cell. cbn [m_memory with_counter]. rewrite Hc. reflexivity.
  - cbn. apply lookup_insert_eq.
Qed.

(** Guest memory with the [std::string] [hi] at 300, a variant at 200. *)
Lemma vcreate_string_then_vfetch_witness :
  let m := boot (<[300 := CStdString "hi"]> sample_memory) in
  exists m1,
    api_vcreate 200 NODE_PATH 0 300 m = (Ok tt, m1) /\
    m_memory m1 !! 200 = Some (CVariants [mkGuestVariant NODE_PATH 0 []]) /\
    get_scoped_variant 0 m1 = Some (VString "hi") /\
    forall gout, is_Some (m_memory m1 !! gout) ->
      exists m2,
        api_vfetch 0 gout 0 m1 = (Ok tt, m2) /\
        m_memory m2 !! gout = Some (CStdString "hi").
Proof.
  intros m.
  apply (vcreate_string_then_vfetch 200 NODE_PATH 300 "hi" nil_variant [] m);
    [right; right; reflexivity|reflexivity|vm_compute; lia|reflexivity|reflexivity].
Defined.

Lemma string_handle_checked h s m :
  get_scoped_variant h m = Some (VString s) ->
  is_string (get_scoped_variant h m) = true /\
  as_string (default VNil (get_scoped_variant h m)) = s.
Proof. intros ->. split; reflexivity. Qed.

(** X17. [api_string_at] checks the index against the length of the
    string, counted in code points: a negative index and an index at or
    beyond the length throw, and nothing but the error log changes. An
    index within the string creates an INT value that holds the code point
    at the index, under the next free handle, and returns that handle; the
    string keeps its handle and its length. *)
Theorem string_at_bounds h s index m :
  get_scoped_variant h m = Some (VString s) ->
  (index < 0 \/ Z.of_nat (String_length s) <= index ->
   api_string_at h index m =
   (Throw (runtime_error "String index out of bounds"),
    with_err_log (err_log m ++ ["String index out of bounds"]) m)) /\
  (0 <= index < Z.of_nat (String_length s) ->
   exists m1,
     api_string_at h index m = (Ok tt, m1) /\
     m_a0 m1 = Z.of_nat (length (scoped_variants (state m))) /\
     get_scoped_variant (length (scoped_variants (state m))) m1
       = Some (VInt (char_at s index)) /\
     api_string_size h m1 = (Ok tt, with_a0 (Z.of_nat (String_length s)) m1)).
Proof.
  intros Hh. destruct (string_handle_checked h s m Hh) as [His Hstr].
  pose proof (get_scoped_variant_valid _ _ _ Hh) as Hval.
  split.
  - intros Hidx. unfold api_string_at. erewrite bind_ok by reflexivity.
    rewrite His, Hstr. cbn [negb].
    assert (Hc : (index <? 0) || (Z.of_nat (String_length s) <=? index) = true).
    { apply orb_true_iff. destruct Hidx as [H|H];
        [left; now apply Z.ltb_lt|right; now apply Z.leb_le]. }
    rewrite Hc. reflexivity.
  - intros Hidx.
    set (mb := (create_scoped_variant (VInt (char_at s index)) m).2).
    set (m1 := with_a0 (Z.of_nat (length (scoped_variants (state m)))) mb).
    assert (Hkept : capabilities_kept m m1)
      by (apply (steps_create_scoped_variant (VInt (char_at s index)) m)).
    assert (Hh1 : get_scoped_variant h m1 = Some (VString s))
      by (apply Hkept; exact Hh).
    destruct (string_handle_checked h s m1 Hh1) as [His1 Hstr1].
    exists m1. split; [|split; [reflexivity|split]].
    + unfold api_string_at. erewrite bind_ok by reflexivity.
      rewrite His, Hstr. cbn [negb].
      replace (index <? 0) with false by (symmetry; apply Z.ltb_ge; lia).
      replace (Z.of_nat (String_length s) <=? index) with false
        by (symmetry; apply Z.leb_gt; lia).
      cbn [orb]. erewrite bind_ok by reflexivity. reflexivity.
    + apply (create_scoped_variant_get (VInt (char_at s index)) m Hval).
    + unfold api_string_size. erewrite bind_ok by reflexivity.
      rewrite His1, Hstr1. reflexivity.
Qed.

(** The string of the one character U+00E9, whose encoding is the two
    bytes C3 A9, created by the guest with an engine that decodes those
    bytes: its length is 1, index 1 is out of bounds, and the character at
    index 0 is 233. *)
Lemma string_at_bounds_witness :
  let e_acute := String (Ascii.ascii_of_nat 195)
                   (String (Ascii.ascii_of_nat 169) EmptyString) in
  let m0 := mkSandbox 0 0 sample_memory 4096 12 100 0 0
              (replicate (S MAX_LEVEL) empty_state) [] []
              (fun _ _ => [VString e_acute]) [] [] [] in
  let m := (api_string_create e_acute m0).2 in
  get_scoped_variant 0 m = Some (VString e_acute) /\
  api_string_at 0 1 m =
    (Throw (runtime_error "String index out of bounds"),
     with_err_log (err_log m ++ ["String index out of bounds"]) m) /\
  exists m1,
    api_string_at 0 0 m = (Ok tt, m1) /\
    m_a0 m1 = 1 /\
    get_scoped_variant 1 m1 = Some (VInt 233) /\
    api_string_size 0 m1 = (Ok tt, with_a0 1 m1).
Proof.
  intros e_acute m0 m. split; [reflexivity|].
  destruct (string_at_bounds 0 e_acute 1 m eq_refl) as [H1 _].
  destruct (string_at_bounds 0 e_acute 0 m eq_refl) as [_ H2].
  split.
  - apply H1. right. vm_compute. discriminate.
  - apply H2. split; [lia|reflexivity].
Defined.

(** ** Calls on a Variant *)

Lemma get_handle_same h m m' :
  same_scope m m' -> get_handle h m' = get_handle h m.
Proof.
  intros H. unfold get_handle. destruct (h <? 0); [reflexivity|].
  now apply get_scoped_variant_same.
Qed.

Lemma memarray_run addr n m :
  (exists l, memarray addr n m = (Ok l, m)) \/
  memarray addr n m = (Throw protection_fault, m).
Proof.
  unfold memarray. destruct (m_memory m !! addr) as [[l| | | |]|]; auto.
  destruct (decide (n ≤ length l)%nat); eauto.
Qed.

Lemma map_m_toVariant_frame args m :
  host_log (map_m toVariant args m).2 = host_log m /\
  same_scope m (map_m toVariant args m).2.
Proof.
  unfold same_scope. repeat split; by_frame.
Qed.

(** X19. [api_vcall] reaches the engine only after its checks: whenever the
    call made an engine call, there were at most 8 arguments, and the
    receiver was either of kind CALLABLE with a handle of the current scope
    or of kind OBJECT with a non-null address of the current scope. *)
Theorem vcall_reaches_engine_only_checked
    type_number vp method args_ptr args_size vret g rest m :
  m_memory m !! vp = Some (CVariants (g :: rest)) ->
  host_log (api_vcall type_number vp method args_ptr args_size vret m).2
    <> host_log m ->
  (args_size <= 8)%nat /\
  ((type g = CALLABLE /\ is_Some (get_handle (v_i g) m)) \/
   (type g = OBJECT /\ v_i g <> 0 /\ is_scoped_object (v_i g) m = true)).
Proof.
  intros Hvp Hlog. unfold api_vcall in Hlog.
  destruct (decide (8 < args_size)%nat) as [Hbig|Hle];
    [exfalso; apply Hlog; reflexivity|].
  split; [lia|].
  destruct (memarray_run args_ptr args_size m) as [[args Hargs]|Hargs];
    [|rewrite (bind_throw _ _ _ _ _ Hargs) in Hlog; exfalso; apply Hlog; reflexivity].
  rewrite (bind_ok _ _ _ _ _ Hargs) in Hlog.
  rewrite (bind_ok _ _ _ _ _ (load_head _ _ _ _ Hvp)) in Hlog.
  destruct (map_m_toVariant_frame args m) as [Hlogm Hsame].
  destruct (type g) eqn:Ht; try (exfalso; apply Hlog; reflexivity).
  - right. split; [reflexivity|].
    unfold get_object_from_address in Hlog.
    case_bool_decide as Hnull; [exfalso; apply Hlog; reflexivity|].
    split; [exact Hnull|].
    destruct (is_scoped_object (v_i g) m) eqn:Hsc; [reflexivity|].
    exfalso. apply Hlog. unfold bind, gets. cbn. rewrite Hsc. reflexivity.
  - left. split; [reflexivity|].
    destruct (map_m toVariant args m) as [[vargs|e] m1] eqn:Hmap; cbn in Hlogm.
    + rewrite (bind_ok _ _ _ _ _ Hmap) in Hlog.
      destruct (get_handle (v_i g) m) as [v|] eqn:Hh; [eexists; reflexivity|].
      exfalso. apply Hlog. unfold toVariantPtr, bind, gets. cbn.
      rewrite (get_handle_same _ _ _ Hsame), Hh. exact Hlogm.
    + rewrite (bind_throw _ _ _ _ _ Hmap) in Hlog. exfalso. apply Hlog. exact Hlogm.
Qed.

(** A call of a method on the object at 7, which is in the scope. *)
Lemma vcall_reaches_engine_only_checked_witness :
  let m := with_scoped_object 7 (boot object_memory) in
  methods_since m (api_vcall (fun _ => 0) 100 "free" 200 0 200 m).2 = ["callv"] /\
  is_scoped_object 7 m = true.
Proof.
  intros m. split; [reflexivity|].
  destruct (vcall_reaches_engine_only_checked (fun _ => 0) 100 "free" 200 0 200
              (mkGuestVariant OBJECT 7 []) [] m) as [_ [[H _]|(_ & _ & H)]].
  - reflexivity.
  - vm_compute. discriminate.
  - discriminate H.
  - exact H.
Defined.

(** ** Timers *)



(** ** The hotspot report *)


Lemma set_count_same r : set_count (count r) r = r.
Proof. now destruct r. Qed.

Lemma key_index_snoc keys k key :
  key_index (keys ++ [k]) key =
  match key_index keys key with
  | Some j => Some j
  | None => if decide (k = key) then Some (length keys) else None
  end.
Proof.
  unfold key_index.
  destruct (list_find (fun k => k = key) keys) as [[j x]|] eqn:E.
  - now rewrite (list_find_app_l _ _ _ _ _ E).
  - rewrite (list_find_app_r _ _ _ E). cbn.
    destruct (decide (k = key)); reflexivity.
Qed.

Lemma key_index_Some keys key i :
  key_index keys key = Some i ->
  keys !! i = Some key /\ forall j, (j < i)%nat -> keys !! j <> Some key.
Proof.
  unfold key_index. destruct (list_find _ keys) as [[j x]|] eqn:E; [|discriminate].
  cbn. intros [= ->]. apply list_find_Some in E as (Hl & -> & Hfirst).
  split; [exact Hl|]. intros j' Hlt Hj. exact (Hfirst j' key Hj Hlt eq_refl).
Qed.

Lemma key_index_None keys key :
  key_index keys key = None -> key ∉ keys.
Proof.
  unfold key_index. destruct (list_find _ keys) as [[j x]|] eqn:E; [discriminate|].
  intros _ Hin. apply list_find_None in E.
  rewrite Forall_forall in E. exact (E key Hin eq_refl).
Qed.

Lemma key_index_is_Some keys key :
  key ∈ keys -> is_Some (key_index keys key).
Proof.
  intros Hin. destruct (key_index keys key) eqn:E; [eexists; reflexivity|].
  now apply key_index_None in E.
Qed.

Lemma fmap_alter_key (f : Result -> Result) (i : nat) (l : list Result) :
  (forall r, hotspot_key (f r) = hotspot_key r) ->
  hotspot_key <$> alter f i l = hotspot_key <$> l.
Proof.
  intros Hf. revert i. induction l as [|x l IH]; intros [|i]; cbn; try reflexivity.
  - now rewrite Hf.
  - f_equal. apply IH.
Qed.

Lemma seq_snoc k : seq 0 (S k) = seq 0 k ++ [k].
Proof. rewrite seq_S. reflexivity. Qed.

(** The index map of the deduplication loop after [k] rounds: every key of
    the first [k] results, at the index of its first occurrence. *)
Lemma dedup_keys results k :
  (k <= length results)%nat ->
  hotspot_key <$> (foldl dedup_step (results, ∅) (seq 0 k)).1
    = hotspot_key <$> results /\
  forall key,
    (foldl dedup_step (results, ∅) (seq 0 k)).2 !! key
    = key_index (take k (hotspot_key <$> results)) key.
Proof.
  induction k as [|k IH]; intros Hk.
  - split; [reflexivity|]. intros key. cbn. apply lookup_empty.
  - destruct IH as [IHk IHd]; [lia|].
    rewrite seq_snoc, foldl_snoc.
    destruct (foldl dedup_step (results, ∅) (seq 0 k)) as [rs dd]. cbn [fst snd] in *.
    destruct (lookup_lt_is_Some_2 results k) as [r Hr]; [lia|].
    assert (Hkey : (hotspot_key <$> results) !! k = Some (hotspot_key r))
      by (now rewrite list_lookup_fmap, Hr).
    assert (Hrs : exists res, rs !! k = Some res /\ hotspot_key res = hotspot_key r).
    { rewrite <- IHk, list_lookup_fmap in Hkey.
      destruct (rs !! k) as [res|]; [|discriminate].
      exists res. split; [reflexivity|]. now injection Hkey. }
    destruct Hrs as (res & Hres & Hkres).
    rewrite (take_S_r _ _ _ Hkey).
    unfold dedup_step. cbn [fst snd]. rewrite Hres, Hkres.
    destruct (dd !! hotspot_key r) as [index|] eqn:Hdd; cbn [fst snd].
    + split.
      * rewrite !fmap_alter_key by reflexivity. exact IHk.
      * intros key. rewrite key_index_snoc, <- IHd.
        destruct (dd !! key) eqn:E; [reflexivity|].
        destruct (decide (hotspot_key r = key)) as [<-|]; [congruence|reflexivity].
    + split; [exact IHk|].
      intros key. rewrite key_index_snoc, <- IHd.
      destruct (decide (hotspot_key r = key)) as [<-|Hne].
      * rewrite lookup_insert_eq, Hdd. f_equal.
        rewrite length_take, length_fmap. lia.
      * rewrite lookup_insert_ne by exact Hne. now destruct (dd !! key).
Qed.

Lemma sum_counts_cons x l : sum_counts (x :: l) = count x + sum_counts l.
Proof. reflexivity. Qed.

Lemma sum_counts_app l1 l2 : sum_counts (l1 ++ l2) = sum_counts l1 + sum_counts l2.
Proof.
  unfold sum_counts. induction l1 as [|x l1 IH]; cbn; [reflexivity|].
  rewrite IH. lia.
Qed.

Lemma key_total_snoc l r key :
  key_total (l ++ [r]) key =
  key_total l key + (if decide (hotspot_key r = key) then count r else 0).
Proof.
  unfold key_total. rewrite filter_app, sum_counts_app, filter_cons, filter_nil.
  destruct (decide (hotspot_key r = key)); [rewrite sum_counts_cons|]; cbn; lia.
Qed.

Lemma sum_counts_nonneg l :
  Forall (fun r => 0 <= count r) l -> 0 <= sum_counts l.
Proof. induction 1; [reflexivity|]. rewrite sum_counts_cons. lia. Qed.

Lemma sum_counts_elem l i r :
  Forall (fun r => 0 <= count r) l -> l !! i = Some r -> count r <= sum_counts l.
Proof.
  intros H. revert i. induction H as [|x l Hx Hl IH]; intros [|i] Hi; try discriminate.
  - injection Hi as ->. rewrite sum_counts_cons.
    pose proof (sum_counts_nonneg l Hl). lia.
  - rewrite sum_counts_cons. cbn in Hi. specialize (IH i Hi). lia.
Qed.

Lemma sum_counts_take l k :
  Forall (fun r => 0 <= count r) l -> sum_counts (take k l) <= sum_counts l.
Proof.
  intros H. rewrite <- (take_drop k l) at 2. rewrite sum_counts_app.
  pose proof (sum_counts_nonneg (drop k l) (Forall_drop _ _ _ H)). lia.
Qed.

Lemma key_total_bounds l key :
  Forall (fun r => 0 <= count r) l -> 0 <= key_total l key <= sum_counts l.
Proof.
  induction 1 as [|x l Hx Hl IH]; [cbn; lia|].
  unfold key_total in *. rewrite filter_cons, sum_counts_cons.
  destruct (decide (hotspot_key x = key)); rewrite ?sum_counts_cons; lia.
Qed.

Lemma key_total_absent l key :
  key ∉ hotspot_key <$> l -> key_total l key = 0.
Proof.
  induction l as [|x l IH]; [reflexivity|].
  intros Hn. unfold key_total in *. rewrite filter_cons.
  destruct (decide (hotspot_key x = key)) as [<-|Hne].
  - exfalso. apply Hn. cbn. left.
  - apply IH. intros Hin. apply Hn. cbn. now right.
Qed.

Lemma sint32_small z : 0 <= z < 2 ^ 31 -> sint32 z = z.
Proof. intros H. unfold sint32. rewrite Z.mod_small; lia. Qed.

Lemma merged_count_bounds results k i r :
  Forall (fun r => 0 <= count r) results -> results !! i = Some r ->
  0 <= merged_count results k i r <= sum_counts results.
Proof.
  intros Hnn Hi. unfold merged_count.
  pose proof (sum_counts_nonneg _ Hnn).
  destruct (decide (i < k)%nat).
  - destruct (decide _); [|lia].
    pose proof (key_total_bounds (take k results) (hotspot_key r) (Forall_take _ _ _ Hnn)).
    pose proof (sum_counts_take results k Hnn). lia.
  - pose proof (sum_counts_elem _ _ _ Hnn Hi).
    rewrite Forall_forall in Hnn.
    pose proof (Hnn r (list_elem_of_lookup_2 _ _ _ Hi)). lia.
Qed.

Lemma merged_count_step results k r i ri :
  results !! k = Some r -> results !! i = Some ri ->
  merged_count results (S k) i ri =
  if decide (i = k) then
    match key_index (take k (hotspot_key <$> results)) (hotspot_key r) with
    | Some _ => 0
    | None => count r
    end
  else if decide (key_index (take k (hotspot_key <$> results)) (hotspot_key r) = Some i)
  then merged_count results k i ri + count r
  else merged_count results k i ri.
Proof.
  intros Hk Hi.
  assert (Hkey : (hotspot_key <$> results) !! k = Some (hotspot_key r))
    by (now rewrite list_lookup_fmap, Hk).
  unfold merged_count.
  rewrite (take_S_r _ _ _ Hkey), (take_S_r _ _ _ Hk).
  rewrite !key_index_snoc, !key_total_snoc.
  assert (Hlen : length (take k (hotspot_key <$> results)) = k).
  { rewrite length_take, length_fmap.
    apply lookup_lt_Some in Hk. lia. }
  rewrite Hlen.
  destruct (decide (i = k)) as [->|Hik].
  - assert (ri = r) by congruence. subst ri.
    rewrite decide_True by lia.
    destruct (key_index (take k (hotspot_key <$> results)) (hotspot_key r))
      as [j|] eqn:E.
    + apply key_index_Some in E as [Hj _].
      apply lookup_lt_Some in Hj. rewrite Hlen in Hj.
      rewrite decide_False by (intros [= ->]; lia). reflexivity.
    + destruct (decide (hotspot_key r = hotspot_key r)) as [_|]; [|congruence].
      rewrite decide_True by reflexivity.
      rewrite key_total_absent; [lia|].
      apply key_index_None in E. now rewrite fmap_take.
  - destruct (decide (i < k)%nat) as [Hlt|Hge].
    + rewrite decide_True by lia.
      assert (Hin : hotspot_key ri ∈ take k (hotspot_key <$> results)).
      { apply (list_elem_of_lookup_2 _ i).
        rewrite lookup_take_lt by exact Hlt. now rewrite list_lookup_fmap, Hi. }
      destruct (key_index_is_Some _ _ Hin) as [j Hj]. rewrite Hj.
      destruct (decide (key_index (take k (hotspot_key <$> results)) (hotspot_key r)
                        = Some i)) as [Hfirst|Hnf].
      * pose proof (key_index_Some _ _ _ Hfirst) as [Hl _].
        rewrite lookup_take_lt in Hl by exact Hlt.
        rewrite list_lookup_fmap, Hi in Hl. injection Hl as Hl.
        rewrite Hl in Hj. assert (j = i) by congruence. subst j.
        rewrite !decide_True by (reflexivity || congruence). rewrite Hl. reflexivity.
      * destruct (decide (Some j = Some i)) as [Hji|Hji]; [|reflexivity].
        destruct (decide (hotspot_key r = hotspot_key ri)) as [Heq|Hne]; [|lia].
        exfalso. apply Hnf. rewrite Heq, Hj. exact Hji.
    + rewrite !decide_False by lia.
      destruct (decide _) as [Hfirst|]; [|reflexivity].
      exfalso. apply key_index_Some in Hfirst as [Hl _].
      apply lookup_lt_Some in Hl. rewrite Hlen in Hl. lia.
Qed.

Lemma set_count_set_count a b r : set_count a (set_count b r) = set_count a r.
Proof. reflexivity. Qed.

Lemma merged_0 results : merged results 0 = results.
Proof.
  apply list_eq. intros i. unfold merged. rewrite list_lookup_imap.
  destruct (results !! i) as [r|]; [|reflexivity]. cbn.
  unfold merged_count. rewrite decide_False by lia. now rewrite set_count_same.
Qed.

Lemma merged_lookup results k i :
  merged results k !! i =
  (fun r => set_count (merged_count results k i r) r) <$> results !! i.
Proof. unfold merged. apply list_lookup_imap. Qed.

Lemma merged_k results k r :
  results !! k = Some r -> merged results k !! k = Some r.
Proof.
  intros Hr. rewrite merged_lookup, Hr. cbn. unfold merged_count.
  rewrite decide_False by lia. now rewrite set_count_same.
Qed.

Lemma merged_step_Some results k r index :
  results !! k = Some r ->
  key_index (take k (hotspot_key <$> results)) (hotspot_key r) = Some index ->
  merged results (S k) =
  alter (set_count 0) k
    (alter (fun x => set_count (count x + count r) x) index (merged results k)).
Proof.
  intros Hr Hidx.
  assert (Hlt : (index < k)%nat).
  { apply key_index_Some in Hidx as [Hl _]. apply lookup_lt_Some in Hl.
    rewrite length_take in Hl. lia. }
  apply list_eq. intros i.
  rewrite !list_lookup_alter, !merged_lookup.
  destruct (results !! i) as [ri|] eqn:Hi; cycle 1.
  { apply lookup_ge_None in Hi. apply lookup_lt_Some in Hr.
    rewrite !decide_False by lia. reflexivity. }
  cbn. rewrite (merged_count_step results k r i ri Hr Hi), Hidx.
  destruct (decide (k = i)) as [<-|Hki].
  - assert (ri = r) by congruence. subst ri.
    rewrite (decide_True (P := k = k)) by reflexivity.
    rewrite (decide_False (P := index = k)) by lia. rewrite Hr. reflexivity.
  - rewrite (decide_False (P := i = k)) by congruence.
    destruct (decide (index = i)) as [->|Hii].
    + rewrite Hi. cbn. rewrite decide_True by reflexivity. reflexivity.
    + rewrite decide_False by congruence. reflexivity.
Qed.

Lemma merged_step_None results k r :
  results !! k = Some r ->
  key_index (take k (hotspot_key <$> results)) (hotspot_key r) = None ->
  merged results (S k) = merged results k.
Proof.
  intros Hr Hidx. apply list_eq. intros i. rewrite !merged_lookup.
  destruct (results !! i) as [ri|] eqn:Hi; [|reflexivity].
  cbn. rewrite (merged_count_step results k r i ri Hr Hi), Hidx.
  destruct (decide (i = k)) as [->|Hik].
  - assert (ri = r) by congruence. subst ri.
    unfold merged_count. rewrite decide_False by lia. reflexivity.
  - rewrite decide_False by discriminate. reflexivity.
Qed.

(** The results after [k] rounds of the deduplication loop. *)
Lemma dedup_counts results k :
  Forall (fun r => 0 <= count r) results ->
  sum_counts results < 2 ^ 31 ->
  (k <= length results)%nat ->
  (foldl dedup_step (results, ∅) (seq 0 k)).1 = merged results k.
Proof.
  intros Hnn Hsum. induction k as [|k IH]; intros Hk.
  - cbn. now rewrite merged_0.
  - specialize (IH ltac:(lia)).
    destruct (dedup_keys results k ltac:(lia)) as [_ Hdd].
    rewrite seq_snoc, foldl_snoc.
    destruct (foldl dedup_step (results, ∅) (seq 0 k)) as [rs dd].
    cbn [fst snd] in *. subst rs.
    destruct (lookup_lt_is_Some_2 results k) as [r Hr]; [lia|].
    unfold dedup_step. cbn [fst snd]. rewrite (merged_k _ _ _ Hr), Hdd.
    destruct (key_index (take k (hotspot_key <$> results)) (hotspot_key r))
      as [index|] eqn:Hidx; cbn [fst snd].
    + rewrite (merged_step_Some results k r index Hr Hidx). f_equal.
      apply list_alter_ext; [|reflexivity].
      intros x Hx. rewrite merged_lookup in Hx.
      destruct (results !! index) as [r0|] eqn:Hr0; [|discriminate].
      injection Hx as <-. cbn [count set_count].
      rewrite sint32_small; [reflexivity|].
      assert (Hne : index <> k).
      { apply key_index_Some in Hidx as [Hl _]. apply lookup_lt_Some in Hl.
        rewrite length_take in Hl. lia. }
      pose proof (merged_count_bounds results (S k) index r0 Hnn Hr0) as Hb.
      rewrite (merged_count_step results k r index r0 Hr Hr0), Hidx in Hb.
      rewrite decide_False in Hb by exact Hne.
      rewrite decide_True in Hb by reflexivity. lia.
    + now rewrite (merged_step_None results k r Hr Hidx).
Qed.

Lemma sum_counts_alter (f : Result -> Result) (i : nat) (l : list Result) x :
  l !! i = Some x ->
  sum_counts (alter f i l) = sum_counts l - count x + count (f x).
Proof.
  revert i. induction l as [|y l IH]; intros [|i] Hi; try discriminate.
  - injection Hi as ->. cbn [alter list_alter]. rewrite !sum_counts_cons. lia.
  - cbn in Hi. cbn [alter list_alter]. rewrite !sum_counts_cons.
    change (list_alter f i l) with (alter f i l). rewrite (IH i Hi). lia.
Qed.

(** The deduplication moves measurements, it loses none. *)
Lemma sum_counts_merged results k :
  (k <= length results)%nat -> sum_counts (merged results k) = sum_counts results.
Proof.
  induction k as [|k IH]; intros Hk; [now rewrite merged_0|].
  specialize (IH ltac:(lia)).
  destruct (lookup_lt_is_Some_2 results k) as [r Hr]; [lia|].
  destruct (key_index (take k (hotspot_key <$> results)) (hotspot_key r))
    as [index|] eqn:Hidx.
  - assert (Hlt : (index < k)%nat).
    { apply key_index_Some in Hidx as [Hl _]. apply lookup_lt_Some in Hl.
      rewrite length_take in Hl. lia. }
    rewrite (merged_step_Some results k r index Hr Hidx).
    destruct (lookup_lt_is_Some_2 (merged results k) index) as [x Hx].
    { unfold merged. rewrite length_imap. lia. }
    erewrite sum_counts_alter; cycle 1.
    { rewrite list_lookup_alter_ne by lia. apply merged_k. exact Hr. }
    erewrite sum_counts_alter by exact Hx. cbn [count set_count]. lia.
  - now rewrite (merged_step_None results k r Hr Hidx).
Qed.


Lemma deduplicate_results results :
  Forall (fun r => 0 <= count r) results ->
  sum_counts results < 2 ^ 31 ->
  (deduplicate results).1 = merged results (length results).
Proof. intros Hnn Hsum. apply dedup_counts; [assumption|assumption|lia]. Qed.


Lemma merged_keys results k :
  hotspot_key <$> merged results k = hotspot_key <$> results.
Proof.
  apply list_eq. intros i. rewrite !list_lookup_fmap, merged_lookup.
  now destruct (results !! i).
Qed.

(** The counts when the loop has finished. *)
Lemma merged_final results i x :
  merged results (length results) !! i = Some x ->
  exists r,
    results !! i = Some r /\
    x = set_count
          (if decide (key_index (hotspot_key <$> results) (hotspot_key r) = Some i)
           then key_total results (hotspot_key r) else 0) r.
Proof.
  rewrite merged_lookup. destruct (results !! i) as [r|] eqn:Hi; [|discriminate].
  cbn. intros [= <-]. exists r. split; [reflexivity|].
  unfold merged_count. apply lookup_lt_Some in Hi.
  rewrite decide_True by exact Hi.
  rewrite !take_ge by (rewrite ?length_fmap; lia). reflexivity.
Qed.

Lemma merged_final_count results x :
  Forall (fun r => 0 <= count r) results ->
  x ∈ merged results (length results) ->
  0 <= count x /\ (count x <> 0 -> count x = key_total results (hotspot_key x)).
Proof.
  intros Hnn Hx. apply list_elem_of_lookup_1 in Hx as [i Hi].
  apply merged_final in Hi as (r & Hr & ->). cbn [count set_count].
  change (hotspot_key (set_count _ r)) with (hotspot_key r).
  pose proof (key_total_bounds results (hotspot_key r) Hnn).
  destruct (decide _); [split; [lia|reflexivity]|split; [lia|congruence]].
Qed.

Lemma firsts_nodup (P : Result -> Prop) `{!forall x, Decision (P x)} (l : list Result) :
  (forall i x, l !! i = Some x -> P x ->
     key_index (hotspot_key <$> l) (hotspot_key x) = Some i) ->
  NoDup (hotspot_key <$> filter P l).
Proof.
  induction l as [|x l IH] using rev_ind; intros Hf; [constructor|].
  assert (Hl : forall i y, l !! i = Some y -> P y ->
            key_index (hotspot_key <$> l) (hotspot_key y) = Some i).
  { intros i y Hi Hy.
    pose proof (Hf i y (lookup_app_l_Some _ _ _ _ Hi) Hy) as Hk.
    rewrite fmap_app in Hk. cbn in Hk. rewrite key_index_snoc in Hk.
    apply lookup_lt_Some in Hi.
    destruct (key_index (hotspot_key <$> l) (hotspot_key y)); [exact Hk|].
    rewrite length_fmap in Hk. destruct (decide _); [|discriminate].
    injection Hk as <-. lia. }
  rewrite filter_app, fmap_app, filter_cons, filter_nil.
  destruct (decide (P x)) as [Hx|Hx]; [|cbn; rewrite app_nil_r; now apply IH].
  cbn. apply NoDup_app. split; [now apply IH|]. split; [|apply NoDup_singleton].
  intros key Hkey Hin. apply list_elem_of_singleton in Hin. subst key.
  assert (Hkl : hotspot_key x ∈ hotspot_key <$> l).
  { apply list_elem_of_fmap in Hkey as (y & Hy & Hin).
    apply list_elem_of_filter in Hin as [_ Hin].
    rewrite Hy. apply list_elem_of_fmap. exists y. split; [reflexivity|exact Hin]. }
  destruct (key_index_is_Some _ _ Hkl) as [j Hj].
  pose proof (Hf (length l) x) as Hk.
  rewrite lookup_app_r, Nat.sub_diag in Hk by lia.
  specialize (Hk eq_refl Hx).
  rewrite fmap_app in Hk. cbn in Hk. rewrite key_index_snoc, Hj in Hk.
  apply key_index_Some in Hj as [Hlj _]. apply lookup_lt_Some in Hlj.
  rewrite length_fmap in Hlj. injection Hk as ->. lia.
Qed.

(** After the loop, the results that carry measurements have pairwise
    distinct keys. *)
Lemma merged_positive_keys results :
  NoDup (hotspot_key <$>
           filter (fun r => 0 < count r) (merged results (length results))).
Proof.
  apply firsts_nodup. intros i x Hi Hpos. rewrite merged_keys.
  apply merged_final in Hi as (r & Hr & ->). cbn [count set_count] in Hpos.
  change (hotspot_key (set_count _ r)) with (hotspot_key r).
  destruct (decide _) as [Hk|]; [exact Hk|lia].
Qed.

(** Every key with measurements has a result that carries all of them. *)
Lemma merged_complete results key :
  0 < key_total results key ->
  exists x, x ∈ merged results (length results) /\
            hotspot_key x = key /\ count x = key_total results key.
Proof.
  intros Hpos.
  assert (Hin : key ∈ hotspot_key <$> results).
  { destruct (decide (key ∈ hotspot_key <$> results)) as [|Hn]; [assumption|].
    rewrite (key_total_absent _ _ Hn) in Hpos. lia. }
  destruct (key_index_is_Some _ _ Hin) as [i Hi].
  pose proof (key_index_Some _ _ _ Hi) as [Hl _].
  rewrite list_lookup_fmap in Hl.
  destruct (results !! i) as [r|] eqn:Hr; [|discriminate]. injection Hl as Hl.
  exists (set_count (key_total results key) r). split; [|split; [exact Hl|reflexivity]].
  apply (list_elem_of_lookup_2 _ i). rewrite merged_lookup, Hr. cbn.
  unfold merged_count. apply lookup_lt_Some in Hr.
  rewrite decide_True by exact Hr.
  rewrite !take_ge by (rewrite ?length_fmap; lia).
  rewrite Hl. rewrite decide_True by exact Hi. reflexivity.
Qed.

(** The trimming loop removes zero counts from the end, and stops at the
    first result from the end that has a count. *)
Lemma trim_spec fuel l :
  (length l <= fuel)%nat ->
  exists zs,
    l = trim fuel l ++ zs /\
    Forall (fun r => count r = 0) zs /\
    forall r, last (trim fuel l) = Some r -> count r <> 0.
Proof.
  revert l. induction fuel as [|fuel IH]; intros l Hlen.
  - destruct l; [|cbn in Hlen; lia]. exists []. cbn. repeat split; [constructor|].
    intros r [=].
  - cbn [trim]. destruct (last l) as [r|] eqn:E.
    + pose proof E as E'. apply last_Some in E' as [l' ->].
      destruct (decide (count r = 0)) as [Hz|Hnz].
      * rewrite removelast_last.
        destruct (IH l') as (zs & Hl & Hzs & Hlast).
        { rewrite length_app in Hlen. cbn in Hlen. lia. }
        exists (zs ++ [r]). split; [|split; [|exact Hlast]].
        -- rewrite app_assoc, <- Hl. reflexivity.
        -- apply Forall_app. split; [exact Hzs|]. now constructor.
      * exists []. rewrite app_nil_r. repeat split; [constructor|].
        intros r'. rewrite E. now intros [= <-].
    + exists []. rewrite app_nil_r. repeat split; [constructor|].
      intros r. rewrite E. intros [=].
Qed.

Lemma sublist_filter_all (P : Result -> Prop) `{!forall x, Decision (P x)} l1 l2 :
  l1 `sublist_of` l2 -> Forall P l1 -> l1 `sublist_of` filter P l2.
Proof.
  induction 1 as [|x l1 l2 _ IH|x l1 l2 _ IH]; intros HP.
  - constructor.
  - apply Forall_cons in HP as [Hx HP]. rewrite filter_cons, decide_True by exact Hx.
    constructor. now apply IH.
  - rewrite filter_cons. destruct (decide (P x)); [constructor|]; now apply IH.
Qed.

(** ** Gathering the results *)

Section Report.
Variable addr2line : string -> Z -> option string.
Variable callback : string -> Z -> string.
Variable to_int : string -> Z.

Lemma resolve_fields res fb :
  elf (resolve addr2line callback to_int res fb) = elf res /\
  pc (resolve addr2line callback to_int res fb) = pc res /\
  count (resolve addr2line callback to_int res fb) = count res.
Proof.
  unfold resolve.
  repeat match goal with
         | |- context [match ?x with _ => _ end] => destruct x
         end; cbn; auto.
Qed.

Lemma sum_Z_app l1 l2 : sum_Z (l1 ++ l2) = sum_Z l1 + sum_Z l2.
Proof.
  unfold sum_Z. induction l1 as [|x l1 IH]; cbn; [reflexivity|]. rewrite IH. lia.
Qed.

Lemma sum_counts_sum_Z l : sum_counts l = sum_Z (count <$> l).
Proof.
  unfold sum_counts, sum_Z. induction l as [|x l IH]; cbn; [reflexivity|].
  now rewrite IH.
Qed.

Lemma uint32_add z c : uint32 (uint32 z + c) = uint32 (z + c).
Proof. unfold uint32. apply Zplus_mod_idemp_l. Qed.

Lemma gather_entries elf_path hint entries st :
  count <$> (foldl (gather_entry addr2line callback to_int elf_path hint) st entries).1
    = (count <$> st.1) ++ (snd <$> entries) /\
  (st.2 = uint32 (sum_Z (count <$> st.1)) ->
   (foldl (gather_entry addr2line callback to_int elf_path hint) st entries).2
     = uint32 (sum_Z ((count <$> st.1) ++ (snd <$> entries)))).
Proof.
  revert st. induction entries as [|[a c] entries IH]; intros st.
  - cbn. rewrite app_nil_r. auto.
  - cbn [foldl]. destruct (IH (gather_entry addr2line callback to_int elf_path hint st (a, c)))
      as [IH1 IH2].
    assert (Hc : count <$> (gather_entry addr2line callback to_int elf_path hint st (a, c)).1
                 = (count <$> st.1) ++ [c]).
    { unfold gather_entry. cbn [fst snd]. rewrite fmap_app. cbn.
      now rewrite (proj2 (proj2 (resolve_fields _ _))). }
    rewrite Hc in IH1, IH2. rewrite <- app_assoc in IH1, IH2. cbn in IH1, IH2.
    split; [exact IH1|].
    intros Hst. apply IH2. unfold gather_entry. cbn [fst snd count].
    rewrite Hst, uint32_add, sum_Z_app. cbn. do 2 f_equal. lia.
Qed.

Lemma gather_paths hint visited st :
  count <$> (foldl (gather_path addr2line callback to_int hint) st visited).1
    = (count <$> st.1) ++ all_counts visited /\
  (st.2 = uint32 (sum_Z (count <$> st.1)) ->
   (foldl (gather_path addr2line callback to_int hint) st visited).2
     = uint32 (sum_Z ((count <$> st.1) ++ all_counts visited))).
Proof.
  revert st. induction visited as [|path visited IH]; intros st.
  - cbn. rewrite app_nil_r. auto.
  - cbn [foldl]. unfold all_counts. cbn [mbind list_bind]. fold (all_counts visited).
    destruct (gather_entries path.1 hint path.2 st) as [E1 E2].
    change (foldl (gather_entry addr2line callback to_int path.1 hint) st path.2)
      with (gather_path addr2line callback to_int hint st path) in E1, E2.
    destruct (IH (gather_path addr2line callback to_int hint st path)) as [IH1 IH2].
    rewrite E1 in IH1, IH2. rewrite <- app_assoc in IH1, IH2.
    split; [exact IH1|].
    intros Hst. apply IH2, E2, Hst.
Qed.

(** The gathered results carry the counts of the profiling data, and the
    measurements are their sum as an [unsigned]. *)
Lemma gather_counts visited hint :
  count <$> (gather addr2line callback to_int visited hint).1 = all_counts visited /\
  (gather addr2line callback to_int visited hint).2 = uint32 (sum_Z (all_counts visited)).
Proof.
  unfold gather.
  destruct (gather_paths hint visited ([], 0)) as [H1 H2]. cbn in H1, H2.
  split; [exact H1|]. apply H2. reflexivity.
Qed.

End Report.

(** ** Sorting, cutting and trimming *)

Lemma sum_counts_perm l1 l2 : l1 ≡ₚ l2 -> sum_counts l1 = sum_counts l2.
Proof.
  induction 1; rewrite ?sum_counts_cons; try lia; congruence.
Qed.

Lemma sum_counts_zeros zs : Forall (fun r => count r = 0) zs -> sum_counts zs = 0.
Proof. induction 1; [reflexivity|]. rewrite sum_counts_cons. lia. Qed.

Lemma top_results_spec partial_sort D total :
  partial_sort_spec partial_sort ->
  Forall (fun r => 0 <= count r) D ->
  0 <= total ->
  exists P zs,
    P ≡ₚ D /\
    take (Z.to_nat (Z.min total (Z.of_nat (length D)))) P
      = top_results partial_sort D total ++ zs /\
    Forall (fun r => count r = 0) zs /\
    StronglySorted descending (top_results partial_sort D total) /\
    Forall (fun r => 0 < count r) (top_results partial_sort D total).
Proof.
  intros Hspec Hnn Htotal. unfold top_results.
  set (n := Z.to_nat (Z.min total (Z.of_nat (length D)))).
  destruct (Hspec n D ltac:(lia)) as (Hperm & Hsorted & _).
  set (P := partial_sort n D) in *. set (T := take n P) in *.
  destruct (trim_spec (length T) T ltac:(lia)) as (zs & HT & Hzs & Hlast).
  set (hs := trim (length T) T) in *.
  assert (Hsh : StronglySorted descending hs).
  { rewrite HT in Hsorted. eapply StronglySorted_app_1_l. exact Hsorted. }
  assert (HnnT : Forall (fun r => 0 <= count r) hs).
  { rewrite Forall_forall in Hnn |- *. intros x Hx. apply Hnn.
    rewrite <- Hperm, <- (take_drop n P). apply elem_of_app. left.
    fold T. rewrite HT. apply elem_of_app. now left. }
  exists P, zs. split; [exact Hperm|]. split; [exact HT|]. split; [exact Hzs|].
  split; [exact Hsh|].
  destruct (last hs) as [z|] eqn:Ez; cycle 1.
  { apply last_None in Ez. rewrite Ez. constructor. }
  pose proof (Hlast z eq_refl) as Hz.
  apply last_Some in Ez as [hs' Ehs].
  rewrite Ehs in Hsh, HnnT |- *.
  assert (Hzpos : 0 < count z).
  { rewrite Forall_app, Forall_singleton in HnnT. destruct HnnT as [_ Hz']. lia. }
  apply Forall_app. split; [|now apply Forall_singleton].
  apply Forall_forall. intros a Ha.
  pose proof (StronglySorted_app_1_elem_of _ _ _ a z Hsh Ha ltac:(left)) as Hd.
  unfold descending in Hd. lia.
Qed.

Lemma sort_by_count_spec : partial_sort_spec sort_by_count.
Proof.
  intros n l Hn. unfold sort_by_count.
  assert (Htr : Transitive descending) by (intros a b c; unfold descending; lia).
  assert (Hto : Total descending) by (intros a b; unfold descending; lia).
  pose proof (StronglySorted_merge_sort descending l) as Hs.
  rewrite <- (take_drop n (merge_sort descending l)) in Hs.
  split; [apply merge_sort_Permutation|]. split.
  - eapply StronglySorted_app_1_l. exact Hs.
  - intros a b Ha Hb.
    exact (StronglySorted_app_1_elem_of _ _ _ a b Hs Ha Hb).
Qed.

(** ** The report *)

Section ReportProperties.
Variable addr2line : string -> Z -> option string.
Variable callback : string -> Z -> string.
Variable to_int : string -> Z.
Variable partial_sort : nat -> list Result -> list Result.

Lemma report_results visited elf_hint total :
  Forall (fun c => 0 <= c) (all_counts visited) ->
  sum_Z (all_counts visited) < 2 ^ 31 ->
  let rs := (gather addr2line callback to_int visited elf_hint).1 in
  Forall (fun r => 0 <= count r) rs /\
  sum_counts rs = sum_Z (all_counts visited) /\
  exists st,
    (get_hotspots addr2line callback to_int partial_sort (Some visited) elf_hint total).2
    = (hotspot <$> top_results partial_sort (merged rs (length rs)) total) ++ [st].
Proof.
  intros Hnn Hsum rs.
  pose proof (gather_counts addr2line callback to_int visited elf_hint) as [Hc _].
  fold rs in Hc.
  assert (Hrs : Forall (fun r => 0 <= count r) rs).
  { rewrite <- Hc, Forall_fmap in Hnn. exact Hnn. }
  assert (Hs : sum_counts rs = sum_Z (all_counts visited))
    by (now rewrite sum_counts_sum_Z, Hc).
  split; [exact Hrs|]. split; [exact Hs|].
  unfold get_hotspots. subst rs.
  destruct (gather addr2line callback to_int visited elf_hint) as [rs tm].
  cbn [fst snd] in *.
  pose proof (deduplicate_results rs Hrs ltac:(lia)) as Hd.
  destruct (deduplicate rs) as [D dd]. cbn [fst snd] in *. subst D.
  eexists. reflexivity.
Qed.


(** X22. When the counts of the profiling data are not negative and their
    sum fits an [int], the hotspots that [get_hotspots] returns before the
    statistics are at most [total], in descending order of count, with
    pairwise distinct keys; each has a positive count, which is the sum of
    the counts of all resolved results with its key. *)
Theorem hotspots_sorted_merged_positive visited elf_hint total :
  partial_sort_spec partial_sort ->
  Forall (fun c => 0 <= c) (all_counts visited) ->
  sum_Z (all_counts visited) < 2 ^ 31 ->
  0 <= total ->
  exists hs st,
    (get_hotspots addr2line callback to_int partial_sort (Some visited) elf_hint total).2
      = (hotspot <$> hs) ++ [st] /\
    Z.of_nat (length hs) <= total /\
    StronglySorted descending hs /\
    NoDup (hotspot_key <$> hs) /\
    Forall (fun h =>
      0 < count h /\
      count h = key_total (gather addr2line callback to_int visited elf_hint).1
                  (hotspot_key h)) hs.
Proof.
  intros Hspec Hnn Hsum Htotal.
  destruct (report_results visited elf_hint total Hnn Hsum) as (Hrs & Hs & st & Hrep).
  set (rs := (gather addr2line callback to_int visited elf_hint).1) in *.
  set (D := merged rs (length rs)) in *.
  assert (HD : Forall (fun r => 0 <= count r) D).
  { apply Forall_forall. intros x Hx. now apply (merged_final_count rs x Hrs). }
  destruct (top_results_spec partial_sort D total Hspec HD Htotal)
    as (P & zs & Hperm & HT & Hzs & Hsorted & Hpos).
  set (hs := top_results partial_sort D total) in *.
  assert (Hsub : hs `sublist_of` P).
  { transitivity (take (Z.to_nat (Z.min total (Z.of_nat (length D)))) P);
      [|apply sublist_take].
    rewrite HT. now apply sublist_inserts_r. }
  exists hs, st. split; [exact Hrep|]. split; [|split; [exact Hsorted|split]].
  - apply (f_equal length) in HT. rewrite length_take, length_app in HT. lia.
  - apply (sublist_NoDup _ (hotspot_key <$> filter (fun r => 0 < count r) P)).
    + rewrite Hperm. apply merged_positive_keys.
    + apply fmap_sublist. now apply sublist_filter_all.
  - apply Forall_forall. intros h Hh.
    rewrite Forall_forall in Hpos. pose proof (Hpos h Hh) as Hp.
    split; [exact Hp|].
    assert (HhD : h ∈ D).
    { rewrite <- Hperm. eapply elem_of_sublist; eassumption. }
    apply (merged_final_count rs h Hrs HhD). lia.
Qed.

(** X23. When moreover [total] is at least the number of resolved
    results, the report loses nothing: every key with a positive sum of
    counts has a hotspot with that sum, and the counts of the hotspots add
    up to the sum of all counts of the profiling data. *)
Theorem hotspots_complete visited elf_hint total :
  partial_sort_spec partial_sort ->
  Forall (fun c => 0 <= c) (all_counts visited) ->
  sum_Z (all_counts visited) < 2 ^ 31 ->
  Z.of_nat (length (gather addr2line callback to_int visited elf_hint).1) <= total ->
  exists hs st,
    (get_hotspots addr2line callback to_int partial_sort (Some visited) elf_hint total).2
      = (hotspot <$> hs) ++ [st] /\
    sum_counts hs = sum_Z (all_counts visited) /\
    forall key,
      0 < key_total (gather addr2line callback to_int visited elf_hint).1 key ->
      exists h, h ∈ hs /\ hotspot_key h = key /\
        count h = key_total (gather addr2line callback to_int visited elf_hint).1 key.
Proof.
  intros Hspec Hnn Hsum Htotal.
  destruct (report_results visited elf_hint total Hnn Hsum) as (Hrs & Hs & st & Hrep).
  set (rs := (gather addr2line callback to_int visited elf_hint).1) in *.
  set (D := merged rs (length rs)) in *.
  assert (HlenD : length D = length rs) by (unfold D, merged; apply length_imap).
  assert (HD : Forall (fun r => 0 <= count r) D).
  { apply Forall_forall. intros x Hx. now apply (merged_final_count rs x Hrs). }
  destruct (top_results_spec partial_sort D total Hspec HD ltac:(lia))
    as (P & zs & Hperm & HT & Hzs & _ & _).
  set (hs := top_results partial_sort D total) in *.
  rewrite take_ge in HT
    by (rewrite (Permutation_length Hperm); lia).
  exists hs, st. split; [exact Hrep|]. split.
  - rewrite <- Hs, <- (sum_counts_merged rs (length rs)) by lia. fold D.
    rewrite <- (sum_counts_perm _ _ Hperm), HT, sum_counts_app.
    rewrite (sum_counts_zeros zs Hzs). lia.
  - intros key Hkey.
    destruct (merged_complete rs key Hkey) as (x & Hx & Hk & Hc). fold D in Hx.
    exists x. split; [|split; assumption].
    rewrite <- Hperm, HT in Hx. apply elem_of_app in Hx as [Hx|Hx]; [exact Hx|].
    rewrite Forall_forall in Hzs. specialize (Hzs x Hx). cbn beta in Hzs. lia.
Qed.

(** X24. [resolve] fills in the function, the file and the line of a
    result and leaves its binary, address and count as they are. With a
    binary and an answer of [addr2line] the file is never empty. Without a
    binary, or when the process cannot be started, the file is the
    fallback name and the function is what the callback answers. *)
Theorem resolve_keeps_measurement res fallback :
  let res' := resolve addr2line callback to_int res fallback in
  (elf res' = elf res /\ pc res' = pc res /\ count res' = count res) /\
  (elf res <> "" -> is_Some (addr2line (elf res) (pc res)) -> file res' <> "") /\
  (elf res = "" \/ addr2line (elf res) (pc res) = None ->
   file res' = fallback /\ function res' = callback fallback (pc res) /\
   line res' = line res).
Proof.
  intros res'. split; [apply resolve_fields|]. split.
  - intros Helf [output Hout]. subst res'. unfold resolve.
    rewrite decide_False by exact Helf. rewrite Hout.
    match goal with
    | |- file (if decide (file ?r = "") then _ else _) <> "" =>
        destruct (decide (file r = "")) as [He|Hne];
        [cbn [file]|exact Hne]
    end.
    repeat match goal with
           | |- context [match ?x with _ => _ end] => destruct x
           end; exact Helf.
  - intros Hno. subst res'. unfold resolve.
    destruct (decide (elf res = "")) as [He|Hne].
    + repeat split.
    + destruct Hno as [He|Hno]; [contradiction|]. rewrite Hno. repeat split.
Qed.

End ReportProperties.


Lemma hotspots_sorted_merged_positive_witness :
  let visited := [("a.elf", [(16, 3); (32, 2); (48, 4)])] in
  let callback := fun (file : string) (pc : Z) => if pc <? 40 then "f" else "g" in
  get_hotspots (fun _ _ => None) callback (fun _ => 0) sort_by_count
    (Some visited) "a.elf" 10
  = ([], [hotspot (mkResult "a.elf" 16 5 0 "f" "a.elf");
          hotspot (mkResult "a.elf" 48 4 0 "g" "a.elf");
          stats 2 9]) /\
  exists hs st,
    (get_hotspots (fun _ _ => None) callback (fun _ => 0) sort_by_count
       (Some visited) "a.elf" 10).2 = (hotspot <$> hs) ++ [st] /\
    Z.of_nat (length hs) <= 10 /\
    StronglySorted descending hs /\
    NoDup (hotspot_key <$> hs) /\
    Forall (fun h =>
      0 < count h /\
      count h = key_total (gather (fun _ _ => None) callback (fun _ => 0)
                             visited "a.elf").1 (hotspot_key h)) hs.
Proof.
  intros visited callback. split; [vm_compute; reflexivity|].
  apply (hotspots_sorted_merged_positive (fun _ _ => None) callback (fun _ => 0)
           sort_by_count visited "a.elf" 10).
  - exact sort_by_count_spec.
  - repeat constructor; discriminate.
  - vm_compute. reflexivity.
  - lia.
Defined.

Lemma hotspots_complete_witness :
  let visited := [("a.elf", [(16, 3); (32, 2); (48, 4)])] in
  let callback := fun (file : string) (pc : Z) => if pc <? 40 then "f" else "g" in
  exists hs st,
    (get_hotspots (fun _ _ => None) callback (fun _ => 0) sort_by_count
       (Some visited) "a.elf" 3).2 = (hotspot <$> hs) ++ [st] /\
    sum_counts hs = 9 /\
    forall key,
      0 < key_total (gather (fun _ _ => None) callback (fun _ => 0)
                       visited "a.elf").1 key ->
      exists h, h ∈ hs /\ hotspot_key h = key /\
        count h = key_total (gather (fun _ _ => None) callback (fun _ => 0)
                               visited "a.elf").1 key.
Proof.
  intros visited callback.
  apply (hotspots_complete (fun _ _ => None) callback (fun _ => 0)
           sort_by_count visited "a.elf" 3).
  - exact sort_by_count_spec.
  - repeat constructor; discriminate.
  - vm_compute. reflexivity.
  - vm_compute. discriminate.
Defined.

(** An answer of [addr2line] with a function and an unknown file. *)
Lemma resolve_keeps_measurement_witness :
  let addr2line := fun (elf : string) (pc : Z) =>
    Some (String.append "main" (String newline "??:0")) in
  resolve addr2line (fun _ _ => "") (fun _ => 0)
    (mkResult "a.elf" 16 3 0 "" "") "hint"
  = mkResult "a.elf" 16 3 0 "main" "a.elf" /\
  file (resolve addr2line (fun _ _ => "") (fun _ => 0)
          (mkResult "a.elf" 16 3 0 "" "") "hint") <> "".
Proof.
  intros addr2line. split; [reflexivity|].
  apply (resolve_keeps_measurement addr2line (fun _ _ => "") (fun _ => 0)
           (mkResult "a.elf" 16 3 0 "" "") "hint").
  - discriminate.
  - eexists. reflexivity.
Defined.

(** ** Packed arrays *)

(** X25. A packed array created from a guest [std::vector] is read back
    unchanged: for each of the five packed kinds that [api_vcreate]
    builds, the elements of the vector are stored as a packed array of
    that kind under the next free handle, and [api_vfetch] of the handle
    stores the same elements in the vector at any mapped address,
    whatever the method. *)
Theorem vcreate_packed_then_vfetch vp t k gdata data g0 rest method m :
  packed_create t = Some k ->
  state_valid m ->
  gdata <> 0 ->
  m_memory m !! gdata = Some (CStdVector (EScalars data)) ->
  m_memory m !! vp = Some (CVariants (g0 :: rest)) ->
  let h := length (scoped_variants (state m)) in
  exists m1,
    api_vcreate vp t 0 gdata m = (Ok tt, m1) /\
    m_memory m1 !! vp = Some (CVariants (mkGuestVariant t (Z.of_nat h) [] :: rest)) /\
    get_scoped_variant h m1 = Some (VPacked k data) /\
    forall gout, is_Some (m_memory m1 !! gout) ->
      exists m2,
        api_vfetch h gout method m1 = (Ok tt, m2) /\
        m_memory m2 !! gout = Some (CStdVector (EScalars data)).
Proof.
  intros Ht Hval Hnz Hdata Hvp h.
  set (ma := with_counter (m_counter m + 10000) m).
  assert (Hvala : state_valid ma) by exact Hval.
  set (mb := (create_scoped_variant (VPacked k data) ma).2).
  set (m1 := with_memory
               (<[vp := CVariants (mkGuestVariant t (Z.of_nat h) [] :: rest)]>
                  (m_memory mb)) mb).
  assert (Hread : read_scalar_vector gdata ma = (Ok data, ma)).
  { unfold read_scalar_vector, memarray_cell, bind. cbn. now rewrite Hdata. }
  assert (Hrun : api_vcreate vp t 0 gdata m = (Ok tt, m1)).
  { unfold api_vcreate. erewrite bind_ok by reflexivity. fold ma.
    destruct t; try discriminate; cbn [packed_create] in Ht |- *;
      injection Ht as <-;
      rewrite bool_decide_true by exact Hnz;
      (erewrite bind_ok by exact Hread);
      (erewrite bind_ok by reflexivity);
      unfold gv_assign; (erewrite store_variant_head by exact Hvp);
      reflexivity. }
  assert (Hh1 : get_scoped_variant h m1 = Some (VPacked k data))
    by (apply (create_scoped_variant_get (VPacked k data) ma Hvala)).
  exists m1. split; [exact Hrun|]. split; [apply lookup_insert_eq|].
  split; [exact Hh1|].
  intros gout [c Hc]. eexists. split.
  - unfold api_vfetch. erewrite bind_ok by reflexivity.
    erewrite bind_ok by reflexivity.
    change (get_scoped_variant h (with_counter (m_counter m1 + 10000) m1))
      with (get_scoped_variant h m1).
    rewrite Hh1. cbn [get_type packed_data].
    assert (Hcell : memarray_cell gout (with_counter (m_counter m1 + 10000) m1)
                    = (Ok c, with_counter (m_counter m1 + 10000) m1)).
    { unfold memarray_cell. cbn [m_memory with_counter]. now rewrite Hc. }
    destruct k; cbn [packed_type];
      (erewrite bind_ok by exact Hcell); reflexivity.
  - cbn. apply lookup_insert_eq.
Qed.

(** Guest memory with a vector of three bytes at 300, a variant at 200. *)
Lemma vcreate_packed_then_vfetch_witness :
  let m := boot (<[300 := CStdVector (EScalars [1; 2; 3])]> sample_memory) in
  exists m1,
    api_vcreate 200 PACKED_BYTE_ARRAY 0 300 m = (Ok tt, m1) /\
    m_memory m1 !! 200 = Some (CVariants [mkGuestVariant PACKED_BYTE_ARRAY 0 []]) /\
    get_scoped_variant 0 m1 = Some (VPacked PackedByte [1; 2; 3]) /\
    forall gout, is_Some (m_memory m1 !! gout) ->
      exists m2,
        api_vfetch 0 gout 0 m1 = (Ok tt, m2) /\
        m_memory m2 !! gout = Some (CStdVector (EScalars [1; 2; 3])).
Proof.
  intros m.
  apply (vcreate_packed_then_vfetch 200 PACKED_BYTE_ARRAY PackedByte 300 [1; 2; 3]
           nil_variant [] 0 m);
    [reflexivity|vm_compute; lia|discriminate|reflexivity|reflexivity].
Defined.

(** ** Lookups that find nothing *)

(** X26. [api_get_obj] answers a name that is not one of the allowed
    singletons, and the name [SceneTree] when the sandbox has no tree base,
    with result 0: the call returns, an error is logged, the engine is not
    called and nothing is admitted to the scope. *)
Theorem get_obj_unknown_name name m :
  find_allowed name = None ->
  name <> "SceneTree" \/ m_tree_base m = 0 ->
  exists msg,
    api_get_obj name m =
    (Ok tt, with_a0 0 (with_err_log (err_log m ++ [msg])
                         (with_counter (m_counter m + 150000) m))).
Proof.
  intros Hfind Hcase. unfold api_get_obj.
  erewrite bind_ok by reflexivity. rewrite Hfind.
  destruct (decide (name = "SceneTree")) as [Heq|Hne].
  - rewrite bool_decide_true by exact Heq.
    destruct Hcase as [Hc|Hbase]; [contradiction|].
    erewrite bind_ok by reflexivity. cbn [m_tree_base with_counter].
    rewrite bool_decide_true by exact Hbase.
    eexists. reflexivity.
  - rewrite bool_decide_false by exact Hne. eexists. reflexivity.
Qed.

Lemma get_obj_unknown_name_witness :
  exists msg,
    api_get_obj "OS" (boot sample_memory) =
    (Ok tt, with_a0 0 (with_err_log [msg] (with_counter 150000 (boot sample_memory)))).
Proof.
  apply (get_obj_unknown_name "OS" (boot sample_memory)); [reflexivity|].
  left. discriminate.
Defined.

(** ** Navigation in the tree *)

(** X27. Whenever [GET_PARENT], [DUPLICATE] or [GET_CHILD] returns, the
    guest variant at [gvar] holds a Nil value or the address of a node that
    is in the current scope; [GET_CHILD] writes the address as an integer,
    the other two as an object. *)
Theorem node_navigation_admits op addr gvar m m' :
  navigates op = true ->
  state_valid m ->
  api_node op addr gvar m = (Ok tt, m') ->
  exists g rest,
    m_memory m' !! gvar = Some (CVariants (g :: rest)) /\
    (type g = NIL \/
     (is_scoped_object (v_i g) m' = true /\
      type g = match op with Node_GET_CHILD => INT | _ => OBJECT end)).
Proof.
  intros Hop Hv H.
  destruct op; try discriminate;
    unfold api_node, get_node_from_address, api_node_switch, gv_set, encode,
      store_variant, memarray in H;
    run_in H; try discriminate.
  all: try (inversion H; subst m'; clear H).
  all: repeat match goal with
       | Hl : (0 < length ?l)%nat |- _ =>
           destruct l; [cbn in Hl; lia|]; clear Hl
       end.
  all: cbn; rewrite lookup_insert_eq; do 2 eexists; (split; [reflexivity|]).
  all: cbn [type v_i];
    first [left; reflexivity | right; (split; [norm_scoped|reflexivity])].
  all: apply with_scoped_object_admits; repeat apply with_scoped_object_valid;
    exact Hv.
Qed.

(** An engine whose every reply is the object at address 77. *)
Lemma node_navigation_admits_witness :
  let m := mkSandbox 0 0 sample_memory 4096 12 100 0 0
             (replicate (S MAX_LEVEL) empty_state) [] []
             (fun _ _ => [VObject 77]) [] [] [] in
  let m0 := with_scoped_object 7 m in
  exists m',
    api_node Node_GET_CHILD 7 100 m0 = (Ok tt, m') /\
    m_memory m' !! 100 = Some (CVariants [mkGuestVariant INT 77 []]) /\
    is_scoped_object 77 m' = true.
Proof.
  intros m m0. eexists. split; [reflexivity|]. split; [reflexivity|].
  destruct (node_navigation_admits Node_GET_CHILD 7 100 m0
              (api_node Node_GET_CHILD 7 100 m0).2 eq_refl)
    as (g & rest & Hmem & [Hnil|[Hsc _]]).
  - vm_compute. lia.
  - reflexivity.
  - vm_compute in Hmem. injection Hmem as <- _. discriminate Hnil.
  - vm_compute in Hmem. injection Hmem as <- _. exact Hsc.
Defined.
